(** * A model of monacoEditorBindingHandler.ts

    The file embeds the editor store ([MonacoEditorStore]) and the knockout
    binding handler ([MonacoBindingHandlerHelper]) of
    src/monacoEditorBindingHandler.ts and states what they do.

    - Every method is a computation in a small state-and-exception monad
      over the part of the browser state that the code touches: the ids of
      the DOM elements, the object literals, the observables, the text
      models and widgets of the editor library, the store itself, the
      loader callbacks that wait, and the disposal callbacks registered.
    - Objects that are shared by reference (option records, widgets, text
      models) live in heaps and are passed around as references.
    - The object that the store uses as a dictionary is a plain object: a
      finite map of its own properties, the ones [hasOwnProperty] answers
      for, and its prototype.  A read follows the prototype, so it finds
      the members of Object.prototype too; a call of [hasOwnProperty] on
      the object is itself such a read; and an assignment to '__proto__'
      replaces the prototype instead of adding a property.
    - The calls to [console.debug] are left out. *)

From Stdlib Require Import ZArith NArith Ascii String List Bool Lia.
From stdpp Require Import base option list gmap strings pretty fin_maps.

Local Open Scope string_scope.

(** ** JavaScript values *)

Abbreviation Loc := positive (only parsing).
Abbreviation Handle := positive (only parsing).
Abbreviation Element := positive (only parsing).
Abbreviation ObsRef := positive (only parsing).
Abbreviation ModelRef := positive (only parsing).

(** The values that flow through the handler.  Numbers carry their integer
    value ([VNaN] apart), which is all [!x] looks at; [VObj] is a reference
    to an object literal in the heap and [VModel] a reference to a text
    model made by [monaco.editor.createModel]. *)
Inductive JSVal : Type :=
  | VUndefined
  | VNull
  | VBool (b : bool)
  | VNum (n : Z)
  | VNaN
  | VStr (s : string)
  | VObj (l : Loc)
  | VModel (m : ModelRef).

(** ToBoolean: what [!x] and [x || y] test. *)
Definition truthy (v : JSVal) : bool :=
  match v with
  | VUndefined | VNull | VNaN => false
  | VBool b => b
  | VNum n => negb (n =? 0)%Z
  | VStr s => negb (String.eqb s "")
  | VObj _ | VModel _ => true
  end.

(** [o.k] on an object literal: an absent property reads [undefined]. *)
Definition prop (o : gmap string JSVal) (k : string) : JSVal :=
  default VUndefined (o !! k).

(** ** The widget

    Modelled from the spec: the widget library is an external collaborator.
    It builds a text model from an initial text and a language tag, and a
    widget from a DOM element and an options record; the widget handle
    offers getValue/setValue/setPosition/layout/dispose and
    onDidChangeModelContent.  The records keep what those calls leave
    behind: the text of the model and how often it was replaced; for the
    widget its model, the last position set, how often its layout was
    recomputed, whether it was released, and the listeners registered. *)

Record Position := mkPosition { lineNumber : Z; column : Z }.

(** What [koModelPropAccessor()] returns: a plain value or an observable. *)
Inductive ModelProp : Type :=
  | Plain (v : string)
  | Observable (o : ObsRef).

Record TextModel := mkTextModel {
  tm_value : string;
  tm_language : JSVal;
  tm_versionId : nat
}.

Record Editor := mkEditor {
  ed_container : Element;
  ed_options : JSVal;
  ed_model : ModelRef;
  ed_position : option Position;
  ed_layouts : nat;
  ed_disposed : bool;
  ed_listeners : list (Element * ModelProp)
}.

Definition model_setValue (v : string) (m : TextModel) : TextModel :=
  mkTextModel v (tm_language m) (S (tm_versionId m)).

Definition setPosition (p : Position) (e : Editor) : Editor :=
  mkEditor (ed_container e) (ed_options e) (ed_model e) (Some p)
           (ed_layouts e) (ed_disposed e) (ed_listeners e).

Definition layout (e : Editor) : Editor :=
  mkEditor (ed_container e) (ed_options e) (ed_model e) (ed_position e)
           (S (ed_layouts e)) (ed_disposed e) (ed_listeners e).

Definition dispose (e : Editor) : Editor :=
  mkEditor (ed_container e) (ed_options e) (ed_model e) (ed_position e)
           (ed_layouts e) true (ed_listeners e).

Definition onDidChangeModelContent (l : Element * ModelProp) (e : Editor) : Editor :=
  mkEditor (ed_container e) (ed_options e) (ed_model e) (ed_position e)
           (ed_layouts e) (ed_disposed e) (ed_listeners e ++ [l]).

(** ** The store and the state around it *)

(** What a plain object inherits from: Object.prototype, as after [{}], or
    a widget, after an assignment to '__proto__'. *)
Inductive Prototype : Type :=
  | ObjectPrototype
  | WidgetPrototype (h : Handle).

#[global] Instance Prototype_eq_dec : EqDecision Prototype.
Proof. solve_decision. Defined.

(** The two private fields of [MonacoEditorStore].  The seed is a JavaScript
    number that only ever holds a count; it is modelled by [N], which is
    exact on the integer range of a double.  The object in
    [_monacoEditorInstances] is given by its own properties and by its
    prototype. *)
Record MonacoEditorStore := mkStore {
  _nextStoreEntryId : N;
  _monacoEditorInstances : gmap string Handle;
  _monacoEditorInstances_prototype : Prototype
}.

(** A [require] callback that [create] has queued and the loader has not
    run yet, with the variables it closes over. *)
Record Pending := mkPending {
  p_element : Element;
  p_options : JSVal;
  p_accessor : ModelProp;
  p_startingEditorValue : string
}.

Record World := mkWorld {
  dom_ids : gmap Element string;          (* element.id, absent reads '' *)
  heap : gmap Loc (gmap string JSVal);    (* object literals *)
  observables : gmap ObsRef string;       (* knockout observables *)
  models : gmap ModelRef TextModel;       (* text models created so far *)
  editors : gmap Handle Editor;           (* widgets created so far *)
  monacoEditors : MonacoEditorStore;      (* ko.monacoEditors *)
  loading : list Pending;                 (* queued require callbacks *)
  disposeCallbacks : list Element         (* domNodeDisposal registrations *)
}.

Definition with_dom_ids (d : gmap Element string) (w : World) : World :=
  mkWorld d (heap w) (observables w) (models w) (editors w) (monacoEditors w)
          (loading w) (disposeCallbacks w).

Definition with_heap (h : gmap Loc (gmap string JSVal)) (w : World) : World :=
  mkWorld (dom_ids w) h (observables w) (models w) (editors w) (monacoEditors w)
          (loading w) (disposeCallbacks w).

Definition with_observables (o : gmap ObsRef string) (w : World) : World :=
  mkWorld (dom_ids w) (heap w) o (models w) (editors w) (monacoEditors w)
          (loading w) (disposeCallbacks w).

Definition with_models (m : gmap ModelRef TextModel) (w : World) : World :=
  mkWorld (dom_ids w) (heap w) (observables w) m (editors w) (monacoEditors w)
          (loading w) (disposeCallbacks w).

Definition with_editors (e : gmap Handle Editor) (w : World) : World :=
  mkWorld (dom_ids w) (heap w) (observables w) (models w) e (monacoEditors w)
          (loading w) (disposeCallbacks w).

Definition with_store (s : MonacoEditorStore) (w : World) : World :=
  mkWorld (dom_ids w) (heap w) (observables w) (models w) (editors w) s
          (loading w) (disposeCallbacks w).

Definition with_loading (l : list Pending) (w : World) : World :=
  mkWorld (dom_ids w) (heap w) (observables w) (models w) (editors w)
          (monacoEditors w) l (disposeCallbacks w).

Definition with_disposeCallbacks (l : list Element) (w : World) : World :=
  mkWorld (dom_ids w) (heap w) (observables w) (models w) (editors w)
          (monacoEditors w) (loading w) l.

(** [this._monacoEditorInstances] and [this._nextStoreEntryId] of the store
    installed as [ko.monacoEditors]. *)
Definition instances (w : World) : gmap string Handle :=
  _monacoEditorInstances (monacoEditors w).

Definition nextStoreEntryId (w : World) : N :=
  _nextStoreEntryId (monacoEditors w).

Definition prototypeOf (w : World) : Prototype :=
  _monacoEditorInstances_prototype (monacoEditors w).

Definition with_instances (m : gmap string Handle) (w : World) : World :=
  with_store (mkStore (nextStoreEntryId w) m (prototypeOf w)) w.

Definition with_nextStoreEntryId (n : N) (w : World) : World :=
  with_store (mkStore n (instances w) (prototypeOf w)) w.

Definition with_prototype (p : Prototype) (w : World) : World :=
  with_store (mkStore (nextStoreEntryId w) (instances w) p) w.

(** [element.id]: the empty string when the element has no id. *)
Definition element_id (element : Element) (w : World) : string :=
  default "" (dom_ids w !! element).

(** The constructor, and a page that has just loaded the script. *)
Definition new_MonacoEditorStore : MonacoEditorStore :=
  mkStore 0 ∅ ObjectPrototype.

Definition page (ids : gmap Element string) : World :=
  mkWorld ids ∅ ∅ ∅ ∅ new_MonacoEditorStore [] [].

(** ** Computations: state passing with exceptions *)

Inductive Exn : Type :=
  | Error (message : string)
  | TypeError (message : string).

Inductive Outcome (A : Type) : Type :=
  | Returns (a : A) (w : World)
  | Throws (e : Exn) (w : World).
Arguments Returns {A} a w.
Arguments Throws {A} e w.

Definition M (A : Type) : Type := World -> Outcome A.

Definition ret {A} (a : A) : M A := fun w => Returns a w.

Definition bind {A B} (m : M A) (f : A -> M B) : M B :=
  fun w => match m w with
           | Returns a w' => f a w'
           | Throws e w' => Throws e w'
           end.

Definition throw {A} (e : Exn) : M A := fun w => Throws e w.
Definition gets {A} (f : World -> A) : M A := fun w => Returns (f w) w.
Definition modify (f : World -> World) : M unit := fun w => Returns tt (f w).

Notation "x <- m ;; k" := (bind m (fun x => k))
  (at level 100, m at next level, right associativity).
Notation "m ;;; k" := (bind m (fun _ => k))
  (at level 100, right associativity).

(** The state an outcome leaves behind, thrown or not. *)
Definition world_of {A} (o : Outcome A) : World :=
  match o with Returns _ w => w | Throws _ w => w end.

(** ** Property access on values *)

(** [v.k]: the code only reads properties of values it has just made
    truthy; a primitive has none of the option names. *)
Definition readProp (v : JSVal) (k : string) (w : World) : JSVal :=
  match v with
  | VObj l => match heap w !! l with
              | Some o => prop o k
              | None => VUndefined
              end
  | _ => VUndefined
  end.

Definition getProp (v : JSVal) (k : string) : M JSVal :=
  gets (readProp v k).

(** [v.k = x]: the file has no 'use strict' directive, so a write to a
    property of a primitive is dropped. *)
Definition writeProp (v : JSVal) (k : string) (x : JSVal) (w : World) : World :=
  match v with
  | VObj l => match heap w !! l with
              | Some o => with_heap (<[l := <[k := x]> o]> (heap w)) w
              | None => w
              end
  | _ => w
  end.

Definition setProp (v : JSVal) (k : string) (x : JSVal) : M unit :=
  modify (writeProp v k x).

(** An object literal evaluates to a fresh object. *)
Definition newObject (o : gmap string JSVal) : M JSVal :=
  fun w => let l := fresh (dom (heap w)) in
           Returns (VObj l) (with_heap (<[l := o]> (heap w)) w).

(** ** MonacoEditorStore.parseOptions *)

(** [if ( !options.k ) options.k = d;] *)
Definition fillDefault (options : JSVal) (k : string) (d : JSVal) : M unit :=
  v <- getProp options k ;;
  if truthy v then ret tt else setProp options k d.

Definition minimapDefault : gmap string JSVal :=
  <["enabled" := VBool true]> (<["showSlider" := VStr "mouseover"]> ∅).

Definition parseOptions (optionsObjectLiteral : JSVal) : M JSVal :=
  options <- (if truthy optionsObjectLiteral
              then ret optionsObjectLiteral
              else newObject ∅) ;;
  fillDefault options "language" (VStr "javascript") ;;;
  fillDefault options "theme" (VStr "vs-dark") ;;;
  fillDefault options "lineNumbers" (VStr "on") ;;;
  fillDefault options "roundedSelection" (VBool true) ;;;
  fillDefault options "scrollBeyondLastLine" (VBool true) ;;;
  fillDefault options "readOnly" (VBool false) ;;;
  fillDefault options "fontSize" (VNum 20) ;;;
  fillDefault options "autoIndent" (VBool true) ;;;
  fillDefault options "emptySelectionClipboard" (VBool true) ;;;
  fillDefault options "folding" (VBool true) ;;;
  fillDefault options "glyphMargin" (VBool true) ;;;
  fillDefault options "mouseWheelZoom" (VBool true) ;;;
  fillDefault options "parameterHints" (VBool true) ;;;
  fillDefault options "renderIndentGuides" (VBool true) ;;;
  m <- getProp options "minimap" ;;
  (if truthy m then ret tt
   else (o <- newObject minimapDefault ;; setProp options "minimap" o)) ;;;
  ret options.

(** ** Calls on the widget library *)

(** A method call on a widget handle that updates the widget. *)
Definition call (h : Handle) (method : Editor -> Editor) : M unit :=
  modify (fun w => with_editors (alter method h (editors w)) w).

(** [editor.getValue()]: the text of the widget's model. *)
Definition getValue (h : Handle) : M string :=
  gets (fun w => match editors w !! h with
                 | Some e => match models w !! ed_model e with
                             | Some m => tm_value m
                             | None => ""
                             end
                 | None => ""
                 end).

(** [editor.setValue(v)]: replaces the text of the widget's model. *)
Definition setValue (h : Handle) (v : string) : M unit :=
  modify (fun w => match editors w !! h with
                   | Some e => with_models (alter (model_setValue v) (ed_model e) (models w)) w
                   | None => w
                   end).

(** A fresh text model holding the given text. *)
Definition newModel (value : string) (language : JSVal) : M ModelRef :=
  fun w => let m := fresh (dom (models w)) in
           Returns m (with_models (<[m := mkTextModel value language 0]> (models w)) w).

(** [monaco.editor.createModel(value, language)] *)
Definition createModel (value : string) (language : JSVal) : M JSVal :=
  m <- newModel value language ;; ret (VModel m).

(** [monaco.editor.create(element, options)]: the widget shows the model
    given in the options, or a model of its own when there is none. *)
Definition monaco_editor_create (element : Element) (options : JSVal) : M Handle :=
  given <- getProp options "model" ;;
  model <- (match given with
            | VModel m => ret m
            | _ => language <- getProp options "language" ;;
                   newModel "" language
            end) ;;
  fun w => let h := fresh (dom (editors w)) in
           Returns h (with_editors
                        (<[h := mkEditor element options model None 0 false []]> (editors w)) w).

(** ** Calls on knockout and on the loader

    Modelled from the spec: the binding framework supplies the unwrapping
    of observables, the test for a writable observable, the disposal hook
    tied to the removal of an element and the accessor for the bindings
    declared on an element; the loader takes a callback and runs it once
    the widget library is there, in the order of the calls. *)

(** [ko.utils.unwrapObservable(p)] *)
Definition currentValue (p : ModelProp) (w : World) : string :=
  match p with
  | Plain v => v
  | Observable o => default "" (observables w !! o)
  end.

Definition unwrapObservable (p : ModelProp) : M string :=
  gets (currentValue p).

(** [ko.isWriteableObservable(p)] *)
Definition isWriteableObservable (p : ModelProp) : bool :=
  match p with Plain _ => false | Observable _ => true end.

(** [ko.utils.domNodeDisposal.addDisposeCallback(element, callback)]: the
    callback of this file closes over the element only. *)
Definition addDisposeCallback (element : Element) : M unit :=
  modify (fun w => with_disposeCallbacks (disposeCallbacks w ++ [element]) w).

(** [require(modules, callback)]: the callback runs later, once the widget
    library is loaded. *)
Definition require (callback : Pending) : M unit :=
  modify (fun w => with_loading (loading w ++ [callback]) w).

(** ** MonacoEditorStore *)

Definition editorDomElementIdPrefix : string := "knockout-monaco-".

(** An argument declared [id: string]: a string, or [null] or [undefined],
    which the declared type admits. *)
Inductive Id : Type :=
  | IdNull
  | IdUndefined
  | IdStr (s : string).

#[global] Instance Id_eq_dec : EqDecision Id.
Proof. solve_decision. Defined.

(** The property name that [obj[id]] and [hasOwnProperty(id)] look up. *)
Definition propertyKey (id : Id) : string :=
  match id with
  | IdNull => "null"
  | IdUndefined => "undefined"
  | IdStr s => s
  end.

(** [id === null] and [id === ''] *)
Definition isNull (id : Id) : bool :=
  match id with IdNull => true | _ => false end.

Definition isEmpty (id : Id) : bool :=
  match id with IdStr s => String.eqb s "" | _ => false end.

(** *** The object in [_monacoEditorInstances]

    The members that every plain object inherits from Object.prototype,
    '__proto__' apart, which is an accessor and is treated on its own. *)
Definition objectPrototypeNames : list string :=
  [ "constructor"; "hasOwnProperty"; "isPrototypeOf"; "propertyIsEnumerable";
    "toLocaleString"; "toString"; "valueOf";
    "__defineGetter__"; "__defineSetter__";
    "__lookupGetter__"; "__lookupSetter__" ].

(** Modelled from the spec: the members of a widget handle, which the store
    object inherits once a widget is its prototype.  The spec names the
    operations that a handle offers; all of them are functions. *)
Definition widgetNames : list string :=
  [ "getValue"; "setValue"; "setPosition"; "layout"; "dispose";
    "onDidChangeModelContent" ].

(** What a read of the store object gives: a widget handle, a member that
    is inherited under that name (a function, or for '__proto__' the
    prototype object itself), or [undefined]. *)
Inductive Entry : Type :=
  | Widget (h : Handle)
  | Builtin (name : string)
  | Absent.

#[global] Instance Entry_eq_dec : EqDecision Entry.
Proof. solve_decision. Defined.

(** Whether the store holds an own property of that name. *)
Definition owns (m : gmap string Handle) (k : string) : bool :=
  match m !! k with Some _ => true | None => false end.

(** Whether a name is found on the prototype chain. *)
Definition inherited (p : Prototype) (k : string) : bool :=
  bool_decide (k ∈ objectPrototypeNames)
  || match p with
     | ObjectPrototype => false
     | WidgetPrototype _ => bool_decide (k ∈ widgetNames)
     end.

(** [this._monacoEditorInstances[ key ]]: an own property first, then the
    prototype chain. *)
Definition member (w : World) (key : string) : Entry :=
  match instances w !! key with
  | Some h => Widget h
  | None =>
      if String.eqb key "__proto__" then
        match prototypeOf w with
        | ObjectPrototype => Builtin key
        | WidgetPrototype h => Widget h
        end
      else if inherited (prototypeOf w) key then Builtin key
      else Absent
  end.

(** [this._monacoEditorInstances[ key ] = editor]: the name '__proto__',
    unless it is an own property, reaches the setter of Object.prototype,
    which makes the widget the prototype; every other name becomes or
    stays an own property. *)
Definition assign (key : string) (editor : Handle) (w : World) : World :=
  if String.eqb key "__proto__" && negb (owns (instances w) key)
  then with_prototype (WidgetPrototype editor) w
  else with_instances (<[key := editor]> (instances w)) w.

Definition undefinedHasNoProperty (name : string) : Exn :=
  TypeError ("Cannot read property '" +:+ name +:+ "' of undefined").

Definition notAFunction (name : string) : Exn :=
  TypeError (name +:+ " is not a function").

(** [x.name()] for a value [x] that was read from the store: a widget runs
    the method; an inherited member has no such method; [undefined] has no
    properties. *)
Definition invoke {A} (x : Entry) (name : string) (method : Handle -> M A) : M A :=
  match x with
  | Widget h => method h
  | Builtin _ => throw (notAFunction name)
  | Absent => throw (undefinedHasNoProperty name)
  end.

(** [this._monacoEditorInstances.hasOwnProperty( key )]: the method is read
    from the object like any other member, so an own property of that name
    hides it. *)
Definition hasOwnProperty (key : string) : M bool :=
  method <- gets (fun w => member w "hasOwnProperty") ;;
  match method with
  | Builtin _ => gets (fun w => owns (instances w) key)
  | Widget _ => throw (notAFunction "hasOwnProperty")
  | Absent => throw (notAFunction "hasOwnProperty")
  end.

(** The names a [for ( var id in obj )] loop visits: the own properties,
    then the enumerable ones that are inherited and not hidden. *)
Definition ownKeys (m : gmap string Handle) : list string :=
  (map_to_list m).*1.

Definition inheritedKeys (w : World) : list string :=
  match prototypeOf w with
  | ObjectPrototype => []
  | WidgetPrototype _ =>
      filter (fun k => owns (instances w) k = false) widgetNames
  end.

Definition forInKeys (w : World) : list string :=
  (ownKeys (instances w) ++ inheritedKeys w)%list.

Fixpoint forIn (keys : list string) (body : string -> M unit) : M unit :=
  match keys with
  | [] => ret tt
  | id :: rest => body id ;;; forIn rest body
  end.

Definition getNextId : M string :=
  modify (fun w => with_nextStoreEntryId (nextStoreEntryId w + 1) w) ;;;
  n <- gets nextStoreEntryId ;;
  ret (editorDomElementIdPrefix +:+ pretty n).

(** [this._monacoEditorInstances[ key ].dispose(); delete
    this._monacoEditorInstances[ key ];]: [delete] removes an own property
    and does nothing for any other name. *)
Definition disposeEntry (key : string) : M unit :=
  editor <- gets (fun w => member w key) ;;
  invoke editor "dispose" (fun h => call h dispose) ;;;
  modify (fun w => with_instances (delete key (instances w)) w).

Definition disposeEditor (id : Id) : M unit :=
  disposeEntry (propertyKey id).

Definition resizeAll : M unit :=
  keys <- gets forInKeys ;;
  forIn keys (fun id =>
    own <- hasOwnProperty id ;;
    if negb own then ret tt
    else
      editor <- gets (fun w => member w id) ;;
      invoke editor "layout" (fun h => call h layout)).

Definition invalidId : Exn :=
  Error "the id argument may not be null, empty, undefined, or blank".

Definition get (id : Id) : M Entry :=
  if isNull id || isEmpty id
  then throw invalidId
  else gets (fun w => member w (propertyKey id)).

(** The first half of [create]: everything before the loader calls back. *)
Definition create (element : Element) (options : JSVal)
    (koModelPropAccessor : ModelProp) : M unit :=
  id <- gets (element_id element) ;;
  (if negb (truthy (VStr id))
   then (next <- getNextId ;;
         modify (fun w => with_dom_ids (<[element := next]> (dom_ids w)) w))
   else ret tt) ;;;
  startingEditorValue <- unwrapObservable koModelPropAccessor ;;
  require (mkPending element options koModelPropAccessor startingEditorValue).

(** The callback that [create] gives to [require]. *)
Definition create_loaded (p : Pending) : M unit :=
  parsedOptions <- parseOptions (p_options p) ;;
  language <- getProp parsedOptions "language" ;;
  model <- createModel (p_startingEditorValue p) language ;;
  setProp parsedOptions "model" model ;;;
  editor <- monaco_editor_create (p_element p) parsedOptions ;;
  call editor (onDidChangeModelContent (p_element p, p_accessor p)) ;;;
  addDisposeCallback (p_element p) ;;;
  id <- gets (element_id (p_element p)) ;;
  modify (assign id editor).

(** The loader signals that the widget library is there: the oldest queued
    callback runs. *)
Definition loaderReady : M unit :=
  queue <- gets loading ;;
  match queue with
  | [] => ret tt
  | p :: rest => modify (with_loading rest) ;;; create_loaded p
  end.

(** The listener that [create] registers on the widget. *)
Definition contentChanged (l : Element * ModelProp) : M unit :=
  if isWriteableObservable l.2 then
    id <- gets (element_id l.1) ;;
    editor <- get (IdStr id) ;;
    v <- invoke editor "getValue" getValue ;;
    match l.2 with
    | Observable o =>
        modify (fun w => with_observables (<[o := v]> (observables w)) w)
    | Plain _ => ret tt
    end
  else ret tt.

(** The callback that [create] registers for the removal of the element. *)
Definition disposeCallback (element : Element) : M unit :=
  id <- gets (element_id element) ;;
  disposeEntry id.

(** A [for ... in] loop that carries a local variable along. *)
Fixpoint forInFold {A} (keys : list string) (body : A -> string -> M A) (a : A) :
    M A :=
  match keys with
  | [] => ret a
  | id :: rest => a' <- body a id ;; forInFold rest body a'
  end.

Definition hasEditors : M bool :=
  keys <- gets forInKeys ;;
  forInFold keys
    (fun (hasInstances : bool) id =>
       if hasInstances then ret hasInstances
       else
         own <- hasOwnProperty id ;;
         if negb own then ret hasInstances else ret true)
    false.

Definition updateEditor (id : Id) (koModelValue : string) : M unit :=
  known <- (if negb (isNull id) && negb (isEmpty id)
            then hasOwnProperty (propertyKey id)
            else ret false) ;;
  if known then
    editor <- gets (fun w => member w (propertyKey id)) ;;
    current <- invoke editor "getValue" getValue ;;
    if negb (String.eqb current koModelValue) then
      invoke editor "setValue" (fun h => setValue h koModelValue) ;;;
      invoke editor "setPosition" (fun h => call h (setPosition (mkPosition 0 0)))
    else ret tt
  else ret tt.

(** ** MonacoBindingHandlerHelper *)

Definition doubleQuote : string := String "034"%char "".

Definition missingOptions : Exn :=
  Error ("a " +:+ doubleQuote +:+ "meOptions" +:+ doubleQuote
         +:+ " property cannot be found on the monaco-editor DOM nockout binding").

(** [allBindingsAccessor.has(name)] and [allBindingsAccessor.get(name)] on
    the bindings declared on the element. *)
Definition bindings_has (allBindings : gmap string JSVal) (name : string) : bool :=
  match allBindings !! name with Some _ => true | None => false end.

Definition bindings_get (allBindings : gmap string JSVal) (name : string) : JSVal :=
  default VUndefined (allBindings !! name).

Definition init (element : Element) (valueAccessor : ModelProp)
    (allBindingsAccessor : gmap string JSVal) : M unit :=
  options <- (if bindings_has allBindingsAccessor "meOptions"
              then (let literal := bindings_get allBindingsAccessor "meOptions" in
                    if truthy literal then ret literal else newObject ∅)
              else throw missingOptions) ;;
  create element options valueAccessor.

Definition update (element : Element) (valueAccessor : ModelProp) : M unit :=
  codeModelValue <- unwrapObservable valueAccessor ;;
  id <- gets (element_id element) ;;
  updateEditor (IdStr id) codeModelValue.

(** [window.onresize] *)
Definition onresize : M unit := resizeAll.

(** * Notions used in the statements *)

(** ** Options normalization *)

(** What one [if ( !options.k ) options.k = d;] does to a record. *)
Definition fill (k : string) (d : JSVal) (o : gmap string JSVal) : gmap string JSVal :=
  if truthy (prop o k) then o else <[k := d]> o.

(** The fourteen defaults that are plain values, in the order of the code. *)
Definition scalarDefaults : list (string * JSVal) :=
  [ ("language", VStr "javascript");
    ("theme", VStr "vs-dark");
    ("lineNumbers", VStr "on");
    ("roundedSelection", VBool true);
    ("scrollBeyondLastLine", VBool true);
    ("readOnly", VBool false);
    ("fontSize", VNum 20);
    ("autoIndent", VBool true);
    ("emptySelectionClipboard", VBool true);
    ("folding", VBool true);
    ("glyphMargin", VBool true);
    ("mouseWheelZoom", VBool true);
    ("parameterHints", VBool true);
    ("renderIndentGuides", VBool true) ].

Definition fills (table : list (string * JSVal)) (o : gmap string JSVal) :
    gmap string JSVal :=
  foldl (fun o kd => fill kd.1 kd.2 o) o table.

(** The heap after [parseOptions] has run on the record [o] at [l]. *)
Definition normalizedHeap (l : Loc) (o : gmap string JSVal)
    (h : gmap Loc (gmap string JSVal)) : gmap Loc (gmap string JSVal) :=
  if truthy (prop o "minimap")
  then <[l := fills scalarDefaults o]> h
  else <[l := <["minimap" := VObj (fresh (dom h))]> (fills scalarDefaults o)]>
         (<[fresh (dom h) := minimapDefault]> h).

(** The record that [parseOptions] leaves at the caller's reference; [m] is
    the minimap object it may have had to make. *)
Definition normalizedRecord (o : gmap string JSVal) (m : Loc) : gmap string JSVal :=
  if truthy (prop o "minimap")
  then fills scalarDefaults o
  else <["minimap" := VObj m]> (fills scalarDefaults o).

(** Membership in a table that is written out. *)
Ltac in_table :=
  unfold scalarDefaults;
  repeat first [ apply list_elem_of_here | apply list_elem_of_further ].

(** A value that [!x] takes for absent: [undefined], [null], [false], [0],
    [NaN] or the empty string. *)
Definition falsy (v : JSVal) : Prop := truthy v = false.

(** ** Lookup and update by id *)

(** The state after the widget [h], whose model is [r], was given the text
    [v] and sent to the start of the document. *)
Definition retexted (h : Handle) (r : ModelRef) (v : string) (w : World) : World :=
  with_editors (alter (setPosition (mkPosition 0 0)) h (editors w))
    (with_models (alter (model_setValue v) r (models w)) w).


(** The text model of the widget [h], when both exist. *)
Definition modelOf (w : World) (h : Handle) : option TextModel :=
  editors w !! h ≫= (fun e => models w !! ed_model e).

(** Every handle in the store is a widget with a text model. *)
Definition wellFormed (w : World) : Prop :=
  map_Forall (fun _ h => is_Some (modelOf w h)) (instances w).

(** ** Completing a create *)

(** A computation that returns and changes at most the heap of object
    literals. *)
Definition heapOnly {A} (m : M A) : Prop :=
  forall w, exists a h', m w = Returns a (with_heap h' w).

(** The model that [monaco.editor.create] shows, and the models after it. *)
Definition shownModel (options : JSVal) (w : World) : ModelRef :=
  match readProp options "model" w with
  | VModel m => m
  | _ => fresh (dom (models w))
  end.

Definition modelsAfterCreate (options : JSVal) (w : World) : gmap ModelRef TextModel :=
  match readProp options "model" w with
  | VModel _ => models w
  | _ => <[fresh (dom (models w)) := mkTextModel "" (readProp options "language" w) 0]>
           (models w)
  end.

(** What the state [w'] after the callback of [create] for [p] has over the
    state [w] before it. *)
Definition createCompleted (p : Pending) (w w' : World) : Prop :=
  dom_ids w' = dom_ids w /\
  observables w' = observables w /\
  loading w' = loading w /\
  disposeCallbacks w' = (disposeCallbacks w ++ [p_element p])%list /\
  nextStoreEntryId w' = nextStoreEntryId w /\
  monacoEditors w'
    = monacoEditors (assign (element_id (p_element p) w) (fresh (dom (editors w))) w) /\
  (exists e, editors w' = <[fresh (dom (editors w)) := e]> (editors w) /\
             ed_container e = p_element p /\
             ed_disposed e = false /\
             ed_listeners e = [(p_element p, p_accessor p)] /\
             is_Some (models w' !! ed_model e)) /\
  (forall r, is_Some (models w !! r) -> models w' !! r = models w !! r).

(** ** Disposal and emptiness *)

(** The state after the entry [key], holding the widget [h], was disposed. *)
Definition disposed (key : string) (h : Handle) (w : World) : World :=
  with_instances (delete key (instances w))
    (with_editors (alter dispose h (editors w)) w).

(** ** The first half of create *)

(** The callback that [create] queues in the state [w]. *)
Definition queued (element : Element) (options : JSVal) (accessor : ModelProp)
    (w : World) : Pending :=
  mkPending element options accessor (currentValue accessor w).

(** The state after [getNextId] gave the element its id. *)
Definition named (element : Element) (w : World) : World :=
  with_dom_ids
    (<[element := editorDomElementIdPrefix +:+ pretty (nextStoreEntryId w + 1)%N]>
       (dom_ids w))
    (with_nextStoreEntryId (nextStoreEntryId w + 1) w).

(** ** The life of the store *)

(** What happens to the store after the bindings were applied: the loader
    runs the callback of a create, or an element is removed from the
    document and its disposal callback runs.  An exception thrown by a
    callback ends that callback only. *)
Inductive Event : Type :=
  | Completed (p : Pending)
  | Removed (element : Element).

Definition subject (ev : Event) : Element :=
  match ev with
  | Completed p => p_element p
  | Removed element => element
  end.

Definition happen (ev : Event) : M unit :=
  match ev with
  | Completed p => create_loaded p
  | Removed element => disposeCallback element
  end.

Definition run (evs : list Event) (w : World) : World :=
  foldl (fun w ev => world_of (happen ev w)) w evs.

(** A create for the element has completed and the element has not been
    disposed since. *)
Definition undisposed (evs : list Event) (element : Element) : Prop :=
  exists before p after,
    evs = (before ++ Completed p :: after)%list /\
    p_element p = element /\
    Removed element ∉ after.

(** The elements that the events are about carry pairwise different ids. *)
Definition distinctIds (w : World) (evs : list Event) : Prop :=
  forall ev1 ev2, ev1 ∈ evs -> ev2 ∈ evs ->
    element_id (subject ev1) w = element_id (subject ev2) w ->
    subject ev1 = subject ev2.

(** None of the elements that the events are about carries an id to which
    the store object gives a meaning of its own: 'hasOwnProperty', which
    as an entry hides the method of that name, and '__proto__', which
    names the prototype. *)
Definition plainIds (w : World) (evs : list Event) : Prop :=
  forall ev, ev ∈ evs ->
    element_id (subject ev) w <> "hasOwnProperty" /\
    element_id (subject ev) w <> "__proto__".

(** ** Ids *)

(** A sequence of [create] calls, each with its element, options and
    accessor. *)
Fixpoint creates (calls : list (Element * JSVal * ModelProp)) : M unit :=
  match calls with
  | [] => ret tt
  | (element, options, accessor) :: rest =>
      create element options accessor ;;; creates rest
  end.

(** [!element.id] *)
Definition lacksId (w : World) (element : Element) : bool :=
  negb (truthy (VStr (element_id element w))).

(** How many of the first [i + 1] elements had no id in [w]. *)
Fixpoint rank (w : World) (elements : list Element) (i : nat) : nat :=
  match elements with
  | [] => 0
  | element :: rest =>
      (if lacksId w element then 1 else 0)
      + match i with 0 => 0 | S i' => rank w rest i' end
  end.

(** How many of the elements had no id in [w]. *)
Definition generated (w : World) (elements : list Element) : nat :=
  length (filter (fun element => lacksId w element = true) elements).

(** ** The binding handler *)

(** The state in which [init] calls [create] when the literal is falsy: a
    new empty record has been made. *)
Definition withEmptyRecord (w : World) : World :=
  with_heap (<[fresh (dom (heap w)) := ∅]> (heap w)) w.

(** ** Every stored handle is a widget with a model *)

(** The widget behind every handle keeps its model from [w] to [w'], and
    the store and the models are the same. *)
Definition sameWidgets (w w' : World) : Prop :=
  instances w' = instances w /\
  models w' = models w /\
  forall h, ed_model <$> editors w' !! h = ed_model <$> editors w !! h.

(** The states that the page can bring about: it loads, evaluates object
    literals, writes observables, applies and updates bindings, loads the
    widget library, removes elements, is resized. *)
Inductive reachable : World -> Prop :=
  | reach_page ids :
      reachable (page ids)
  | reach_literal o w :
      reachable w -> reachable (world_of (newObject o w))
  | reach_observable r v w :
      reachable w -> reachable (with_observables (<[r := v]> (observables w)) w)
  | reach_create element options accessor w :
      reachable w -> reachable (world_of (create element options accessor w))
  | reach_loaderReady w :
      reachable w -> reachable (world_of (loaderReady w))
  | reach_removed element w :
      reachable w -> reachable (world_of (disposeCallback element w))
  | reach_updateEditor id v w :
      reachable w -> reachable (world_of (updateEditor id v w))
  | reach_resizeAll w :
      reachable w -> reachable (world_of (resizeAll w)).

(** ** Sample states *)

(** A record with an explicit [0], an explicit [false] and a theme. *)
Definition suppliedOptions : gmap string JSVal :=
  <["fontSize" := VNum 0]>
    (<["roundedSelection" := VBool false]> (<["theme" := VStr "vs"]> ∅)).

Definition optionsWorld : World :=
  with_heap (<[1%positive := suppliedOptions]> ∅) (page ∅).

(** Bindings that declare [meOptions: null]. *)
Definition nullOptions : gmap string JSVal := <["meOptions" := VNull]> ∅.

(** Bindings that declare an options literal stored at 1 in [optionsWorld]. *)
Definition literalOptions : gmap string JSVal := <["meOptions" := VObj 1]> ∅.

(** A page in which element 1 carries the id 'a', element 2 carries none
    and element 3 carries 'knockout-monaco-1'; and that page after the
    binding was applied to elements 1 and 2 and the widget library has
    loaded. *)
Definition demoPage : World :=
  page (<[3%positive := "knockout-monaco-1"]> (<[1%positive := "a"]> ∅)).

Definition demoLive : World :=
  world_of ((create 1 VUndefined (Plain "// start") ;;;
             create 2 VUndefined (Plain "second") ;;;
             loaderReady ;;;
             loaderReady) demoPage).

(** The page after the binding was applied to elements 1 and 2. *)
Definition demoBound : World :=
  world_of ((create 1 VUndefined (Plain "// start") ;;;
             create 2 VUndefined (Plain "second")) demoPage).

(** Both queued callbacks run, then element 1 is removed. *)
Definition demoEvents : list Event :=
  ((Completed <$> loading demoBound) ++ [Removed 1%positive])%list.

(** The page after the binding was applied to elements 2 and 3: element 2
    was given the id that element 3 carried from the start. *)
Definition clashBound : World :=
  world_of ((create 2 VUndefined (Plain "second") ;;;
             create 3 VUndefined (Plain "third")) demoPage).

(** Both queued callbacks run, then element 2 is removed. *)
Definition clashEvents : list Event :=
  ((Completed <$> loading clashBound) ++ [Removed 2%positive])%list.

(** A page with one observable that holds the starting text, and the
    state after the binding was applied to element 1 with the options [{}]
    and the widget library has loaded. *)
Definition boundPage : World :=
  with_observables (<[1%positive := "// start"]> ∅) (page ∅).

Definition boundLive : World :=
  world_of ((options <- newObject ∅ ;;
             create 1 options (Observable 1) ;;;
             loaderReady) boundPage).

(** A page whose elements 5, 6 and 7 carry the ids 'hasOwnProperty',
    'toString' and '__proto__', and element 1 the id 'a'. *)
Definition namesPage : World :=
  page (<[7%positive := "__proto__"]>
          (<[6%positive := "toString"]>
             (<[5%positive := "hasOwnProperty"]> (<[1%positive := "a"]> ∅)))).

(** The state after the binding was applied to one element and the widget
    library has loaded. *)
Definition bindLive (element : Element) (text : string) (w : World) : World :=
  world_of ((create element VUndefined (Plain text) ;;; loaderReady) w).

Definition hiddenLive : World := bindLive 5 "fifth" namesPage.
Definition toStringLive : World := bindLive 6 "sixth" namesPage.
Definition protoLive : World := bindLive 7 "seventh" namesPage.

(** The page [namesPage] after the binding was applied to element 7, and
    the callback that then waits. *)
Definition protoBound : World :=
  world_of (create 7 VUndefined (Plain "seventh") namesPage).

Definition protoEvents : list Event := Completed <$> loading protoBound.

(** The body of the loop of [resizeAll]. *)
Definition resizeAll_body (id : string) : M unit :=
  own <- hasOwnProperty id ;;
  if negb own then ret tt
  else
    editor <- gets (fun w => member w id) ;;
    invoke editor "layout" (fun h => call h layout).

(** The body of the loop of [hasEditors], with the flag it carries. *)
Definition hasEditors_body (hasInstances : bool) (id : string) : M bool :=
  if hasInstances then ret hasInstances
  else
    own <- hasOwnProperty id ;;
    if negb own then ret hasInstances else ret true.

(** ** More notions: options *)

(** The fifteen option names that [parseOptions] has a default for. *)
Definition optionNames : list string :=
  (scalarDefaults.*1 ++ ["minimap"])%list.

(** ** More notions: resizing *)

(** The widget after [n] further calls of [layout]. *)
Definition relaid (n : nat) (e : Editor) : Editor :=
  mkEditor (ed_container e) (ed_options e) (ed_model e) (ed_position e)
           (n + ed_layouts e) (ed_disposed e) (ed_listeners e).

(** Under how many keys the store holds the handle [h]. *)
Definition holders (m : gmap string Handle) (h : Handle) : nat :=
  length (filter (fun kv => kv.2 = h) (map_to_list m)).

(** [layout] called on each handle of a list in turn. *)
Definition relayout (kvs : list (string * Handle)) (editors : gmap Handle Editor) :
    gmap Handle Editor :=
  foldl (fun editors kv => alter layout kv.2 editors) editors kvs.

(** ** More notions: the binding in use *)

(** The text that [editor.getValue()] reads for the handle [h]. *)
Definition textOf (w : World) (h : Handle) : string :=
  match editors w !! h with
  | Some e => match models w !! ed_model e with
              | Some m => tm_value m
              | None => ""
              end
  | None => ""
  end.

(** The state after the listener wrote the text of [h] to the observable. *)
Definition pushed (o : ObsRef) (h : Handle) (w : World) : World :=
  with_observables (<[o := textOf w h]> (observables w)) w.

(** The state [demoLive] on a page whose observable 7 holds the text of the
    first widget. *)
Definition demoObserved : World :=
  with_observables (<[7%positive := "// start"]> ∅) demoLive.

(** ** More notions: from create to the widget *)

(** Options that [create] can be given: none ([null], [undefined] or another
    falsy value) or a record that exists. *)
Definition usable (options : JSVal) (w : World) : Prop :=
  truthy options = false \/ exists l o, options = VObj l /\ heap w !! l = Some o.

(** The state in which the callback of a [create] on [element] runs when
    nothing else was waiting: the element has been named if it had to be. *)
Definition bound (element : Element) (w : World) : World :=
  if lacksId w element then named element w else w.

(** ** More notions: a session of the page *)

(** What can happen on the page, one call at a time: the binding framework
    calls [init] and [update], code calls the methods of the store, the
    loader calls back, an element is removed and its disposal callback
    runs, the window is resized, a widget raises a change event, the user
    types into a widget, the page evaluates an object literal or writes an
    observable. *)
Inductive Call : Type :=
  | CallInit (element : Element) (valueAccessor : ModelProp)
      (allBindingsAccessor : gmap string JSVal)
  | CallUpdate (element : Element) (valueAccessor : ModelProp)
  | CallCreate (element : Element) (options : JSVal) (accessor : ModelProp)
  | CallGet (id : Id)
  | CallHasEditors
  | CallUpdateEditor (id : Id) (koModelValue : string)
  | CallResizeAll
  | LoaderCallsBack
  | ElementRemoved (element : Element)
  | ChangeEvent (listener : Element * ModelProp)
  | UserTypes (h : Handle) (text : string)
  | PageLiteral (o : gmap string JSVal)
  | PageWrites (r : ObsRef) (v : string).

Definition perform (c : Call) : M unit :=
  match c with
  | CallInit element valueAccessor allBindingsAccessor =>
      init element valueAccessor allBindingsAccessor
  | CallUpdate element valueAccessor => update element valueAccessor
  | CallCreate element options accessor => create element options accessor
  | CallGet id => get id ;;; ret tt
  | CallHasEditors => hasEditors ;;; ret tt
  | CallUpdateEditor id koModelValue => updateEditor id koModelValue
  | CallResizeAll => onresize
  | LoaderCallsBack => loaderReady
  | ElementRemoved element => disposeCallback element
  | ChangeEvent listener => contentChanged listener
  | UserTypes h text => setValue h text
  | PageLiteral o => newObject o ;;; ret tt
  | PageWrites r v =>
      modify (fun w => with_observables (<[r := v]> (observables w)) w)
  end.

(** The state after a sequence of calls; a call that throws ends there and
    the page goes on with the next. *)
Definition session (calls : list Call) (w : World) : World :=
  foldl (fun w c => world_of (perform c w)) w calls.

(** The store object does not hold the handle [h]: it is under no key and
    it is not the prototype. *)
Definition unstored (w : World) (h : Handle) : Prop :=
  (forall key, instances w !! key <> Some h) /\
  prototypeOf w <> WidgetPrototype h.

(** Nothing that the store's bookkeeping rests on differs between [w] and
    [w']: the ids, the store, the waiting callbacks, the set of text
    models, of every widget the element it lives in, its model and whether
    it was released, and all of a widget that is not in the store. *)
Definition quiet (w w' : World) : Prop :=
  dom_ids w' = dom_ids w /\
  monacoEditors w' = monacoEditors w /\
  loading w' = loading w /\
  (forall h,
     (fun e => (ed_container e, ed_disposed e, ed_model e)) <$> editors w' !! h
     = (fun e => (ed_container e, ed_disposed e, ed_model e)) <$> editors w !! h) /\
  dom (models w') = dom (models w) /\
  (forall h, unstored w h -> editors w' !! h = editors w !! h).

(** Every entry of the store has a nonempty key and holds a widget that was
    not released and lives in the element whose id is the key; every
    element with a waiting callback has an id; and a widget that is the
    prototype of the store object exists and is under no key. *)
Definition storeSound (w : World) : Prop :=
  (forall key h, instances w !! key = Some h ->
     key <> "" /\
     exists e, editors w !! h = Some e /\
               ed_disposed e = false /\
               element_id (ed_container e) w = key) /\
  (forall p, p ∈ loading w -> element_id (p_element p) w <> "") /\
  (forall h, prototypeOf w = WidgetPrototype h ->
     is_Some (editors w !! h) /\ forall key, instances w !! key <> Some h).

(** What a session has made of the ids that the page started with: an id
    that was there is kept, an element without one has none or a generated
    one whose number the counter has passed, and no two elements share a
    generated id. *)
Definition idsSound (ids : gmap Element string) (w : World) : Prop :=
  (forall element, element_id element (page ids) <> "" ->
     element_id element w = element_id element (page ids)) /\
  (forall element, element_id element (page ids) = "" ->
     element_id element w = "" \/
     exists n, (0 < n <= nextStoreEntryId w)%N /\
               element_id element w = editorDomElementIdPrefix +:+ pretty n) /\
  (forall first second,
     element_id first (page ids) = "" -> element_id second (page ids) = "" ->
     element_id first w <> "" ->
     element_id first w = element_id second w -> first = second).

(** How the ids and the counter move in one call: not at all, or one
    element without an id is given the next generated one. *)
Definition idsMove (w w' : World) : Prop :=
  (dom_ids w' = dom_ids w /\ nextStoreEntryId w' = nextStoreEntryId w) \/
  (exists element,
     element_id element w = "" /\
     nextStoreEntryId w' = (nextStoreEntryId w + 1)%N /\
     dom_ids w'
     = <[element := editorDomElementIdPrefix +:+ pretty (nextStoreEntryId w + 1)%N]>
         (dom_ids w)).

(** A session on the sample page: bindings applied, library loaded, the
    window resized, an element removed, the next element bound. *)
Definition demoCalls : list Call :=
  [ CallInit 1 (Plain "// start") literalOptions;
    CallInit 2 (Plain "second") nullOptions;
    CallUpdate 1 (Plain "// start");
    LoaderCallsBack;
    LoaderCallsBack;
    CallResizeAll;
    CallUpdate 2 (Plain "edited");
    ElementRemoved 1%positive;
    CallInit 4 (Plain "fourth") nullOptions;
    LoaderCallsBack ].

(** ** More notions: widgets and their text models *)

(** What one call can do to the widgets in going from [w] to [w']: nothing
    that the bookkeeping rests on; or nothing to the store, the widgets and
    the text models; or it releases a widget that a read of the store
    finds and deletes the own property of that name; or it makes a new
    widget with a new text model and assigns it to the store object. *)
Definition widgetsStep (w w' : World) : Prop :=
  quiet w w' \/
  (instances w' = instances w /\ prototypeOf w' = prototypeOf w /\
   editors w' = editors w /\ models w' = models w) \/
  (exists key h,
     member w key = Widget h /\
     instances w' = delete key (instances w) /\
     prototypeOf w' = prototypeOf w /\
     editors w' = alter dispose h (editors w) /\
     models w' = models w) \/
  (exists key e,
     instances w' = instances (assign key (fresh (dom (editors w))) w) /\
     prototypeOf w' = prototypeOf (assign key (fresh (dom (editors w))) w) /\
     editors w' = <[fresh (dom (editors w)) := e]> (editors w) /\
     models w !! ed_model e = None /\
     is_Some (models w' !! ed_model e) /\
     (forall r, is_Some (models w !! r) -> models w' !! r = models w !! r)).

(** Every widget shows a text model that exists, and no two widgets show
    the same one. *)
Definition modelsApart (w : World) : Prop :=
  (forall h e, editors w !! h = Some e -> is_Some (models w !! ed_model e)) /\
  (forall h1 h2 e1 e2,
     editors w !! h1 = Some e1 -> editors w !! h2 = Some e2 ->
     ed_model e1 = ed_model e2 -> h1 = h2).

(** The page of [clashBound] after both callbacks ran: the widget of
    element 3 has taken the entry of the widget of element 2. *)
Definition clashLive : World :=
  world_of ((loaderReady ;;; loaderReady) clashBound).

(** * Properties *)

(** ** The monad and the state record *)

Lemma bind_ret {A B} (a : A) (f : A -> M B) (w : World) :
  bind (ret a) f w = f a w.
Proof. reflexivity. Qed.

Lemma bind_gets {A B} (g : World -> A) (f : A -> M B) (w : World) :
  bind (gets g) f w = f (g w) w.
Proof. reflexivity. Qed.

Lemma bind_modify {B} (g : World -> World) (f : unit -> M B) (w : World) :
  bind (modify g) f w = f tt (g w).
Proof. reflexivity. Qed.

Lemma bind_throw {A B} (e : Exn) (f : A -> M B) (w : World) :
  bind (throw e) f w = Throws e w.
Proof. reflexivity. Qed.

Lemma with_heap_id (w : World) : with_heap (heap w) w = w.
Proof. by destruct w. Qed.

Lemma with_editors_id (w : World) : with_editors (editors w) w = w.
Proof. by destruct w. Qed.

Lemma with_models_id (w : World) : with_models (models w) w = w.
Proof. by destruct w. Qed.

Lemma with_instances_id (w : World) : with_instances (instances w) w = w.
Proof. by destruct w as [? ? ? ? ? [? ?] ? ?]. Qed.

(** ** Options normalization *)

Lemma lookup_fill (k k' : string) (d : JSVal) (o : gmap string JSVal) :
  fill k d o !! k' =
    if decide (k = k')
    then (if truthy (prop o k) then o !! k else Some d)
    else o !! k'.
Proof.
  unfold fill. destruct (truthy (prop o k)) eqn:Ht.
  - by case_decide; subst.
  - rewrite lookup_insert. by case_decide.
Qed.

Lemma lookup_fills_notin (table : list (string * JSVal)) (o : gmap string JSVal)
    (k : string) :
  k ∉ table.*1 -> fills table o !! k = o !! k.
Proof.
  revert o. induction table as [|[k0 d0] table IH]; intros o Hk; [done|].
  simpl in *. apply not_elem_of_cons in Hk as [Hne Hk].
  unfold fills in *. simpl. rewrite IH by done.
  rewrite lookup_fill. by case_decide.
Qed.

Lemma lookup_fills_in (table : list (string * JSVal)) (o : gmap string JSVal)
    (k : string) (d : JSVal) :
  NoDup table.*1 -> (k, d) ∈ table ->
  fills table o !! k = if truthy (prop o k) then o !! k else Some d.
Proof.
  revert o. induction table as [|[k0 d0] table IH]; intros o Hnd Hin.
  - by apply elem_of_nil in Hin.
  - simpl in Hnd. apply NoDup_cons in Hnd as [Hnotin Hnd].
    apply elem_of_cons in Hin as [Heq|Hin].
    + inversion Heq; subst k0 d0.
      change (fills ((k, d) :: table) o) with (fills table (fill k d o)).
      rewrite lookup_fills_notin by done.
      rewrite lookup_fill. by case_decide.
    + change (fills ((k0, d0) :: table) o) with (fills table (fill k0 d0 o)).
      assert (k0 ≠ k) as Hne.
      { intros ->. apply Hnotin. apply list_elem_of_fmap. by exists (k, d). }
      rewrite IH by done.
      unfold prop. rewrite lookup_fill. by case_decide.
Qed.

Lemma scalarDefaults_NoDup : NoDup scalarDefaults.*1.
Proof. apply (bool_decide_unpack _). by vm_compute. Qed.

Lemma fillDefault_at (l : Loc) (k : string) (d : JSVal) (o : gmap string JSVal)
    (h : gmap Loc (gmap string JSVal)) (w : World) {B} (f : unit -> M B) :
  bind (fillDefault (VObj l) k d) f (with_heap (<[l := o]> h) w)
  = f tt (with_heap (<[l := fill k d o]> h) w).
Proof.
  unfold fillDefault, bind, getProp, gets, readProp, fill. simpl.
  rewrite lookup_insert_eq.
  destruct (truthy (prop o k)); simpl; [done|].
  unfold setProp, modify, writeProp. simpl. rewrite lookup_insert_eq.
  unfold with_heap. simpl. by rewrite insert_insert_eq.
Qed.

Lemma heap_with_heap h (w : World) : heap (with_heap h w) = h.
Proof. reflexivity. Qed.

Lemma with_heap_with_heap h h' (w : World) :
  with_heap h (with_heap h' w) = with_heap h w.
Proof. reflexivity. Qed.

Lemma getProp_at (l : Loc) (k : string) (o : gmap string JSVal)
    (h : gmap Loc (gmap string JSVal)) (w : World) {B} (f : JSVal -> M B) :
  bind (getProp (VObj l) k) f (with_heap (<[l := o]> h) w)
  = f (prop o k) (with_heap (<[l := o]> h) w).
Proof.
  unfold bind, getProp, gets, readProp. simpl. by rewrite lookup_insert_eq.
Qed.

Lemma setProp_at (l : Loc) (k : string) (x : JSVal) (o : gmap string JSVal)
    (h : gmap Loc (gmap string JSVal)) (w : World) :
  setProp (VObj l) k x (with_heap (<[l := o]> h) w)
  = Returns tt (with_heap (<[l := <[k := x]> o]> h) w).
Proof.
  unfold setProp, modify, writeProp. simpl. rewrite lookup_insert_eq.
  unfold with_heap. simpl. by rewrite insert_insert_eq.
Qed.

Lemma newObject_at (o : gmap string JSVal) (w : World) {B} (f : JSVal -> M B) :
  bind (newObject o) f w
  = f (VObj (fresh (dom (heap w))))
      (with_heap (<[fresh (dom (heap w)) := o]> (heap w)) w).
Proof. reflexivity. Qed.

Lemma fills_scalarDefaults (o : gmap string JSVal) :
  fills scalarDefaults o =
  fill "renderIndentGuides" (VBool true)
    (fill "parameterHints" (VBool true)
    (fill "mouseWheelZoom" (VBool true)
    (fill "glyphMargin" (VBool true)
    (fill "folding" (VBool true)
    (fill "emptySelectionClipboard" (VBool true)
    (fill "autoIndent" (VBool true)
    (fill "fontSize" (VNum 20)
    (fill "readOnly" (VBool false)
    (fill "scrollBeyondLastLine" (VBool true)
    (fill "roundedSelection" (VBool true)
    (fill "lineNumbers" (VStr "on")
    (fill "theme" (VStr "vs-dark")
    (fill "language" (VStr "javascript") o))))))))))))).
Proof. reflexivity. Qed.

Lemma parseOptions_record (l : Loc) (o : gmap string JSVal) (w : World) :
  heap w !! l = Some o ->
  parseOptions (VObj l) w
  = Returns (VObj l) (with_heap (normalizedHeap l o (heap w)) w).
Proof.
  intros Hl. unfold parseOptions. simpl truthy. cbv iota.
  rewrite bind_ret.
  rewrite <- (with_heap_id w) at 1. rewrite <- (insert_id _ _ _ Hl) at 1.
  do 14 rewrite fillDefault_at.
  rewrite <- fills_scalarDefaults.
  set (o' := fills scalarDefaults o).
  assert (prop o' "minimap" = prop o "minimap") as Hmini.
  { unfold prop, o'. rewrite lookup_fills_notin; [done|].
    apply (bool_decide_unpack _). by vm_compute. }
  unfold normalizedHeap. fold o'.
  rewrite getProp_at. rewrite Hmini.
  destruct (truthy (prop o "minimap")).
  - reflexivity.
  - assert (l ∈ dom (heap w)) as Hin by (by apply elem_of_dom_2 in Hl).
    assert (dom (<[l:=o']> (heap w)) = dom (heap w)) as Hdom.
    { rewrite dom_insert_L. apply subseteq_union_1_L.
      by apply singleton_subseteq_l. }
    unfold bind at 1. rewrite newObject_at.
    rewrite heap_with_heap, with_heap_with_heap, Hdom.
    pose proof (is_fresh (dom (heap w))) as Hfresh.
    set (m := fresh (dom (heap w))) in *.
    assert (m ≠ l) as Hne by (intros Heq; apply Hfresh; by rewrite Heq).
    rewrite (insert_insert_ne _ m l) by done.
    rewrite setProp_at. reflexivity.
Qed.

Lemma minimap_not_scalar : "minimap" ∉ scalarDefaults.*1.
Proof. apply (bool_decide_unpack _). by vm_compute. Qed.

Lemma scalar_not_minimap (k : string) (d : JSVal) :
  (k, d) ∈ scalarDefaults -> k ≠ "minimap".
Proof.
  intros Hin ->. apply minimap_not_scalar.
  apply list_elem_of_fmap. by exists ("minimap", d).
Qed.

Lemma normalizedHeap_self (l : Loc) (o : gmap string JSVal)
    (h : gmap Loc (gmap string JSVal)) :
  normalizedHeap l o h !! l = Some (normalizedRecord o (fresh (dom h))).
Proof.
  unfold normalizedHeap, normalizedRecord.
  destruct (truthy (prop o "minimap")); by rewrite lookup_insert_eq.
Qed.

Lemma normalizedHeap_other (l l' : Loc) (o : gmap string JSVal)
    (h : gmap Loc (gmap string JSVal)) :
  l' ≠ l -> l' ∈ dom h -> normalizedHeap l o h !! l' = h !! l'.
Proof.
  intros Hne Hin. unfold normalizedHeap.
  destruct (truthy (prop o "minimap")).
  - by rewrite lookup_insert_ne.
  - rewrite lookup_insert_ne by done. rewrite lookup_insert_ne; [done|].
    intros Heq. apply (is_fresh (dom h)). by rewrite Heq.
Qed.

Lemma normalizedHeap_minimap (l : Loc) (o : gmap string JSVal)
    (h : gmap Loc (gmap string JSVal)) :
  truthy (prop o "minimap") = false -> l ∈ dom h ->
  normalizedHeap l o h !! fresh (dom h) = Some minimapDefault.
Proof.
  intros Hf Hin. unfold normalizedHeap. rewrite Hf.
  rewrite lookup_insert_ne.
  - by rewrite lookup_insert_eq.
  - intros Heq. apply (is_fresh (dom h)). by rewrite <- Heq.
Qed.

Lemma normalizedHeap_dom (l : Loc) (o : gmap string JSVal)
    (h : gmap Loc (gmap string JSVal)) :
  l ∈ dom h ->
  dom (normalizedHeap l o h) =
    if truthy (prop o "minimap") then dom h else {[fresh (dom h)]} ∪ dom h.
Proof.
  intros Hin. unfold normalizedHeap.
  destruct (truthy (prop o "minimap")); rewrite !dom_insert_L.
  - apply subseteq_union_1_L. by apply singleton_subseteq_l.
  - apply subseteq_union_1_L. apply singleton_subseteq_l.
    apply elem_of_union. by right.
Qed.

Lemma normalizedRecord_scalar (o : gmap string JSVal) (m : Loc)
    (k : string) (d : JSVal) :
  (k, d) ∈ scalarDefaults ->
  normalizedRecord o m !! k = if truthy (prop o k) then o !! k else Some d.
Proof.
  intros Hin. pose proof (scalar_not_minimap k d Hin) as Hne.
  unfold normalizedRecord. destruct (truthy (prop o "minimap")).
  - apply lookup_fills_in; [apply scalarDefaults_NoDup | done].
  - rewrite lookup_insert_ne by done.
    apply lookup_fills_in; [apply scalarDefaults_NoDup | done].
Qed.

Lemma normalizedRecord_minimap (o : gmap string JSVal) (m : Loc) :
  normalizedRecord o m !! "minimap" =
    if truthy (prop o "minimap") then o !! "minimap" else Some (VObj m).
Proof.
  unfold normalizedRecord. destruct (truthy (prop o "minimap")).
  - apply lookup_fills_notin, minimap_not_scalar.
  - by rewrite lookup_insert_eq.
Qed.

(** C4: options normalization replaces every falsy field of the supplied
    record that has a default, an explicit [false] or [0] included, with
    that default and keeps the truthy ones; on the empty record the result
    has language 'javascript', theme 'vs-dark', lineNumbers 'on', fontSize
    20, readOnly false and a minimap object whose [enabled] is true. *)
Theorem parseOptions_fills_falsy_fields (l : Loc) (o : gmap string JSVal) (w : World) :
  heap w !! l = Some o ->
  exists (w' : World) (o' : gmap string JSVal),
    parseOptions (VObj l) w = Returns (VObj l) w' /\
    heap w' !! l = Some o' /\
    (forall k d, (k, d) ∈ scalarDefaults ->
       (falsy (prop o k) -> o' !! k = Some d) /\
       (o !! k = Some (VBool false) \/ o !! k = Some (VNum 0) -> o' !! k = Some d) /\
       (truthy (prop o k) = true -> o' !! k = o !! k)) /\
    (falsy (prop o "minimap") ->
       exists m, o' !! "minimap" = Some (VObj m) /\
                 heap w' !! m = Some minimapDefault) /\
    (truthy (prop o "minimap") = true -> o' !! "minimap" = o !! "minimap") /\
    (o = ∅ ->
       prop o' "language" = VStr "javascript" /\
       prop o' "theme" = VStr "vs-dark" /\
       prop o' "lineNumbers" = VStr "on" /\
       prop o' "fontSize" = VNum 20 /\
       prop o' "readOnly" = VBool false /\
       exists m mo, prop o' "minimap" = VObj m /\
                    heap w' !! m = Some mo /\
                    prop mo "enabled" = VBool true).
Proof.
  intros Hl.
  assert (l ∈ dom (heap w)) as Hin by (by apply elem_of_dom_2 in Hl).
  exists (with_heap (normalizedHeap l o (heap w)) w).
  exists (normalizedRecord o (fresh (dom (heap w)))).
  split; [by apply parseOptions_record|].
  rewrite heap_with_heap.
  split; [apply normalizedHeap_self|].
  assert (forall k d, (k, d) ∈ scalarDefaults -> falsy (prop o k) ->
            normalizedRecord o (fresh (dom (heap w))) !! k = Some d) as Hfalsy.
  { intros k d Hk Hf. rewrite (normalizedRecord_scalar _ _ k d Hk).
    unfold falsy in Hf. by rewrite Hf. }
  assert (falsy (prop o "minimap") ->
          exists m, normalizedRecord o (fresh (dom (heap w))) !! "minimap"
                    = Some (VObj m) /\
                    normalizedHeap l o (heap w) !! m = Some minimapDefault) as Hmini.
  { intros Hf. exists (fresh (dom (heap w))). unfold falsy in Hf. split.
    - rewrite normalizedRecord_minimap. by rewrite Hf.
    - by apply normalizedHeap_minimap. }
  split; [|split; [done|split]].
  - intros k d Hk. split; [by apply Hfalsy|split].
    + intros [Hv|Hv]; apply Hfalsy; try done; unfold falsy, prop; by rewrite Hv.
    + intros Ht. rewrite (normalizedRecord_scalar _ _ k d Hk). by rewrite Ht.
  - intros Ht. rewrite normalizedRecord_minimap. by rewrite Ht.
  - intros ->.
    assert (forall k, falsy (prop (∅ : gmap string JSVal) k)) as Hempty.
    { intros k. unfold falsy, prop. by rewrite lookup_empty. }
    unfold prop at 1 2 3 4 5.
    rewrite (Hfalsy "language" (VStr "javascript")); [|in_table|done].
    rewrite (Hfalsy "theme" (VStr "vs-dark")); [|in_table|done].
    rewrite (Hfalsy "lineNumbers" (VStr "on")); [|in_table|done].
    rewrite (Hfalsy "fontSize" (VNum 20)); [|in_table|done].
    rewrite (Hfalsy "readOnly" (VBool false)); [|in_table|done].
    repeat (split; [done|]).
    destruct (Hmini (Hempty _)) as (m & Hm & Hh).
    exists m, minimapDefault. unfold prop. rewrite Hm. repeat split; try done.
Qed.

Lemma parseOptions_fills_falsy_fields_witness :
  heap optionsWorld !! 1%positive = Some suppliedOptions /\
  exists (w' : World) (o' : gmap string JSVal),
    parseOptions (VObj 1) optionsWorld = Returns (VObj 1) w' /\
    heap w' !! 1%positive = Some o' /\
    o' !! "fontSize" = Some (VNum 20) /\
    o' !! "roundedSelection" = Some (VBool true) /\
    o' !! "theme" = Some (VStr "vs").
Proof.
  split; [reflexivity|].
  destruct (parseOptions_fills_falsy_fields 1 suppliedOptions optionsWorld eq_refl)
    as (w' & o' & Hrun & Hl & Hscalar & _).
  exists w', o'. split; [exact Hrun|]. split; [exact Hl|].
  split; [|split].
  - apply (Hscalar "fontSize" (VNum 20)); [in_table|]. right. reflexivity.
  - apply (Hscalar "roundedSelection" (VBool true)); [in_table|]. left. reflexivity.
  - destruct (Hscalar "theme" (VStr "vs-dark")) as (_ & _ & Hkeep); [in_table|].
    rewrite Hkeep; reflexivity.
Defined.

(** C9: options normalization works on the caller's record: it returns the
    reference it was given, every default it fills in can be read through
    that reference afterwards, no other object of the caller changes, and
    the only object it makes is the minimap default. *)
Theorem parseOptions_in_place (l : Loc) (o : gmap string JSVal) (w : World) :
  heap w !! l = Some o ->
  exists w' : World,
    parseOptions (VObj l) w = Returns (VObj l) w' /\
    w' = with_heap (heap w') w /\
    (forall k d, (k, d) ∈ scalarDefaults -> falsy (prop o k) ->
       getProp (VObj l) k w' = Returns d w') /\
    (falsy (prop o "minimap") ->
       exists m, getProp (VObj l) "minimap" w' = Returns (VObj m) w' /\
                 heap w' !! m = Some minimapDefault /\
                 dom (heap w') = {[m]} ∪ dom (heap w) /\
                 m ∉ dom (heap w)) /\
    (truthy (prop o "minimap") = true -> dom (heap w') = dom (heap w)) /\
    (forall l', l' ∈ dom (heap w) -> l' ≠ l -> heap w' !! l' = heap w !! l').
Proof.
  intros Hl.
  assert (l ∈ dom (heap w)) as Hin by (by apply elem_of_dom_2 in Hl).
  exists (with_heap (normalizedHeap l o (heap w)) w).
  split; [by apply parseOptions_record|].
  split; [reflexivity|].
  unfold getProp, gets, readProp. rewrite heap_with_heap, normalizedHeap_self.
  split; [|split; [|split]].
  - intros k d Hk Hf. unfold prop.
    rewrite (normalizedRecord_scalar _ _ k d Hk).
    unfold falsy in Hf. by rewrite Hf.
  - intros Hf. unfold falsy in Hf. exists (fresh (dom (heap w))).
    split; [|split; [|split]].
    + unfold prop. rewrite normalizedRecord_minimap. by rewrite Hf.
    + by apply normalizedHeap_minimap.
    + rewrite normalizedHeap_dom by done. by rewrite Hf.
    + apply is_fresh.
  - intros Ht. rewrite normalizedHeap_dom by done. by rewrite Ht.
  - intros l' Hl' Hne. by apply normalizedHeap_other.
Qed.

Lemma parseOptions_in_place_witness :
  heap optionsWorld !! 1%positive = Some suppliedOptions /\
  exists w' : World,
    parseOptions (VObj 1) optionsWorld = Returns (VObj 1) w' /\
    getProp (VObj 1) "language" w' = Returns (VStr "javascript") w'.
Proof.
  split; [reflexivity|].
  destruct (parseOptions_in_place 1 suppliedOptions optionsWorld eq_refl)
    as (w' & Hrun & _ & Hscalar & _).
  exists w'. split; [exact Hrun|].
  apply Hscalar; [in_table|]. reflexivity.
Defined.

(** ** Lookup and update by id *)

Lemma bind_returns {A B} (m : M A) (f : A -> M B) (w w' : World) (a : A) :
  m w = Returns a w' -> bind m f w = f a w'.
Proof. intros H. unfold bind. by rewrite H. Qed.

Lemma bind_throws {A B} (m : M A) (f : A -> M B) (w w' : World) (e : Exn) :
  m w = Throws e w' -> bind m f w = Throws e w'.
Proof. intros H. unfold bind. by rewrite H. Qed.

Lemma isNull_false (id : Id) : id <> IdNull -> isNull id = false.
Proof. by destruct id. Qed.

Lemma isEmpty_false (id : Id) : id <> IdStr "" -> isEmpty id = false.
Proof.
  destruct id as [| |s]; try done. intros Hne. simpl.
  apply String.eqb_neq. congruence.
Qed.

(** *** Reading the store object *)

Lemma member_own (w : World) (key : string) (h : Handle) :
  instances w !! key = Some h -> member w key = Widget h.
Proof. intros Hh. unfold member. by rewrite Hh. Qed.


Lemma member_inherited (w : World) (key : string) :
  instances w !! key = None -> key <> "__proto__" ->
  inherited (prototypeOf w) key = true ->
  member w key = Builtin key.
Proof.
  intros Hh Hne Hinh. unfold member. rewrite Hh, Hinh.
  apply String.eqb_neq in Hne. by rewrite Hne.
Qed.

Lemma member_proto (w : World) :
  instances w !! "__proto__" = None ->
  member w "__proto__"
  = match prototypeOf w with
    | ObjectPrototype => Builtin "__proto__"
    | WidgetPrototype h => Widget h
    end.
Proof. intros Hh. unfold member. by rewrite Hh. Qed.

(** A read through the prototype never gives a widget, '__proto__' apart. *)
Lemma member_widget (w : World) (key : string) (h : Handle) :
  member w key = Widget h ->
  instances w !! key = Some h \/
  (key = "__proto__" /\ instances w !! key = None /\
   prototypeOf w = WidgetPrototype h).
Proof.
  unfold member. destruct (instances w !! key) as [h'|] eqn:Hh.
  - intros [= ->]. by left.
  - destruct (String.eqb key "__proto__") eqn:Hkey.
    + apply String.eqb_eq in Hkey. destruct (prototypeOf w); [done|].
      intros [= ->]. by right.
    + by destruct (inherited (prototypeOf w) key).
Qed.

Lemma inherited_hasOwnProperty (p : Prototype) :
  inherited p "hasOwnProperty" = true.
Proof. by destruct p. Qed.

Lemma member_hasOwnProperty (w : World) :
  instances w !! "hasOwnProperty" = None ->
  member w "hasOwnProperty" = Builtin "hasOwnProperty".
Proof.
  intros Hh. apply member_inherited; [done|done|apply inherited_hasOwnProperty].
Qed.

Lemma hasOwnProperty_found (key : string) (w : World) :
  instances w !! "hasOwnProperty" = None ->
  hasOwnProperty key w = Returns (owns (instances w) key) w.
Proof.
  intros Hh. unfold hasOwnProperty. rewrite bind_gets.
  by rewrite member_hasOwnProperty.
Qed.

Lemma hasOwnProperty_hidden (key : string) (w : World) (x : Handle) :
  instances w !! "hasOwnProperty" = Some x ->
  hasOwnProperty key w = Throws (notAFunction "hasOwnProperty") w.
Proof.
  intros Hh. unfold hasOwnProperty. rewrite bind_gets.
  by rewrite (member_own w _ x).
Qed.

(** Whatever it answers, the call changes nothing. *)
Lemma hasOwnProperty_pure (key : string) (w : World) :
  world_of (hasOwnProperty key w) = w.
Proof.
  destruct (instances w !! "hasOwnProperty") as [x|] eqn:Hh.
  - by rewrite (hasOwnProperty_hidden key w x).
  - by rewrite hasOwnProperty_found.
Qed.

Lemma owns_Some (m : gmap string Handle) (key : string) (h : Handle) :
  m !! key = Some h -> owns m key = true.
Proof. intros Hh. unfold owns. by rewrite Hh. Qed.

Lemma owns_None (m : gmap string Handle) (key : string) :
  m !! key = None -> owns m key = false.
Proof. intros Hh. unfold owns. by rewrite Hh. Qed.

Lemma get_valid (id : Id) (w : World) :
  id <> IdNull -> id <> IdStr "" ->
  get id w = Returns (member w (propertyKey id)) w.
Proof.
  intros Hnull Hempty. unfold get.
  by rewrite (isNull_false _ Hnull), (isEmpty_false _ Hempty).
Qed.




Lemma wellFormed_lookup (w : World) (key : string) (h : Handle) :
  wellFormed w -> instances w !! key = Some h ->
  exists e m, editors w !! h = Some e /\ models w !! ed_model e = Some m.
Proof.
  intros Hwf Hh. destruct (Hwf key h Hh) as [m Hm]. unfold modelOf in Hm.
  destruct (editors w !! h) as [e|] eqn:He; [|done].
  exists e, m. by split.
Qed.

(** *** updateEditor *)

Lemma updateEditor_invalid (id : Id) (v : string) (w : World) :
  id = IdNull \/ id = IdStr "" -> updateEditor id v w = Returns tt w.
Proof. by intros [-> | ->]. Qed.

Lemma updateEditor_hidden (id : Id) (v : string) (w : World) (x : Handle) :
  instances w !! "hasOwnProperty" = Some x ->
  id <> IdNull -> id <> IdStr "" ->
  updateEditor id v w = Throws (notAFunction "hasOwnProperty") w.
Proof.
  intros Hx Hnull Hempty. unfold updateEditor.
  rewrite (isNull_false _ Hnull), (isEmpty_false _ Hempty). cbn [negb andb].
  apply bind_throws. by apply (hasOwnProperty_hidden _ w x).
Qed.

Lemma updateEditor_skip (id : Id) (v : string) (w : World) :
  instances w !! "hasOwnProperty" = None ->
  id = IdNull \/ id = IdStr "" \/ instances w !! propertyKey id = None ->
  updateEditor id v w = Returns tt w.
Proof.
  intros Hfound [Hid | [Hid | Hnone]];
    [apply updateEditor_invalid; by left
    |apply updateEditor_invalid; by right|].
  unfold updateEditor.
  destruct (negb (isNull id) && negb (isEmpty id)); [|done].
  rewrite (bind_returns _ _ w w false); [done|].
  rewrite hasOwnProperty_found by done. by rewrite owns_None.
Qed.

Lemma updateEditor_registered (id : Id) (v : string) (w : World)
    (h : Handle) (e : Editor) (m : TextModel) :
  instances w !! "hasOwnProperty" = None ->
  id <> IdNull -> id <> IdStr "" ->
  instances w !! propertyKey id = Some h ->
  editors w !! h = Some e ->
  models w !! ed_model e = Some m ->
  updateEditor id v w =
    Returns tt (if String.eqb (tm_value m) v then w
                else retexted h (ed_model e) v w).
Proof.
  intros Hfound Hnull Hempty Hh He Hm. unfold updateEditor.
  rewrite (isNull_false _ Hnull), (isEmpty_false _ Hempty). cbn [negb andb].
  rewrite (bind_returns _ _ w w true).
  2: { rewrite hasOwnProperty_found by done. by rewrite (owns_Some _ _ h). }
  rewrite bind_gets, (member_own w _ h Hh). cbn [invoke].
  unfold getValue. rewrite bind_gets, He, Hm.
  destruct (String.eqb (tm_value m) v); cbn [negb]; [done|].
  unfold bind, setValue, call, modify. by rewrite He.
Qed.

Lemma getValue_retexted (h : Handle) (e : Editor) (m : TextModel)
    (v : string) (w : World) :
  editors w !! h = Some e -> models w !! ed_model e = Some m ->
  getValue h (retexted h (ed_model e) v w)
  = Returns v (retexted h (ed_model e) v w).
Proof.
  intros He Hm. unfold getValue, gets. f_equal.
  unfold retexted. cbn [editors models with_editors with_models].
  rewrite lookup_alter_eq, He. cbn.
  by rewrite lookup_alter_eq, Hm.
Qed.







(** ** Completing a create *)

Lemma heapOnly_ret {A} (a : A) : heapOnly (ret a).
Proof. intros w. exists a, (heap w). by rewrite with_heap_id. Qed.

Lemma heapOnly_bind {A B} (m : M A) (f : A -> M B) :
  heapOnly m -> (forall a, heapOnly (f a)) -> heapOnly (bind m f).
Proof.
  intros Hm Hf w. destruct (Hm w) as (a & h1 & Hrun).
  destruct (Hf a (with_heap h1 w)) as (b & h2 & Hrun').
  exists b, h2. unfold bind. by rewrite Hrun, Hrun'.
Qed.

Lemma heapOnly_getProp (v : JSVal) (k : string) : heapOnly (getProp v k).
Proof. intros w. exists (readProp v k w), (heap w). by rewrite with_heap_id. Qed.

Lemma heapOnly_setProp (v : JSVal) (k : string) (x : JSVal) :
  heapOnly (setProp v k x).
Proof.
  intros w. exists tt. unfold setProp, modify, writeProp.
  destruct v; try (exists (heap w); by rewrite with_heap_id).
  destruct (heap w !! l); [by eexists|].
  exists (heap w). by rewrite with_heap_id.
Qed.

Lemma heapOnly_newObject (o : gmap string JSVal) : heapOnly (newObject o).
Proof. intros w. by eexists _, _. Qed.

Lemma heapOnly_fillDefault (v : JSVal) (k : string) (d : JSVal) :
  heapOnly (fillDefault v k d).
Proof.
  apply heapOnly_bind; [apply heapOnly_getProp|]. intros x.
  destruct (truthy x); [apply heapOnly_ret | apply heapOnly_setProp].
Qed.

Lemma heapOnly_parseOptions (v : JSVal) : heapOnly (parseOptions v).
Proof.
  unfold parseOptions. apply heapOnly_bind.
  { destruct (truthy v); [apply heapOnly_ret | apply heapOnly_newObject]. }
  intros options.
  do 14 (apply heapOnly_bind; [apply heapOnly_fillDefault|]; intros _).
  apply heapOnly_bind; [apply heapOnly_getProp|]. intros m.
  apply heapOnly_bind; [|intros _; apply heapOnly_ret].
  destruct (truthy m); [apply heapOnly_ret|].
  apply heapOnly_bind; [apply heapOnly_newObject|]. intros o.
  apply heapOnly_setProp.
Qed.

Lemma monaco_editor_create_spec (element : Element) (options : JSVal) (w : World) :
  monaco_editor_create element options w
  = Returns (fresh (dom (editors w)))
      (with_editors
         (<[fresh (dom (editors w)) :=
              mkEditor element options (shownModel options w) None 0 false []]>
            (editors w))
         (with_models (modelsAfterCreate options w) w)).
Proof.
  unfold monaco_editor_create, shownModel, modelsAfterCreate.
  unfold getProp at 1. rewrite bind_gets.
  destruct (readProp options "model" w); try reflexivity.
Qed.

Lemma readProp_writeProp (v : JSVal) (k : string) (x : JSVal) (w : World) :
  readProp v k (writeProp v k x w) = x \/
  readProp v k (writeProp v k x w) = VUndefined.
Proof.
  unfold readProp, writeProp. destruct v; try by right.
  destruct (heap w !! l) eqn:Hl.
  - left. cbn [heap with_heap]. rewrite lookup_insert_eq.
    unfold prop. by rewrite lookup_insert_eq.
  - right. by rewrite Hl.
Qed.

Lemma models_writeProp (v : JSVal) (k : string) (x : JSVal) (w : World) :
  models (writeProp v k x w) = models w.
Proof.
  unfold writeProp. destruct v; try done. by destruct (heap w !! l).
Qed.

Lemma lookup_insert_fresh {A} (m : gmap positive A) (x : A) (r : positive) :
  is_Some (m !! r) -> <[fresh (dom m) := x]> m !! r = m !! r.
Proof.
  intros Hr. rewrite lookup_insert_ne; [done|].
  intros <-. apply elem_of_dom in Hr. by apply is_fresh in Hr.
Qed.

(** *** Writing to the store object *)

Lemma assign_fields (key : string) (h : Handle) (w : World) :
  dom_ids (assign key h w) = dom_ids w /\
  heap (assign key h w) = heap w /\
  observables (assign key h w) = observables w /\
  models (assign key h w) = models w /\
  editors (assign key h w) = editors w /\
  loading (assign key h w) = loading w /\
  disposeCallbacks (assign key h w) = disposeCallbacks w /\
  nextStoreEntryId (assign key h w) = nextStoreEntryId w.
Proof.
  unfold assign.
  by destruct (String.eqb key "__proto__" && negb (owns (instances w) key)).
Qed.

Lemma assign_store (key : string) (h : Handle) (w w0 : World) :
  monacoEditors w = monacoEditors w0 ->
  monacoEditors (assign key h w) = monacoEditors (assign key h w0).
Proof.
  intros Hs.
  unfold assign, with_prototype, with_instances, with_store, instances,
    prototypeOf, nextStoreEntryId.
  rewrite Hs.
  by destruct (String.eqb key "__proto__"
               && negb (owns (_monacoEditorInstances (monacoEditors w0)) key)).
Qed.

(** Every name but '__proto__', and that one too when it is an own
    property, becomes or stays an own property. *)
Lemma assign_key (key : string) (h : Handle) (w : World) :
  key <> "__proto__" \/ is_Some (instances w !! key) ->
  instances (assign key h w) = <[key := h]> (instances w) /\
  prototypeOf (assign key h w) = prototypeOf w.
Proof.
  intros Hkey. unfold assign.
  assert (String.eqb key "__proto__" && negb (owns (instances w) key) = false)
    as ->; [|done].
  destruct Hkey as [Hne | [x Hx]].
  - apply String.eqb_neq in Hne. by rewrite Hne.
  - rewrite (owns_Some _ _ x Hx). apply andb_false_r.
Qed.

Lemma assign_proto (h : Handle) (w : World) :
  instances w !! "__proto__" = None ->
  instances (assign "__proto__" h w) = instances w /\
  prototypeOf (assign "__proto__" h w) = WidgetPrototype h.
Proof.
  intros Hnone. unfold assign. by rewrite (owns_None _ _ Hnone).
Qed.

(** Either way the own properties grow by at most that name. *)
Lemma assign_cases (key : string) (h : Handle) (w : World) :
  (instances (assign key h w) = <[key := h]> (instances w) /\
   prototypeOf (assign key h w) = prototypeOf w) \/
  (key = "__proto__" /\ instances w !! key = None /\
   instances (assign key h w) = instances w /\
   prototypeOf (assign key h w) = WidgetPrototype h).
Proof.
  destruct (decide (key = "__proto__")) as [->|Hne].
  - destruct (instances w !! "__proto__") as [x|] eqn:Hx.
    + left. apply assign_key. right. by exists x.
    + right. destruct (assign_proto h w Hx). by repeat split.
  - left. apply assign_key. by left.
Qed.

Lemma create_loaded_spec (p : Pending) (w : World) :
  exists w', create_loaded p w = Returns tt w' /\ createCompleted p w w'.
Proof.
  unfold create_loaded.
  destruct (heapOnly_parseOptions (p_options p) w) as (parsed & h1 & Hparse).
  unfold bind at 1. rewrite Hparse.
  unfold getProp at 1. rewrite bind_gets.
  set (language := readProp parsed "language" (with_heap h1 w)).
  unfold bind at 1, createModel, bind at 1, newModel, ret.
  cbn [models with_heap].
  set (r := fresh (dom (models w))).
  set (w2 := with_models _ (with_heap h1 w)).
  unfold setProp at 1. rewrite bind_modify.
  set (w3 := writeProp parsed "model" (VModel r) w2).
  unfold bind at 1. rewrite monaco_editor_create_spec.
  assert (models w3 = <[r := mkTextModel (p_startingEditorValue p) language 0]> (models w))
    as Hmodels by (unfold w3; by rewrite models_writeProp).
  assert (editors w3 = editors w) as Heditors.
  { unfold w3, writeProp. destruct parsed; try done. by destruct (heap w2 !! l). }
  assert (dom_ids w3 = dom_ids w /\ observables w3 = observables w /\
          loading w3 = loading w /\ disposeCallbacks w3 = disposeCallbacks w /\
          monacoEditors w3 = monacoEditors w) as (Hd & Ho & Hq & Hc & Hs).
  { unfold w3, writeProp. destruct parsed; try done. by destruct (heap w2 !! l). }
  rewrite Heditors. set (h := fresh (dom (editors w))).
  unfold call at 1. rewrite bind_modify.
  unfold addDisposeCallback at 1. rewrite bind_modify.
  rewrite bind_gets. unfold modify.
  assert (readProp parsed "model" w3 = VModel r \/
          readProp parsed "model" w3 = VUndefined) as Hset
    by apply readProp_writeProp.
  clearbody w3.
  match goal with |- context [assign ?k h ?ww] => set (key := k); set (w4 := ww) end.
  exists (assign key h w4). split; [reflexivity|].
  assert (key = element_id (p_element p) w) as Hkey.
  { unfold key, element_id, w4, with_disposeCallbacks, with_editors, with_models.
    cbn [dom_ids]. by rewrite Hd. }
  assert (monacoEditors w4 = monacoEditors w) as Hs4 by exact Hs.
  destruct (assign_fields key h w4) as (Ad & _ & Ao & Am & Ae & Al & Ac & An).
  unfold createCompleted.
  rewrite Ad, Ao, Am, Ae, Al, Ac, An, (assign_store key h w4 w Hs4), Hkey.
  unfold w4, nextStoreEntryId, with_disposeCallbacks, with_editors, with_models.
  cbn [dom_ids heap observables models editors monacoEditors loading
       disposeCallbacks].
  rewrite Hd, Ho, Hq, Hc, Hs.
  repeat (split; [reflexivity|]).
  split.
  - eexists. split.
    + rewrite alter_insert_eq. reflexivity.
    + unfold onDidChangeModelContent.
      cbn [ed_container ed_disposed ed_listeners ed_model app].
      repeat (split; [reflexivity|]).
      unfold shownModel, modelsAfterCreate.
      destruct Hset as [Hset|Hset]; rewrite Hset, Hmodels.
      * rewrite lookup_insert_eq. by eexists.
      * rewrite lookup_insert_eq. by eexists.
  - intros r' Hr'. unfold modelsAfterCreate. rewrite Hmodels.
    assert (<[r:=mkTextModel (p_startingEditorValue p) language 0]> (models w) !! r'
            = models w !! r') as Hkeep by (by apply lookup_insert_fresh).
    destruct (readProp parsed "model" w3); try done;
      (rewrite lookup_insert_fresh; [done|by rewrite Hkeep]).
Qed.

Lemma createCompleted_store (p : Pending) (w w' : World) :
  createCompleted p w w' ->
  instances w'
  = instances (assign (element_id (p_element p) w) (fresh (dom (editors w))) w) /\
  prototypeOf w'
  = prototypeOf (assign (element_id (p_element p) w) (fresh (dom (editors w))) w).
Proof.
  intros (_ & _ & _ & _ & _ & Hstore & _).
  unfold instances, prototypeOf. by rewrite Hstore.
Qed.

(** The entry that a completed create leaves under an id other than
    '__proto__'. *)
Lemma createCompleted_instances (p : Pending) (w w' : World) :
  createCompleted p w w' ->
  element_id (p_element p) w <> "__proto__"
  \/ is_Some (instances w !! element_id (p_element p) w) ->
  instances w'
  = <[element_id (p_element p) w := fresh (dom (editors w))]> (instances w) /\
  prototypeOf w' = prototypeOf w.
Proof.
  intros Hdone Hkey. destruct (createCompleted_store p w w' Hdone) as [-> ->].
  by apply assign_key.
Qed.

(** ** Disposal and emptiness *)

Lemma disposeEntry_widget (key : string) (h : Handle) (w : World) :
  member w key = Widget h ->
  disposeEntry key w = Returns tt (disposed key h w).
Proof.
  intros Hh. unfold disposeEntry. rewrite bind_gets, Hh. reflexivity.
Qed.

Lemma disposeEntry_registered (key : string) (h : Handle) (w : World) :
  instances w !! key = Some h ->
  disposeEntry key w = Returns tt (disposed key h w).
Proof. intros Hh. apply disposeEntry_widget. by apply member_own. Qed.

Lemma disposeEntry_absent (key : string) (w : World) :
  member w key = Absent ->
  disposeEntry key w = Throws (undefinedHasNoProperty "dispose") w.
Proof.
  intros Hh. unfold disposeEntry. rewrite bind_gets, Hh. reflexivity.
Qed.

Lemma disposeEntry_inherited (key name : string) (w : World) :
  member w key = Builtin name ->
  disposeEntry key w = Throws (notAFunction "dispose") w.
Proof.
  intros Hh. unfold disposeEntry. rewrite bind_gets, Hh. reflexivity.
Qed.

(** The disposal releases a widget that the read finds, or throws a
    TypeError and changes nothing. *)
Lemma disposeEntry_cases (key : string) (w : World) :
  (exists h, member w key = Widget h /\
             disposeEntry key w = Returns tt (disposed key h w)) \/
  ((forall h, member w key <> Widget h) /\
   exists message, disposeEntry key w = Throws (TypeError message) w).
Proof.
  destruct (member w key) as [h|name|] eqn:Hm.
  - left. exists h. split; [done|]. by apply disposeEntry_widget.
  - right. split; [done|]. eexists. by apply (disposeEntry_inherited key name).
  - right. split; [done|]. eexists. by apply disposeEntry_absent.
Qed.

(** *** hasEditors *)

Lemma ownKeys_own (m : gmap string Handle) (k : string) :
  k ∈ ownKeys m <-> owns m k = true.
Proof.
  unfold ownKeys, owns. split.
  - intros Hk. apply list_elem_of_fmap in Hk as ([k' h] & -> & Hk).
    apply elem_of_map_to_list in Hk. simpl. by rewrite Hk.
  - destruct (m !! k) as [h|] eqn:Hk; [|done]. intros _.
    apply list_elem_of_fmap. exists (k, h). split; [done|].
    by apply elem_of_map_to_list.
Qed.

Lemma ownKeys_nil (m : gmap string Handle) : ownKeys m = [] <-> m = ∅.
Proof.
  unfold ownKeys. rewrite <- map_to_list_empty_iff. split.
  - apply fmap_nil_inv.
  - by intros ->.
Qed.

Lemma inheritedKeys_not_own (w : World) (k : string) :
  k ∈ inheritedKeys w -> owns (instances w) k = false.
Proof.
  unfold inheritedKeys. destruct (prototypeOf w).
  - intros Hk. by apply elem_of_nil in Hk.
  - intros Hk. by apply list_elem_of_filter in Hk as [Hk _].
Qed.

Lemma existsb_owns_forInKeys (w : World) :
  existsb (owns (instances w)) (forInKeys w) = bool_decide (instances w <> ∅).
Proof.
  unfold forInKeys. rewrite existsb_app.
  assert (existsb (owns (instances w)) (inheritedKeys w) = false) as ->.
  { destruct (existsb _ (inheritedKeys w)) eqn:Hex; [|done].
    apply existsb_exists in Hex as (k & Hk & Hown).
    apply list_elem_of_In, inheritedKeys_not_own in Hk. congruence. }
  rewrite orb_false_r.
  destruct (ownKeys (instances w)) as [|k keys] eqn:Hkeys.
  - apply ownKeys_nil in Hkeys. rewrite Hkeys.
    by rewrite bool_decide_false by auto.
  - assert (owns (instances w) k = true) as Hk.
    { apply ownKeys_own. rewrite Hkeys. apply list_elem_of_here. }
    cbn [existsb]. rewrite Hk. cbn [orb].
    rewrite bool_decide_true; [done|].
    intros Hempty. apply ownKeys_nil in Hempty. congruence.
Qed.

Lemma hasEditors_loop (w : World) (keys : list string) (b : bool) :
  instances w !! "hasOwnProperty" = None ->
  forInFold keys hasEditors_body b w
  = Returns (b || existsb (owns (instances w)) keys) w.
Proof.
  intros Hfound. revert b. induction keys as [|k keys IH]; intros b.
  - cbn [forInFold existsb]. by rewrite orb_false_r.
  - cbn [forInFold existsb]. destruct b.
    + cbn [hasEditors_body]. rewrite bind_ret. by rewrite IH.
    + cbn [hasEditors_body orb].
      rewrite (bind_returns _ _ w w (owns (instances w) k)).
      2: { rewrite (bind_returns _ _ w w (owns (instances w) k))
             by (by apply hasOwnProperty_found).
           by destruct (owns (instances w) k). }
      by rewrite IH.
Qed.

Lemma hasEditors_nonempty (w : World) :
  instances w !! "hasOwnProperty" = None ->
  hasEditors w = Returns (bool_decide (instances w <> ∅)) w.
Proof.
  intros Hfound. unfold hasEditors. rewrite bind_gets.
  change (forInFold (forInKeys w) hasEditors_body false w
          = Returns (bool_decide (instances w <> ∅)) w).
  rewrite hasEditors_loop by done. cbn [orb].
  by rewrite existsb_owns_forInKeys.
Qed.

Lemma hasEditors_hidden (w : World) (x : Handle) :
  instances w !! "hasOwnProperty" = Some x ->
  hasEditors w = Throws (notAFunction "hasOwnProperty") w.
Proof.
  intros Hx. unfold hasEditors. rewrite bind_gets.
  change (forInFold (forInKeys w) hasEditors_body false w
          = Throws (notAFunction "hasOwnProperty") w).
  unfold forInKeys.
  destruct (ownKeys (instances w)) as [|k keys] eqn:Hkeys.
  - apply ownKeys_nil in Hkeys. rewrite Hkeys in Hx.
    by rewrite lookup_empty in Hx.
  - cbn [app forInFold hasEditors_body].
    apply bind_throws, bind_throws. by apply (hasOwnProperty_hidden k w x).
Qed.

Lemma hasEditors_pure (w : World) : world_of (hasEditors w) = w.
Proof.
  destruct (instances w !! "hasOwnProperty") as [x|] eqn:Hx.
  - by rewrite (hasEditors_hidden w x).
  - by rewrite hasEditors_nonempty.
Qed.




(** ** The first half of create *)

Lemma create_with_id (element : Element) (options : JSVal) (accessor : ModelProp)
    (w : World) :
  element_id element w <> "" ->
  create element options accessor w
  = Returns tt (with_loading (loading w ++ [queued element options accessor w]) w).
Proof.
  intros Hid. unfold create. rewrite bind_gets.
  apply String.eqb_neq in Hid. cbn [truthy]. rewrite Hid. cbn [negb].
  rewrite bind_ret. unfold unwrapObservable. rewrite bind_gets. reflexivity.
Qed.

Lemma create_without_id (element : Element) (options : JSVal) (accessor : ModelProp)
    (w : World) :
  element_id element w = "" ->
  create element options accessor w
  = Returns tt (with_loading (loading w ++ [queued element options accessor w])
                  (named element w)).
Proof.
  intros Hid. unfold create. rewrite bind_gets.
  cbn [truthy]. rewrite Hid. cbn [String.eqb negb].
  unfold getNextId. unfold bind at 1 2 3 4, modify, gets, ret.
  unfold unwrapObservable, gets. reflexivity.
Qed.

Lemma with_loading_with_loading (l l' : list Pending) (w : World) :
  with_loading l (with_loading l' w) = with_loading l w.
Proof. reflexivity. Qed.

Lemma with_loading_nil (w : World) : loading w = [] -> with_loading [] w = w.
Proof. destruct w. simpl. by intros ->. Qed.

(** C10: [create] does not look whether the id of the element is already a
    key of the store: when it is, the completed create puts the new widget
    under that key in place of the old one, no entry is added, the other
    entries stay, and the widget stored before is left exactly as it was,
    not released. *)
Theorem create_overwrites_registered_id (element : Element) (options : JSVal)
    (accessor : ModelProp) (w : World) (old : Handle) (e : Editor) :
  loading w = [] ->
  element_id element w <> "" ->
  instances w !! element_id element w = Some old ->
  editors w !! old = Some e ->
  exists (w' : World) (new : Handle),
    (create element options accessor ;;; loaderReady) w = Returns tt w' /\
    element_id element w' = element_id element w /\
    instances w' !! element_id element w = Some new /\
    new <> old /\
    (exists e', editors w' !! new = Some e' /\ ed_container e' = element) /\
    editors w' !! old = Some e /\
    size (instances w') = size (instances w) /\
    (forall key, key <> element_id element w ->
       instances w' !! key = instances w !! key).
Proof.
  intros Hq Hid Hold He.
  unfold bind at 1. rewrite create_with_id by done. rewrite Hq.
  unfold loaderReady. rewrite bind_gets. cbn [loading with_loading app].
  rewrite bind_modify, with_loading_with_loading, with_loading_nil by done.
  set (p := queued element options accessor w).
  destruct (create_loaded_spec p w) as (w' & Hrun & Hdone).
  destruct (createCompleted_instances p w w' Hdone) as [Hinst _];
    [right; by exists old|].
  destruct Hdone as (Hdom & _ & _ & _ & _ & _ & (e' & Hed & Hcont & _) & _).
  assert (fresh (dom (editors w)) <> old) as Hne.
  { intros Heq. apply (is_fresh (dom (editors w))). rewrite Heq.
    by apply elem_of_dom_2 in He. }
  exists w', (fresh (dom (editors w))).
  change (p_element p) with element in *.
  split; [exact Hrun|]. split; [|split; [|split; [|split; [|split; [|split]]]]].
  - unfold element_id. by rewrite Hdom.
  - rewrite Hinst. apply lookup_insert_eq.
  - exact Hne.
  - exists e'. rewrite Hed. split; [apply lookup_insert_eq | exact Hcont].
  - rewrite Hed. rewrite lookup_insert_ne by done. exact He.
  - rewrite Hinst. apply map_size_insert_Some. by eexists.
  - intros key Hkey. rewrite Hinst. by rewrite lookup_insert_ne.
Qed.

Lemma create_overwrites_registered_id_witness :
  instances demoLive !! "knockout-monaco-1" = Some 2%positive /\
  exists (w' : World) (new : Handle),
    (create 3 VUndefined (Plain "third") ;;; loaderReady) demoLive = Returns tt w' /\
    instances w' !! "knockout-monaco-1" = Some new /\
    new <> 2%positive /\
    (ed_disposed <$> editors w' !! 2%positive) = Some false.
Proof.
  split; [vm_compute; reflexivity|].
  edestruct (create_overwrites_registered_id 3 VUndefined (Plain "third") demoLive)
    as (w' & new & Hrun & _ & Hnew & Hne & _ & Hold & _).
  - vm_compute. reflexivity.
  - vm_compute. discriminate.
  - vm_compute. reflexivity.
  - vm_compute. reflexivity.
  - exists w', new. split; [exact Hrun|]. split; [exact Hnew|].
    split; [exact Hne|]. rewrite Hold. reflexivity.
Defined.

(** ** The life of the store *)

Lemma undisposed_nil (element : Element) : ~ undisposed [] element.
Proof.
  intros (before & p & after & Heq & _). by destruct before.
Qed.

Lemma undisposed_snoc (evs : list Event) (ev : Event) (element : Element) :
  undisposed (evs ++ [ev]) element <->
  (exists p, ev = Completed p /\ p_element p = element) \/
  (undisposed evs element /\ ev <> Removed element).
Proof.
  split.
  - intros (before & p & after & Heq & Hp & Hafter).
    destruct after as [|x after _] using rev_ind.
    + apply app_inj_tail in Heq as [_ ->]. left. by exists p.
    + right. rewrite app_comm_cons, app_assoc in Heq.
      apply app_inj_tail in Heq as [-> ->].
      apply not_elem_of_app in Hafter as [Hafter Hx]. split.
      * by exists before, p, after.
      * intros ->. apply Hx. by apply list_elem_of_singleton.
  - intros [(p & -> & Hp) | ((before & p & after & -> & Hp & Hafter) & Hne)].
    + exists evs, p, []. split; [done|]. split; [done|]. apply not_elem_of_nil.
    + exists before, p, (after ++ [ev])%list. split.
      * by rewrite <- app_assoc.
      * split; [done|]. apply not_elem_of_app. split; [done|].
        intros Hin. apply list_elem_of_singleton in Hin. congruence.
Qed.

Lemma run_snoc (evs : list Event) (ev : Event) (w : World) :
  run (evs ++ [ev]) w = world_of (happen ev (run evs w)).
Proof. unfold run. by rewrite foldl_app. Qed.

Lemma disposeCallback_disposeEntry (element : Element) (w : World) :
  disposeCallback element w = disposeEntry (element_id element w) w.
Proof. unfold disposeCallback. by rewrite bind_gets. Qed.

Lemma happen_dom_ids (ev : Event) (w : World) :
  dom_ids (world_of (happen ev w)) = dom_ids w.
Proof.
  destruct ev as [p|element]; simpl.
  - destruct (create_loaded_spec p w) as (w' & -> & Hdom & _). exact Hdom.
  - rewrite disposeCallback_disposeEntry.
    destruct (disposeEntry_cases (element_id element w) w)
      as [(h & _ & ->) | (_ & message & ->)]; reflexivity.
Qed.

Lemma member_not_widget_own (w : World) (key : string) :
  (forall h, member w key <> Widget h) -> instances w !! key = None.
Proof.
  intros Hnot. destruct (instances w !! key) as [h|] eqn:Hh; [|done].
  by destruct (Hnot h (member_own w key h Hh)).
Qed.

(** After the disposal callback the own properties are without the id,
    whether the callback has thrown or not. *)
Lemma disposeEntry_instances (key : string) (w : World) :
  instances (world_of (disposeEntry key w)) = delete key (instances w).
Proof.
  destruct (disposeEntry_cases key w) as [(h & _ & ->) | (Hnot & message & ->)].
  - reflexivity.
  - cbn [world_of]. apply member_not_widget_own in Hnot.
    symmetry. by apply delete_id.
Qed.

Lemma happen_instances (ev : Event) (w : World) :
  element_id (subject ev) w <> "__proto__" ->
  instances (world_of (happen ev w)) =
    match ev with
    | Completed p =>
        <[element_id (p_element p) w := fresh (dom (editors w))]> (instances w)
    | Removed element => delete (element_id element w) (instances w)
    end.
Proof.
  intros Hplain. destruct ev as [p|element]; simpl.
  - destruct (create_loaded_spec p w) as (w' & -> & Hdone).
    apply (createCompleted_instances p w w' Hdone). by left.
  - rewrite disposeCallback_disposeEntry. apply disposeEntry_instances.
Qed.

Lemma run_dom_ids (evs : list Event) (w : World) :
  dom_ids (run evs w) = dom_ids w.
Proof.
  induction evs as [|ev evs IH] using rev_ind; [done|].
  by rewrite run_snoc, happen_dom_ids.
Qed.

Lemma run_element_id (evs : list Event) (w : World) (element : Element) :
  element_id element (run evs w) = element_id element w.
Proof. unfold element_id. by rewrite run_dom_ids. Qed.

(** With distinct ids, none of them '__proto__', the keys of the store are
    the ids of the elements whose create has completed and that were not
    disposed since. *)
Lemma run_keys (evs : list Event) (w : World) :
  instances w = ∅ -> distinctIds w evs -> plainIds w evs ->
  forall key,
    is_Some (instances (run evs w) !! key) <->
    exists element, undisposed evs element /\ element_id element w = key.
Proof.
  intros Hempty.
  induction evs as [|ev evs IH] using rev_ind; intros Hdist Hplain key.
  - simpl. rewrite Hempty, lookup_empty. split.
    + by intros [? ?].
    + intros (element & Hun & _). by apply undisposed_nil in Hun.
  - assert (distinctIds w evs) as Hdist'.
    { intros ev1 ev2 H1 H2. apply Hdist; apply elem_of_app; by left. }
    assert (plainIds w evs) as Hplain'.
    { intros ev' Hin. apply Hplain. apply elem_of_app. by left. }
    specialize (IH Hdist' Hplain').
    rewrite run_snoc, happen_instances.
    2: { rewrite run_element_id. apply Hplain. apply elem_of_app. right.
         apply list_elem_of_here. }
    destruct ev as [p|gone].
    + rewrite run_element_id, lookup_insert_is_Some. split.
      * intros [<- | [Hne Hsome]].
        -- exists (p_element p). split; [|done].
           apply undisposed_snoc. left. by exists p.
        -- apply IH in Hsome as (element & Hun & Hid).
           exists element. split; [|done].
           apply undisposed_snoc. right. by split.
      * intros (element & Hun & Hid). apply undisposed_snoc in Hun.
        destruct Hun as [(p' & [= <-] & Hp) | [Hun _]].
        -- left. by rewrite Hp.
        -- destruct (decide (element_id (p_element p) w = key)); [by left|].
           right. split; [done|]. apply IH. by exists element.
    + rewrite run_element_id, lookup_delete_is_Some. split.
      * intros [Hne Hsome]. apply IH in Hsome as (element & Hun & Hid).
        exists element. split; [|done].
        apply undisposed_snoc. right. split; [done|]. congruence.
      * intros (element & Hun & Hid). apply undisposed_snoc in Hun.
        destruct Hun as [(p' & [=] & _) | [Hun Hne]].
        assert (element <> gone) as Hne' by congruence.
        split; [|apply IH; by exists element].
        intros Hsame. apply Hne'.
        destruct Hun as (before & p & after & -> & Hp & _).
        rewrite <- Hp.
        change (subject (Completed p) = subject (Removed gone)).
        apply (Hdist (Completed p) (Removed gone)).
        -- apply elem_of_app. left. apply elem_of_app. right.
           apply list_elem_of_here.
        -- apply elem_of_app. right. apply list_elem_of_here.
        -- simpl. rewrite Hp. congruence.
Qed.

(** No entry is named 'hasOwnProperty' when no element carries that id. *)
Lemma run_found (evs : list Event) (w : World) :
  instances w = ∅ -> distinctIds w evs -> plainIds w evs ->
  instances (run evs w) !! "hasOwnProperty" = None.
Proof.
  intros Hempty Hdist Hplain.
  destruct (instances (run evs w) !! "hasOwnProperty") as [x|] eqn:Hx; [|done].
  destruct (run_keys evs w Hempty Hdist Hplain "hasOwnProperty") as [Hto _].
  destruct Hto as (element & (before & p & after & -> & Hp & _) & Hid);
    [by exists x|].
  destruct (Hplain (Completed p)) as [Hne _].
  - apply elem_of_app. right. apply list_elem_of_here.
  - simpl in Hne. rewrite Hp in Hne. done.
Qed.

(** C7, as the claim states it, fails in three ways.  When two elements
    share an id: the creates of elements 2 and 3 have completed, element 2
    is removed and takes the one shared entry with it, so [hasEditors] is
    false although the create of element 3 has completed and element 3
    was not disposed.  When an element carries the id 'hasOwnProperty':
    its create has completed, the store has an entry, and [hasEditors]
    throws a TypeError.  When an element carries the id '__proto__': its
    create has completed, it was not disposed, the store has no entry and
    [hasEditors] is false. *)
Lemma hasEditors_counterexample :
  (instances clashBound = ∅ /\
   element_id 2 clashBound = element_id 3 clashBound /\
   hasEditors (run clashEvents clashBound)
     = Returns false (run clashEvents clashBound) /\
   (ed_disposed <$> editors (run clashEvents clashBound) !! 1%positive)
     = Some false /\
   undisposed clashEvents 3 /\
   ~ (hasEditors (run clashEvents clashBound)
        = Returns true (run clashEvents clashBound)
      <-> exists element, undisposed clashEvents element)) /\
  (instances hiddenLive <> ∅ /\
   hasEditors hiddenLive = Throws (notAFunction "hasOwnProperty") hiddenLive /\
   hasEditors hiddenLive <> Returns true hiddenLive) /\
  (instances protoBound = ∅ /\
   undisposed protoEvents 7 /\
   instances (run protoEvents protoBound) = ∅ /\
   hasEditors (run protoEvents protoBound)
     = Returns false (run protoEvents protoBound) /\
   (ed_disposed <$> editors (run protoEvents protoBound) !! 1%positive)
     = Some false).
Proof.
  split; [|split].
  - assert (hasEditors (run clashEvents clashBound)
            = Returns false (run clashEvents clashBound)) as Hfalse
      by (vm_compute; reflexivity).
    assert (undisposed clashEvents 3) as Hun.
    { exists [Completed (mkPending 2 VUndefined (Plain "second") "second")],
             (mkPending 3 VUndefined (Plain "third") "third"),
             [Removed 2%positive].
      split; [reflexivity|]. split; [reflexivity|].
      intros Hin. apply list_elem_of_singleton in Hin. discriminate. }
    split; [vm_compute; reflexivity|]. split; [vm_compute; reflexivity|].
    split; [exact Hfalse|]. split; [vm_compute; reflexivity|].
    split; [exact Hun|].
    intros [_ Hback]. rewrite Hfalse in Hback.
    assert (Returns false (run clashEvents clashBound)
            = Returns true (run clashEvents clashBound)) as Habs
      by (apply Hback; by exists 3%positive).
    discriminate Habs.
  - assert (hasEditors hiddenLive
            = Throws (notAFunction "hasOwnProperty") hiddenLive) as Hthrows
      by (vm_compute; reflexivity).
    split; [|split; [exact Hthrows | by rewrite Hthrows]].
    intros Hempty.
    assert (instances hiddenLive !! "hasOwnProperty" = Some 1%positive) as Hx
      by (vm_compute; reflexivity).
    rewrite Hempty in Hx. by rewrite lookup_empty in Hx.
  - split; [vm_compute; reflexivity|]. split.
    + exists [], (mkPending 7 VUndefined (Plain "seventh") "seventh"), [].
      split; [reflexivity|]. split; [reflexivity|]. apply not_elem_of_nil.
    + split; [vm_compute; reflexivity|].
      split; vm_compute; reflexivity.
Qed.

(** C7, amended: in a store with no entry named 'hasOwnProperty',
    [hasEditors] returns true exactly when the store has an entry, that is
    when its size is not zero; and when the elements involved carry
    pairwise different ids, none of them 'hasOwnProperty' or '__proto__', a
    store that started empty has an entry exactly when the create of some
    element has completed and that element has not been disposed since. *)
Theorem hasEditors_spec :
  (forall w, instances w !! "hasOwnProperty" = None ->
     exists b,
       hasEditors w = Returns b w /\
       (b = true <-> instances w <> ∅) /\
       (b = true <-> size (instances w) <> 0)) /\
  (forall w evs,
     instances w = ∅ -> distinctIds w evs -> plainIds w evs ->
     exists b,
       hasEditors (run evs w) = Returns b (run evs w) /\
       (b = true <-> exists element, undisposed evs element)).
Proof.
  split.
  - intros w Hfound. exists (bool_decide (instances w <> ∅)).
    split; [by apply hasEditors_nonempty|].
    rewrite bool_decide_eq_true. split; [done|].
    by rewrite map_size_non_empty_iff.
  - intros w evs Hempty Hdist Hplain.
    exists (bool_decide (instances (run evs w) <> ∅)).
    split; [apply hasEditors_nonempty; by apply run_found|].
    rewrite bool_decide_eq_true. split.
    + intros Hne. apply map_choose in Hne as (key & h & Hkey).
      destruct (run_keys evs w Hempty Hdist Hplain key) as [Hto _].
      destruct Hto as (element & Hun & _); [by eexists|]. by exists element.
    + intros (element & Hun) Hnone.
      destruct (run_keys evs w Hempty Hdist Hplain (element_id element w))
        as [_ Hfrom].
      destruct Hfrom as [h Hh]; [by exists element|].
      rewrite Hnone in Hh. by rewrite lookup_empty in Hh.
Qed.

Lemma hasEditors_spec_witness :
  instances demoBound = ∅ /\
  distinctIds demoBound demoEvents /\
  plainIds demoBound demoEvents /\
  exists b,
    hasEditors (run demoEvents demoBound) = Returns b (run demoEvents demoBound) /\
    (b = true <-> exists element, undisposed demoEvents element).
Proof.
  assert (instances demoBound = ∅) as Hempty by (vm_compute; reflexivity).
  assert (distinctIds demoBound demoEvents) as Hdist.
  { intros ev1 ev2 H1 H2.
    change demoEvents
      with [ Completed (mkPending 1 VUndefined (Plain "// start") "// start");
             Completed (mkPending 2 VUndefined (Plain "second") "second");
             Removed 1%positive ] in H1, H2.
    repeat (apply elem_of_cons in H1 as [->|H1]);
      try (by apply elem_of_nil in H1);
      repeat (apply elem_of_cons in H2 as [->|H2]);
      try (by apply elem_of_nil in H2);
      vm_compute; intros Hid; first [reflexivity | discriminate Hid]. }
  assert (plainIds demoBound demoEvents) as Hplain.
  { intros ev Hin.
    change demoEvents
      with [ Completed (mkPending 1 VUndefined (Plain "// start") "// start");
             Completed (mkPending 2 VUndefined (Plain "second") "second");
             Removed 1%positive ] in Hin.
    repeat (apply elem_of_cons in Hin as [->|Hin]);
      try (by apply elem_of_nil in Hin);
      split; vm_compute; discriminate. }
  split; [exact Hempty|]. split; [exact Hdist|]. split; [exact Hplain|].
  destruct hasEditors_spec as [_ Hlife].
  exact (Hlife demoBound demoEvents Hempty Hdist Hplain).
Defined.

(** ** Ids *)

Lemma prefix_inj (s1 s2 : string) :
  editorDomElementIdPrefix +:+ s1 = editorDomElementIdPrefix +:+ s2 -> s1 = s2.
Proof. unfold editorDomElementIdPrefix. cbn. intros H. by simplify_eq. Qed.

Lemma lacksId_true (w : World) (element : Element) :
  lacksId w element = true <-> element_id element w = "".
Proof.
  unfold lacksId. cbn [truthy]. rewrite negb_involutive. apply String.eqb_eq.
Qed.

Lemma lacksId_false (w : World) (element : Element) :
  lacksId w element = false <-> element_id element w <> "".
Proof.
  unfold lacksId. cbn [truthy]. rewrite negb_involutive. apply String.eqb_neq.
Qed.

(** One [create]: the element is named when it lacks an id, the other
    elements keep theirs, and the counter moves by one or not at all. *)
Lemma create_ids_step (element : Element) (options : JSVal) (accessor : ModelProp)
    (w : World) :
  exists w1,
    create element options accessor w = Returns tt w1 /\
    nextStoreEntryId w1
      = (nextStoreEntryId w + if lacksId w element then 1 else 0)%N /\
    element_id element w1
      = (if lacksId w element
         then editorDomElementIdPrefix +:+ pretty (nextStoreEntryId w + 1)%N
         else element_id element w) /\
    (forall other, other <> element -> element_id other w1 = element_id other w) /\
    instances w1 = instances w.
Proof.
  destruct (lacksId w element) eqn:Hlacks.
  - apply lacksId_true in Hlacks. eexists. split; [by apply create_without_id|].
    split; [reflexivity|]. split; [|split; [|reflexivity]].
    + unfold element_id, named. cbn [dom_ids with_loading with_dom_ids].
      by rewrite lookup_insert_eq.
    + intros other Hne. unfold element_id, named.
      cbn [dom_ids with_loading with_dom_ids]. by rewrite lookup_insert_ne.
  - apply lacksId_false in Hlacks. eexists. split; [by apply create_with_id|].
    split; [|done]. unfold nextStoreEntryId. cbn. lia.
Qed.

Lemma rank_ext (w w1 : World) (elements : list Element) (i : nat) :
  (forall element, element ∈ elements -> lacksId w1 element = lacksId w element) ->
  rank w1 elements i = rank w elements i.
Proof.
  revert i. induction elements as [|element rest IH]; intros i Hsame; [done|].
  simpl. rewrite Hsame by apply list_elem_of_here.
  destruct i as [|i]; [done|]. rewrite IH; [done|].
  intros other Hin. apply Hsame. by apply list_elem_of_further.
Qed.

Lemma generated_ext (w w1 : World) (elements : list Element) :
  (forall element, element ∈ elements -> lacksId w1 element = lacksId w element) ->
  generated w1 elements = generated w elements.
Proof.
  unfold generated. induction elements as [|element rest IH]; intros Hsame; [done|].
  rewrite !filter_cons. rewrite Hsame by apply list_elem_of_here.
  destruct (decide (lacksId w element = true)); simpl; rewrite IH; try done;
    intros other Hin; apply Hsame; by apply list_elem_of_further.
Qed.

Lemma rank_pos (w : World) (elements : list Element) (i : nat) (element : Element) :
  elements !! i = Some element -> lacksId w element = true ->
  0 < rank w elements i.
Proof.
  revert i. induction elements as [|first rest IH]; intros i Hi Hlacks; [done|].
  destruct i as [|i]; simpl in *.
  - injection Hi as ->. rewrite Hlacks. lia.
  - specialize (IH i Hi Hlacks). lia.
Qed.

Lemma rank_lt (w : World) (elements : list Element) (i j : nat) (element : Element) :
  i < j -> elements !! j = Some element -> lacksId w element = true ->
  rank w elements i < rank w elements j.
Proof.
  revert i j. induction elements as [|first rest IH]; intros i j Hij Hj Hlacks; [done|].
  destruct j as [|j]; [lia|]. simpl in Hj. destruct i as [|i]; simpl.
  - pose proof (rank_pos w rest j element Hj Hlacks). lia.
  - assert (i < j) as Hij' by lia. specialize (IH i j Hij' Hj Hlacks). lia.
Qed.

Lemma rank_le_generated (w : World) (elements : list Element) (i : nat) :
  rank w elements i <= generated w elements.
Proof.
  revert i. unfold generated.
  induction elements as [|first rest IH]; intros i; [done|].
  simpl. rewrite filter_cons.
  destruct i as [|i]; destruct (lacksId w first) eqn:Hl;
    try specialize (IH i); simpl; try lia.
  all: destruct (decide _) as [Hd|Hd]; simpl; try lia; try congruence.
Qed.

Lemma creates_assign (calls : list (Element * JSVal * ModelProp)) (w : World) :
  NoDup calls.*1.*1 ->
  exists w',
    creates calls w = Returns tt w' /\
    nextStoreEntryId w'
      = (nextStoreEntryId w + N.of_nat (generated w calls.*1.*1))%N /\
    (forall i element, calls.*1.*1 !! i = Some element ->
       element_id element w'
       = if lacksId w element
         then editorDomElementIdPrefix
              +:+ pretty (nextStoreEntryId w + N.of_nat (rank w calls.*1.*1 i))%N
         else element_id element w) /\
    (forall element, element ∉ calls.*1.*1 ->
       element_id element w' = element_id element w) /\
    instances w' = instances w.
Proof.
  revert w. induction calls as [|[[first options] accessor] rest IH]; intros w Hnd.
  - exists w. split; [done|]. split; [|done].
    unfold generated. simpl. lia.
  - change (((first, options, accessor) :: rest).*1.*1)
      with (first :: rest.*1.*1) in *.
    apply NoDup_cons in Hnd as [Hnotin Hnd].
    destruct (create_ids_step first options accessor w)
      as (w1 & Hrun & Hn1 & Hid1 & Hother & Hinst1).
    destruct (IH w1 Hnd) as (w' & Hrun' & Hn' & Hidx & Hout & Hinst').
    assert (forall element, element ∈ rest.*1.*1 ->
              lacksId w1 element = lacksId w element) as Hsame.
    { intros element Hin. unfold lacksId. rewrite Hother; [done|].
      intros ->. by apply Hnotin. }
    exists w'. split; [|split; [|split; [|split]]].
    + simpl. unfold bind. by rewrite Hrun.
    + rewrite Hn', Hn1, (generated_ext w w1) by done.
      unfold generated. rewrite filter_cons.
      destruct (lacksId w first); destruct (decide _); cbn [length];
        try lia; congruence.
    + intros i element Hi. destruct i as [|i]; cbn [lookup list_lookup] in Hi.
      * injection Hi as <-. rewrite Hout by done. rewrite Hid1.
        cbn [rank]. destruct (lacksId w first); [|done]. f_equal; f_equal; lia.
      * rewrite (Hidx i element Hi).
        assert (element ∈ rest.*1.*1) as Hin by (by eapply list_elem_of_lookup_2).
        rewrite Hsame by done. rewrite (rank_ext w w1) by done.
        rewrite Hother by (intros ->; by apply Hnotin).
        destruct (lacksId w element); [|done]. f_equal; f_equal.
        cbn [rank]. rewrite Hn1. destruct (lacksId w first); lia.
    + intros element Hout'.
      apply not_elem_of_cons in Hout' as [Hne Hout'].
      rewrite Hout by done. by apply Hother.
    + by rewrite Hinst'.
Qed.

(** C3: in a sequence of [create] calls on distinct elements, an element
    without an id is given 'knockout-monaco-' followed by the value the
    counter takes for it, an element that has an id keeps it, the counter
    grows by one with every id it gives out and never goes back, and no two
    generated ids are the same. *)
Theorem create_ids (calls : list (Element * JSVal * ModelProp)) (w : World) :
  NoDup calls.*1.*1 ->
  exists w',
    creates calls w = Returns tt w' /\
    editorDomElementIdPrefix = "knockout-monaco-" /\
    (forall i element, calls.*1.*1 !! i = Some element ->
       element_id element w = "" ->
       exists n, element_id element w' = editorDomElementIdPrefix +:+ pretty n /\
                 n = (nextStoreEntryId w + N.of_nat (rank w calls.*1.*1 i))%N /\
                 (nextStoreEntryId w < n <= nextStoreEntryId w')%N) /\
    (forall element, element ∈ calls.*1.*1 ->
       element_id element w <> "" ->
       element_id element w' = element_id element w) /\
    (forall i j first second,
       i < j ->
       calls.*1.*1 !! i = Some first -> calls.*1.*1 !! j = Some second ->
       element_id second w = "" ->
       rank w calls.*1.*1 i < rank w calls.*1.*1 j) /\
    (forall i j first second,
       i <> j ->
       calls.*1.*1 !! i = Some first -> calls.*1.*1 !! j = Some second ->
       element_id first w = "" -> element_id second w = "" ->
       element_id first w' <> element_id second w') /\
    (nextStoreEntryId w <= nextStoreEntryId w')%N /\
    nextStoreEntryId w'
      = (nextStoreEntryId w + N.of_nat (generated w calls.*1.*1))%N.
Proof.
  intros Hnd.
  destruct (creates_assign calls w Hnd) as (w' & Hrun & Hn' & Hidx & _ & _).
  exists w'. split; [exact Hrun|]. split; [reflexivity|].
  assert (forall i element, calls.*1.*1 !! i = Some element ->
            element_id element w = "" ->
            element_id element w'
            = editorDomElementIdPrefix
              +:+ pretty (nextStoreEntryId w + N.of_nat (rank w calls.*1.*1 i))%N)
    as Hgen.
  { intros i element Hi Hnone. rewrite (Hidx i element Hi).
    apply lacksId_true in Hnone. by rewrite Hnone. }
  split; [|split; [|split; [|split; [|split]]]].
  - intros i element Hi Hnone. eexists. split; [by apply Hgen|]. split; [done|].
    apply lacksId_true in Hnone.
    pose proof (rank_pos w _ i element Hi Hnone).
    pose proof (rank_le_generated w calls.*1.*1 i). lia.
  - intros element Hin Hsome. apply list_elem_of_lookup in Hin as [i Hi].
    rewrite (Hidx i element Hi). apply lacksId_false in Hsome. by rewrite Hsome.
  - intros i j first second Hij _ Hj Hnone. apply lacksId_true in Hnone.
    by apply (rank_lt w _ i j second).
  - intros i j first second Hij Hi Hj Hnone1 Hnone2.
    rewrite (Hgen i first Hi Hnone1), (Hgen j second Hj Hnone2).
    intros Heq. apply prefix_inj in Heq. apply (inj pretty) in Heq.
    apply lacksId_true in Hnone1, Hnone2.
    destruct (decide (i < j)).
    + pose proof (rank_lt w _ i j second ltac:(done) Hj Hnone2). lia.
    + assert (j < i) as Hji by lia.
      pose proof (rank_lt w _ j i first Hji Hi Hnone1). lia.
  - lia.
  - exact Hn'.
Qed.

Lemma create_ids_witness :
  exists w',
    creates [(1%positive, VUndefined, Plain "// start");
             (2%positive, VUndefined, Plain "second");
             (4%positive, VUndefined, Plain "fourth")] demoPage = Returns tt w' /\
    element_id 1 w' = "a" /\
    element_id 2 w' = "knockout-monaco-1" /\
    element_id 4 w' = "knockout-monaco-2" /\
    element_id 2 w' <> element_id 4 w'.
Proof.
  edestruct (create_ids [(1%positive, VUndefined, Plain "// start");
                         (2%positive, VUndefined, Plain "second");
                         (4%positive, VUndefined, Plain "fourth")] demoPage)
    as (w' & Hrun & _ & Hgen & Hkeep & _ & Hdiff & _).
  - apply (bool_decide_unpack _). vm_compute. reflexivity.
  - exists w'. split; [exact Hrun|]. split; [|split; [|split]].
    + rewrite (Hkeep 1%positive).
      * vm_compute. reflexivity.
      * apply (bool_decide_unpack _). vm_compute. reflexivity.
      * vm_compute. discriminate.
    + destruct (Hgen 1%nat 2%positive) as (n & -> & -> & _).
      * reflexivity.
      * vm_compute. reflexivity.
      * vm_compute. reflexivity.
    + destruct (Hgen 2%nat 4%positive) as (n & -> & -> & _).
      * reflexivity.
      * vm_compute. reflexivity.
      * vm_compute. reflexivity.
    + apply (Hdiff 1%nat 2%nat); [lia|reflexivity|reflexivity| |];
        vm_compute; reflexivity.
Defined.

(** ** The binding handler *)

Lemma create_returns (element : Element) (options : JSVal) (accessor : ModelProp)
    (w : World) :
  exists w', create element options accessor w = Returns tt w'.
Proof.
  destruct (create_ids_step element options accessor w) as (w' & Hrun & _).
  by exists w'.
Qed.

(** C5, as the claim states it, fails for a falsy literal: with
    [meOptions: null] the binding is present, and [create] is called with a
    new empty record, not with the literal. *)
Lemma init_falsy_literal_counterexample :
  bindings_has nullOptions "meOptions" = true /\
  bindings_get nullOptions "meOptions" = VNull /\
  init 4 (Plain "x") nullOptions demoPage
    <> create 4 VNull (Plain "x") demoPage /\
  (p_options <$> loading (world_of (init 4 (Plain "x") nullOptions demoPage)))
    = [VObj 1] /\
  (p_options <$> loading (world_of (create 4 VNull (Plain "x") demoPage)))
    = [VNull].
Proof.
  split; [reflexivity|]. split; [reflexivity|].
  assert ((p_options <$> loading (world_of (init 4 (Plain "x") nullOptions demoPage)))
          = [VObj 1]) as Hinit by (vm_compute; reflexivity).
  assert ((p_options <$> loading (world_of (create 4 VNull (Plain "x") demoPage)))
          = [VNull]) as Hcreate by (vm_compute; reflexivity).
  split; [|split; [exact Hinit | exact Hcreate]].
  intros Heq. rewrite Heq in Hinit. rewrite Hinit in Hcreate. discriminate Hcreate.
Qed.

(** C5: without the [meOptions] binding [init] throws its error and leaves
    the state as it was, so nothing was called on the store; with the
    binding it does not throw and calls [create] with the element, the
    accessor and the option literal when that is truthy, or a new empty
    record when it is falsy. *)
Theorem init_spec (element : Element) (valueAccessor : ModelProp)
    (allBindingsAccessor : gmap string JSVal) (w : World) :
  (bindings_has allBindingsAccessor "meOptions" = false ->
     init element valueAccessor allBindingsAccessor w = Throws missingOptions w) /\
  (bindings_has allBindingsAccessor "meOptions" = true ->
     (exists w', init element valueAccessor allBindingsAccessor w = Returns tt w') /\
     (truthy (bindings_get allBindingsAccessor "meOptions") = true ->
        init element valueAccessor allBindingsAccessor w
        = create element (bindings_get allBindingsAccessor "meOptions")
            valueAccessor w) /\
     (truthy (bindings_get allBindingsAccessor "meOptions") = false ->
        init element valueAccessor allBindingsAccessor w
        = create element (VObj (fresh (dom (heap w)))) valueAccessor
            (withEmptyRecord w))).
Proof.
  unfold init. split.
  - intros Hhas. by rewrite Hhas.
  - intros Hhas. rewrite Hhas.
    destruct (truthy (bindings_get allBindingsAccessor "meOptions")) eqn:Hlit.
    + rewrite bind_ret. split; [apply create_returns|]. by split.
    + unfold bind at 1, newObject. fold (withEmptyRecord w).
      split; [apply create_returns|]. by split.
Qed.

Lemma init_spec_witness :
  init 2 (Plain "x") ∅ optionsWorld = Throws missingOptions optionsWorld /\
  init 2 (Plain "x") literalOptions optionsWorld
    = create 2 (VObj 1) (Plain "x") optionsWorld /\
  init 2 (Plain "x") nullOptions optionsWorld
    = create 2 (VObj 2) (Plain "x") (withEmptyRecord optionsWorld).
Proof.
  split; [|split].
  - apply (init_spec 2 (Plain "x") ∅ optionsWorld). reflexivity.
  - destruct (init_spec 2 (Plain "x") literalOptions optionsWorld) as [_ H].
    destruct (H eq_refl) as (_ & Htruthy & _). apply Htruthy. reflexivity.
  - destruct (init_spec 2 (Plain "x") nullOptions optionsWorld) as [_ H].
    destruct (H eq_refl) as (_ & _ & Hfalsy). apply Hfalsy. reflexivity.
Defined.

(** ** Every stored handle is a widget with a model *)

Lemma wellFormed_page (ids : gmap Element string) : wellFormed (page ids).
Proof.
  intros key h Hh. change (instances (page ids)) with (∅ : gmap string Handle) in Hh.
  by rewrite lookup_empty in Hh.
Qed.

Lemma wellFormed_create (element : Element) (options : JSVal) (accessor : ModelProp)
    (w : World) :
  wellFormed w -> wellFormed (world_of (create element options accessor w)).
Proof.
  intros Hwf. destruct (lacksId w element) eqn:Hlacks.
  - apply lacksId_true in Hlacks. by rewrite create_without_id.
  - apply lacksId_false in Hlacks. by rewrite create_with_id.
Qed.

Lemma wellFormed_create_loaded (p : Pending) (w : World) :
  wellFormed w -> wellFormed (world_of (create_loaded p w)).
Proof.
  intros Hwf.
  destruct (create_loaded_spec p w) as (w' & -> & Hdone).
  destruct (createCompleted_store p w w' Hdone) as [Hinst _].
  destruct Hdone
    as (_ & _ & _ & _ & _ & _ & (e & Hed & _ & _ & _ & Hmodel) & Hold).
  simpl. intros key h Hh. rewrite Hinst in Hh. unfold modelOf. rewrite Hed.
  assert (instances w !! key = Some h -> 
          is_Some (<[fresh (dom (editors w)):=e]> (editors w) !! h
                   ≫= (fun e0 => models w' !! ed_model e0))) as Hkept.
  { intros Hh'.
    destruct (wellFormed_lookup w key h Hwf Hh') as (e' & m & He' & Hm).
    rewrite lookup_insert_ne.
    + rewrite He'. simpl. rewrite Hold by (by eexists). by eexists.
    + intros Heq. apply (is_fresh (dom (editors w))). rewrite Heq.
      by apply elem_of_dom_2 in He'. }
  destruct (assign_cases (element_id (p_element p) w) (fresh (dom (editors w))) w)
    as [[Hown _] | (_ & _ & Hown & _)]; rewrite Hown in Hh.
  - apply lookup_insert_Some in Hh as [[_ <-] | [_ Hh]]; [|by apply Hkept].
    by rewrite lookup_insert_eq.
  - by apply Hkept.
Qed.

Lemma wellFormed_disposed (key : string) (h : Handle) (w : World) :
  wellFormed w -> wellFormed (disposed key h w).
Proof.
  intros Hwf key' h' Hh'.
  change (instances (disposed key h w)) with (delete key (instances w)) in Hh'.
  apply lookup_delete_Some in Hh' as [_ Hh'].
  destruct (wellFormed_lookup w key' h' Hwf Hh') as (e' & m & He' & Hm).
  unfold modelOf, disposed. cbn [editors models with_instances with_store with_editors].
  rewrite lookup_alter. case_decide as Heq; [subst h'|]; rewrite He'; simpl;
    by rewrite Hm.
Qed.

Lemma wellFormed_disposeCallback (element : Element) (w : World) :
  wellFormed w -> wellFormed (world_of (disposeCallback element w)).
Proof.
  intros Hwf. rewrite disposeCallback_disposeEntry.
  destruct (disposeEntry_cases (element_id element w) w)
    as [(h & _ & ->) | (_ & message & ->)]; [|done].
  by apply wellFormed_disposed.
Qed.

Lemma wellFormed_run (evs : list Event) (w : World) :
  wellFormed w -> wellFormed (run evs w).
Proof.
  intros Hwf. induction evs as [|ev evs IH] using rev_ind; [done|].
  rewrite run_snoc. destruct ev; simpl.
  - by apply wellFormed_create_loaded.
  - by apply wellFormed_disposeCallback.
Qed.

Lemma wellFormed_updateEditor (id : Id) (v : string) (w : World) :
  wellFormed w -> wellFormed (world_of (updateEditor id v w)).
Proof.
  intros Hwf.
  destruct (decide (id = IdNull)) as [Hnull|Hnull];
    [by rewrite updateEditor_invalid by auto|].
  destruct (decide (id = IdStr "")) as [Hempty|Hempty];
    [by rewrite updateEditor_invalid by auto|].
  destruct (instances w !! "hasOwnProperty") as [x|] eqn:Hx;
    [by rewrite (updateEditor_hidden id v w x)|].
  destruct (instances w !! propertyKey id) as [h|] eqn:Hh;
    [|by rewrite updateEditor_skip by auto].
  destruct (wellFormed_lookup w _ h Hwf Hh) as (e & m & He & Hm).
  rewrite (updateEditor_registered id v w h e m) by done.
  destruct (String.eqb (tm_value m) v); [done|]. simpl.
  intros key h' Hh'.
  destruct (wellFormed_lookup w key h' Hwf Hh') as (e' & m' & He' & Hm').
  unfold modelOf, retexted. cbn [editors models with_editors with_models].
  assert (is_Some (alter (model_setValue v) (ed_model e) (models w) !! ed_model e'))
    as Hmodel.
  { rewrite lookup_alter. case_decide as Heq; [rewrite Heq|]; rewrite Hm'; by eexists. }
  rewrite lookup_alter. case_decide as Heq; [subst h'|]; rewrite He'; simpl;
    exact Hmodel.
Qed.

Lemma sameWidgets_refl (w : World) : sameWidgets w w.
Proof. by repeat split. Qed.

Lemma sameWidgets_trans (w1 w2 w3 : World) :
  sameWidgets w1 w2 -> sameWidgets w2 w3 -> sameWidgets w1 w3.
Proof.
  intros (Hi & Hm & He) (Hi' & Hm' & He').
  split; [congruence|]. split; [congruence|].
  intros h. by rewrite He', He.
Qed.

Lemma sameWidgets_wellFormed (w w' : World) :
  sameWidgets w w' -> wellFormed w -> wellFormed w'.
Proof.
  intros (Hi & Hm & He) Hwf key h Hh. rewrite Hi in Hh.
  destruct (wellFormed_lookup w key h Hwf Hh) as (e & m & Hed & Hmod).
  specialize (He h). rewrite Hed in He. unfold modelOf.
  destruct (editors w' !! h) as [e'|]; [|done]. simpl in *.
  injection He as He. rewrite He, Hm. by eexists.
Qed.

(** *** The loop of resizeAll *)

Lemma relaid_0 (e : Editor) : relaid 0 e = e.
Proof. by destruct e. Qed.

Lemma relaid_layout (n : nat) (e : Editor) : relaid n (layout e) = relaid (S n) e.
Proof. unfold relaid, layout. simpl. f_equal. lia. Qed.

Lemma relaid_1 (e : Editor) : relaid 1 e = layout e.
Proof. reflexivity. Qed.

Lemma lookup_relayout (kvs : list (string * Handle)) (editors : gmap Handle Editor)
    (h : Handle) :
  relayout kvs editors !! h
  = relaid (length (filter (fun kv => kv.2 = h) kvs)) <$> editors !! h.
Proof.
  revert editors. induction kvs as [|[k h0] kvs IH]; intros editors.
  - simpl. destruct (editors !! h) as [e|]; [|done]. simpl. by rewrite relaid_0.
  - change (relayout ((k, h0) :: kvs) editors)
      with (relayout kvs (alter layout h0 editors)).
    rewrite IH, lookup_alter, filter_cons. cbn [snd].
    destruct (decide (h0 = h)) as [->|Hne].
    + destruct (editors !! h) as [e|]; [|done]. simpl. by rewrite relaid_layout.
    + done.
Qed.

Lemma resizeAll_forIn (w : World) :
  resizeAll w = forIn (forInKeys w) resizeAll_body w.
Proof. unfold resizeAll. by rewrite bind_gets. Qed.

Lemma resizeAll_body_own (k : string) (h : Handle) (w : World) :
  instances w !! "hasOwnProperty" = None ->
  instances w !! k = Some h ->
  resizeAll_body k w = Returns tt (with_editors (alter layout h (editors w)) w).
Proof.
  intros Hfound Hk. unfold resizeAll_body.
  rewrite (bind_returns _ _ w w true).
  2: { rewrite hasOwnProperty_found by done. by rewrite (owns_Some _ _ h). }
  cbn [negb]. by rewrite bind_gets, (member_own w k h).
Qed.

Lemma resizeAll_body_skip (k : string) (w : World) :
  instances w !! "hasOwnProperty" = None ->
  instances w !! k = None ->
  resizeAll_body k w = Returns tt w.
Proof.
  intros Hfound Hk. unfold resizeAll_body.
  rewrite (bind_returns _ _ w w false); [done|].
  rewrite hasOwnProperty_found by done. by rewrite owns_None.
Qed.

Lemma forIn_app (l1 l2 : list string) (body : string -> M unit) (w : World) :
  forIn (l1 ++ l2) body w = (forIn l1 body ;;; forIn l2 body) w.
Proof.
  revert w. induction l1 as [|k l1 IH]; intros w.
  - reflexivity.
  - cbn [app forIn]. unfold bind.
    destruct (body k w) as [[] w'|e w']; [|done]. apply IH.
Qed.

Lemma forIn_layout_exact (kvs : list (string * Handle)) (w : World) :
  instances w !! "hasOwnProperty" = None ->
  (forall kv, kv ∈ kvs -> instances w !! kv.1 = Some kv.2) ->
  forIn kvs.*1 resizeAll_body w
  = Returns tt (with_editors (relayout kvs (editors w)) w).
Proof.
  intros Hfound. revert w Hfound.
  induction kvs as [|[k h] kvs IH]; intros w Hfound Hkvs.
  - simpl. by rewrite with_editors_id.
  - change (((k, h) :: kvs).*1) with (k :: kvs.*1). cbn [forIn].
    pose proof (Hkvs (k, h) ltac:(apply list_elem_of_here)) as Hk. simpl in Hk.
    rewrite (bind_returns _ _ _ _ _ (resizeAll_body_own k h w Hfound Hk)).
    rewrite IH; [reflexivity|exact Hfound|].
    intros kv Hin. apply Hkvs. by apply list_elem_of_further.
Qed.

Lemma forIn_layout_skip (keys : list string) (w : World) :
  instances w !! "hasOwnProperty" = None ->
  (forall k, k ∈ keys -> instances w !! k = None) ->
  forIn keys resizeAll_body w = Returns tt w.
Proof.
  intros Hfound Hkeys. induction keys as [|k keys IH]; [done|].
  cbn [forIn].
  rewrite (bind_returns _ _ w w tt).
  - apply IH. intros k' Hk'. apply Hkeys. by apply list_elem_of_further.
  - apply resizeAll_body_skip; [done|]. apply Hkeys, list_elem_of_here.
Qed.

(** With the method in reach the loop lays out the widget of every own
    property and passes over what is inherited. *)
Lemma resizeAll_exact (w : World) :
  instances w !! "hasOwnProperty" = None ->
  resizeAll w
  = Returns tt (with_editors (relayout (map_to_list (instances w)) (editors w)) w).
Proof.
  intros Hfound. rewrite resizeAll_forIn. unfold forInKeys, ownKeys.
  rewrite forIn_app.
  rewrite (bind_returns _ _ w
             (with_editors (relayout (map_to_list (instances w)) (editors w)) w) tt).
  - apply forIn_layout_skip; [exact Hfound|].
    intros k Hk. apply inheritedKeys_not_own in Hk.
    change (instances (with_editors (relayout (map_to_list (instances w)) (editors w)) w))
      with (instances w).
    unfold owns in Hk. by destruct (instances w !! k).
  - apply forIn_layout_exact; [exact Hfound|].
    intros [k h] Hin. by apply elem_of_map_to_list.
Qed.

(** With the method hidden the first round of the loop throws. *)
Lemma resizeAll_hidden (w : World) (x : Handle) :
  instances w !! "hasOwnProperty" = Some x ->
  resizeAll w = Throws (notAFunction "hasOwnProperty") w.
Proof.
  intros Hx. rewrite resizeAll_forIn. unfold forInKeys.
  destruct (ownKeys (instances w)) as [|k keys] eqn:Hkeys.
  - apply ownKeys_nil in Hkeys. rewrite Hkeys in Hx.
    by rewrite lookup_empty in Hx.
  - cbn [app forIn]. apply bind_throws. unfold resizeAll_body.
    apply bind_throws. by apply (hasOwnProperty_hidden k w x).
Qed.

(** [resizeAll] touches nothing but the layout of the stored widgets. *)
Lemma resizeAll_sameWidgets (w : World) :
  sameWidgets w (world_of (resizeAll w)).
Proof.
  destruct (instances w !! "hasOwnProperty") as [x|] eqn:Hx.
  - rewrite (resizeAll_hidden w x Hx). apply sameWidgets_refl.
  - rewrite (resizeAll_exact w Hx). cbn [world_of].
    repeat split. intros h. cbn [editors with_editors].
    rewrite lookup_relayout. by destruct (editors w !! h).
Qed.

Lemma wellFormed_loaderReady (w : World) :
  wellFormed w -> wellFormed (world_of (loaderReady w)).
Proof.
  intros Hwf. unfold loaderReady. rewrite bind_gets.
  destruct (loading w) as [|p rest]; [done|].
  rewrite bind_modify. by apply wellFormed_create_loaded.
Qed.

Lemma reachable_wellFormed (w : World) : reachable w -> wellFormed w.
Proof.
  induction 1 as [ids|o w _ IH|r v w _ IH|element options accessor w _ IH
                 |w _ IH|element w _ IH|id v w _ IH|w _ IH].
  - apply wellFormed_page.
  - exact IH.
  - exact IH.
  - by apply wellFormed_create.
  - by apply wellFormed_loaderReady.
  - by apply wellFormed_disposeCallback.
  - by apply wellFormed_updateEditor.
  - apply (sameWidgets_wellFormed w); [apply resizeAll_sameWidgets | done].
Qed.

(** ** Scenarios *)

(** The element gets the first generated id, the widget is made with the
    starting text, and the options record was normalized. *)
Example scenario_create :
  element_id 1 boundLive = "knockout-monaco-1" /\
  get (IdStr "knockout-monaco-1") boundLive = Returns (Widget 1%positive) boundLive /\
  getValue 1 boundLive = Returns "// start" boundLive /\
  readProp (VObj 1) "language" boundLive = VStr "javascript" /\
  readProp (VObj 1) "theme" boundLive = VStr "vs-dark" /\
  readProp (VObj 1) "fontSize" boundLive = VNum 20.
Proof. repeat split; vm_compute; reflexivity. Qed.

(** An edit in the widget reaches the observable through the listener. *)
Example scenario_edit :
  observables (world_of ((setValue 1 "// edited" ;;;
                          contentChanged (1%positive, Observable 1)) boundLive))
    !! 1%positive = Some "// edited".
Proof. vm_compute. reflexivity. Qed.

(** Resizing with no editor registered does nothing and does not throw. *)
Example scenario_resize_empty (ids : gmap Element string) :
  resizeAll (page ids) = Returns tt (page ids).
Proof. reflexivity. Qed.

(** Three ids that the store object gives a meaning of its own: an entry
    named 'hasOwnProperty' hides the method, so that [resizeAll] throws;
    'toString' is found whether it is an entry or not; and '__proto__' makes
    the widget the prototype, so that the store has no entry and [get]
    still finds the widget. *)
Example scenario_names :
  resizeAll hiddenLive = Throws (notAFunction "hasOwnProperty") hiddenLive /\
  get (IdStr "toString") namesPage = Returns (Builtin "toString") namesPage /\
  get (IdStr "toString") toStringLive = Returns (Widget 1%positive) toStringLive /\
  instances protoLive = ∅ /\
  prototypeOf protoLive = WidgetPrototype 1%positive /\
  get (IdStr "__proto__") protoLive = Returns (Widget 1%positive) protoLive.
Proof. repeat split; vm_compute; reflexivity. Qed.

(** * Further properties *)

(** ** Options normalization, continued *)

Lemma fills_fixed (table : list (string * JSVal)) (o : gmap string JSVal) :
  (forall k d, (k, d) ∈ table -> truthy (prop o k) = true \/ o !! k = Some d) ->
  fills table o = o.
Proof.
  induction table as [|[k d] table IH]; intros Hfix; [done|].
  change (fills ((k, d) :: table) o) with (fills table (fill k d o)).
  assert (fill k d o = o) as ->.
  { unfold fill. destruct (Hfix k d) as [Ht|Hd]; [apply list_elem_of_here| |].
    - by rewrite Ht.
    - destruct (truthy (prop o k)); [done|]. by apply insert_id. }
  apply IH. intros k' d' Hin. apply Hfix. by apply list_elem_of_further.
Qed.

Lemma normalizedRecord_fixed (o : gmap string JSVal) (m : Loc) :
  fills scalarDefaults (normalizedRecord o m) = normalizedRecord o m.
Proof.
  apply fills_fixed. intros k d Hin.
  pose proof (normalizedRecord_scalar o m k d Hin) as Hk.
  destruct (truthy (prop o k)) eqn:Ht.
  - left. unfold prop in *. by rewrite Hk.
  - by right.
Qed.

Lemma normalizedRecord_minimap_truthy (o : gmap string JSVal) (m : Loc) :
  truthy (prop (normalizedRecord o m) "minimap") = true.
Proof.
  unfold prop at 1. rewrite normalizedRecord_minimap.
  destruct (truthy (prop o "minimap")) eqn:Ht; [exact Ht|done].
Qed.

(** X13: normalizing a record that was already normalized changes nothing:
    the second [parseOptions] returns the same reference and the state it
    was given. *)
Theorem parseOptions_twice (l : Loc) (o : gmap string JSVal) (w : World) :
  heap w !! l = Some o ->
  exists w1 : World,
    parseOptions (VObj l) w = Returns (VObj l) w1 /\
    parseOptions (VObj l) w1 = Returns (VObj l) w1.
Proof.
  intros Hl. exists (with_heap (normalizedHeap l o (heap w)) w).
  split; [by apply parseOptions_record|].
  set (h1 := normalizedHeap l o (heap w)).
  set (o1 := normalizedRecord o (fresh (dom (heap w)))).
  assert (h1 !! l = Some o1) as Hl1 by apply normalizedHeap_self.
  rewrite (parseOptions_record l o1) by exact Hl1.
  rewrite heap_with_heap, with_heap_with_heap. do 2 f_equal.
  unfold normalizedHeap at 1.
  unfold o1 at 1. rewrite normalizedRecord_minimap_truthy.
  unfold o1. rewrite normalizedRecord_fixed. by apply insert_id.
Qed.

Lemma parseOptions_twice_witness :
  heap optionsWorld !! 1%positive = Some suppliedOptions /\
  exists w1 : World,
    parseOptions (VObj 1) optionsWorld = Returns (VObj 1) w1 /\
    parseOptions (VObj 1) w1 = Returns (VObj 1) w1.
Proof.
  split; [reflexivity|].
  exact (parseOptions_twice 1 suppliedOptions optionsWorld eq_refl).
Defined.

(** X15: [parseOptions] passes through what it has no default for: a
    property whose name is not one of the fifteen option names keeps its
    value, falsy or not, and no property of the record is ever removed. *)
Theorem parseOptions_keeps_other_properties (l : Loc) (o : gmap string JSVal)
    (w : World) :
  heap w !! l = Some o ->
  exists (w' : World) (o' : gmap string JSVal),
    parseOptions (VObj l) w = Returns (VObj l) w' /\
    heap w' !! l = Some o' /\
    (forall k, k ∉ optionNames -> o' !! k = o !! k) /\
    (forall k, is_Some (o !! k) -> is_Some (o' !! k)).
Proof.
  intros Hl.
  exists (with_heap (normalizedHeap l o (heap w)) w),
         (normalizedRecord o (fresh (dom (heap w)))).
  split; [by apply parseOptions_record|].
  rewrite heap_with_heap. split; [apply normalizedHeap_self|].
  assert (forall k, k ∉ optionNames ->
            normalizedRecord o (fresh (dom (heap w))) !! k = o !! k) as Hother.
  { intros k Hk. unfold optionNames in Hk.
    apply not_elem_of_app in Hk as [Hscalar Hmini].
    assert (k <> "minimap") as Hne.
    { intros ->. apply Hmini. apply list_elem_of_here. }
    unfold normalizedRecord. destruct (truthy (prop o "minimap")).
    - by apply lookup_fills_notin.
    - rewrite lookup_insert_ne by done. by apply lookup_fills_notin. }
  split; [exact Hother|].
  intros k Hsome.
  destruct (decide (k = "minimap")) as [->|Hne].
  - rewrite normalizedRecord_minimap.
    destruct (truthy (prop o "minimap")); [done|by eexists].
  - destruct (decide (k ∈ scalarDefaults.*1)) as [Hin|Hout].
    + apply list_elem_of_fmap in Hin as ([k' d] & -> & Hin). simpl in *.
      rewrite (normalizedRecord_scalar _ _ k' d Hin).
      destruct (truthy (prop o k')); [done|by eexists].
    + rewrite Hother; [done|]. unfold optionNames.
      apply not_elem_of_app. split; [done|].
      intros Hin. apply list_elem_of_singleton in Hin. done.
Qed.

Lemma parseOptions_keeps_other_properties_witness :
  heap optionsWorld !! 1%positive = Some suppliedOptions /\
  exists (w' : World) (o' : gmap string JSVal),
    parseOptions (VObj 1) optionsWorld = Returns (VObj 1) w' /\
    heap w' !! 1%positive = Some o' /\
    o' !! "wordWrap" = None.
Proof.
  split; [reflexivity|].
  destruct (parseOptions_keeps_other_properties 1 suppliedOptions optionsWorld eq_refl)
    as (w' & o' & Hrun & Hl & Hother & _).
  exists w', o'. split; [exact Hrun|]. split; [exact Hl|].
  rewrite Hother; [reflexivity|].
  apply (bool_decide_unpack _). vm_compute. reflexivity.
Defined.

Lemma parseOptions_absent_eq (literal : JSVal) (w : World) :
  truthy literal = false ->
  parseOptions literal w
  = parseOptions (VObj (fresh (dom (heap w))))
      (with_heap (<[fresh (dom (heap w)) := ∅]> (heap w)) w).
Proof. intros Hlit. unfold parseOptions. rewrite Hlit. reflexivity. Qed.

(** X14: given no record ([null], [undefined] or another falsy value),
    [parseOptions] makes a new one that holds every default, and leaves
    every object that was there as it was. *)
Theorem parseOptions_absent (literal : JSVal) (w : World) :
  truthy literal = false ->
  exists w' : World,
    parseOptions literal w = Returns (VObj (fresh (dom (heap w)))) w' /\
    w' = with_heap (heap w') w /\
    heap w !! fresh (dom (heap w)) = None /\
    (forall l o, heap w !! l = Some o -> heap w' !! l = Some o) /\
    (forall k d, (k, d) ∈ scalarDefaults ->
       readProp (VObj (fresh (dom (heap w)))) k w' = d) /\
    (exists m, readProp (VObj (fresh (dom (heap w)))) "minimap" w' = VObj m /\
               heap w' !! m = Some minimapDefault).
Proof.
  intros Hlit. rewrite parseOptions_absent_eq by done.
  set (l := fresh (dom (heap w))).
  set (h1 := <[l := ∅]> (heap w)).
  assert (heap w !! l = None) as Hfresh.
  { apply not_elem_of_dom. apply is_fresh. }
  assert (h1 !! l = Some ∅) as Hl by apply lookup_insert_eq.
  assert (l ∈ dom h1) as Hin by (by apply elem_of_dom_2 in Hl).
  exists (with_heap (normalizedHeap l ∅ h1) w).
  split.
  { rewrite (parseOptions_record l ∅) by exact Hl.
    by rewrite heap_with_heap, with_heap_with_heap. }
  split; [reflexivity|]. split; [exact Hfresh|].
  rewrite heap_with_heap. unfold readProp. rewrite heap_with_heap.
  rewrite normalizedHeap_self.
  assert (forall k, truthy (prop (∅ : gmap string JSVal) k) = false) as Hempty.
  { intros k. unfold prop. by rewrite lookup_empty. }
  split; [|split].
  - intros l' o' Hl'. rewrite normalizedHeap_other.
    + unfold h1. rewrite lookup_insert_ne; [done|]. intros <-. congruence.
    + intros ->. congruence.
    + unfold h1. rewrite dom_insert_L. apply elem_of_union. right.
      by apply elem_of_dom_2 in Hl'.
  - intros k d Hk. unfold prop at 1.
    rewrite (normalizedRecord_scalar _ _ k d Hk). by rewrite Hempty.
  - exists (fresh (dom h1)). split.
    + unfold prop at 1. rewrite normalizedRecord_minimap. by rewrite Hempty.
    + by apply normalizedHeap_minimap.
Qed.

Lemma parseOptions_absent_witness :
  exists w' : World,
    parseOptions VNull optionsWorld = Returns (VObj 2) w' /\
    heap w' !! 1%positive = Some suppliedOptions /\
    readProp (VObj 2) "theme" w' = VStr "vs-dark".
Proof.
  destruct (parseOptions_absent VNull optionsWorld eq_refl)
    as (w' & Hrun & _ & _ & Hkeep & Hdefaults & _).
  exists w'. split; [exact Hrun|]. split.
  - apply Hkeep. reflexivity.
  - apply (Hdefaults "theme" (VStr "vs-dark")). in_table.
Defined.

(** ** Resizing *)

Lemma length_NoDup_same {A} (l : list A) (a : A) :
  NoDup l -> (forall x, x ∈ l -> x = a) -> length l <= 1.
Proof.
  intros Hnd Hall. destruct l as [|x [|y l]]; simpl; [lia|lia|].
  exfalso. apply NoDup_cons in Hnd as [Hx _]. apply Hx.
  rewrite (Hall x) by apply list_elem_of_here.
  rewrite <- (Hall y) by (apply list_elem_of_further, list_elem_of_here).
  apply list_elem_of_here.
Qed.

Lemma holders_unstored (m : gmap string Handle) (h : Handle) :
  (forall k, m !! k <> Some h) -> holders m h = 0.
Proof.
  intros Hnone. unfold holders.
  destruct (filter (fun kv => kv.2 = h) (map_to_list m)) as [|[k h'] l] eqn:Hf; [done|].
  exfalso. assert ((k, h') ∈ filter (fun kv => kv.2 = h) (map_to_list m)) as Hin
    by (rewrite Hf; apply list_elem_of_here).
  apply list_elem_of_filter in Hin as [Heq Hin]. simpl in Heq. subst h'.
  apply elem_of_map_to_list in Hin. by apply (Hnone k).
Qed.

Lemma holders_once (m : gmap string Handle) (k : string) (h : Handle) :
  m !! k = Some h ->
  (forall k', m !! k' = Some h -> k' = k) ->
  holders m h = 1.
Proof.
  intros Hk Huniq. unfold holders.
  assert (length (filter (fun kv => kv.2 = h) (map_to_list m)) <= 1) as Hle.
  { apply (length_NoDup_same _ (k, h)).
    - apply NoDup_filter, NoDup_map_to_list.
    - intros [k' h'] Hin. apply list_elem_of_filter in Hin as [Heq Hin].
      simpl in Heq. subst h'. apply elem_of_map_to_list in Hin.
      by rewrite (Huniq k' Hin). }
  assert ((k, h) ∈ filter (fun kv => kv.2 = h) (map_to_list m)) as Hin.
  { apply list_elem_of_filter. split; [done|]. by apply elem_of_map_to_list. }
  destruct (filter (fun kv => kv.2 = h) (map_to_list m)) as [|x l].
  - by apply elem_of_nil in Hin.
  - simpl in *. lia.
Qed.

(** X1: [resizeAll] changes nothing but layout counts.  In a store with
    no entry named 'hasOwnProperty' it returns, and each widget has had
    [layout] called once for every key it is stored under: exactly once
    for a widget stored under one key, never for a widget that is under no
    key, the prototype included.  In a store with such an entry it throws
    a TypeError in the first round and no widget is laid out. *)
Theorem resizeAll_layouts (w : World) :
  (forall x, instances w !! "hasOwnProperty" = Some x ->
     resizeAll w = Throws (notAFunction "hasOwnProperty") w) /\
  (instances w !! "hasOwnProperty" = None ->
   exists w' : World,
     resizeAll w = Returns tt w' /\
     w' = with_editors (editors w') w /\
     (forall h, editors w' !! h = relaid (holders (instances w) h) <$> editors w !! h) /\
     (forall h, (forall k, instances w !! k <> Some h) ->
        editors w' !! h = editors w !! h) /\
     (forall k h e,
        instances w !! k = Some h ->
        (forall k', instances w !! k' = Some h -> k' = k) ->
        editors w !! h = Some e ->
        editors w' !! h = Some (layout e))).
Proof.
  split; [intros x Hx; by apply (resizeAll_hidden w x)|]. intros Hfound.
  exists (with_editors (relayout (map_to_list (instances w)) (editors w)) w).
  assert (forall h,
            relayout (map_to_list (instances w)) (editors w) !! h
            = relaid (holders (instances w) h) <$> editors w !! h) as Hcount
    by (intros h; apply lookup_relayout).
  split; [|split; [reflexivity|split; [exact Hcount|split]]].
  - by apply resizeAll_exact.
  - intros h Hnone. cbn [editors with_editors].
    rewrite Hcount, holders_unstored by done.
    destruct (editors w !! h); [|done]. simpl. by rewrite relaid_0.
  - intros k h e Hk Huniq He. cbn [editors with_editors].
    by rewrite Hcount, (holders_once _ k), He.
Qed.

Lemma resizeAll_layouts_witness :
  resizeAll hiddenLive = Throws (notAFunction "hasOwnProperty") hiddenLive /\
  exists (w' : World) (e : Editor),
    resizeAll demoLive = Returns tt w' /\
    editors demoLive !! 1%positive = Some e /\
    editors w' !! 1%positive = Some (layout e).
Proof.
  split.
  { apply (resizeAll_layouts hiddenLive) with (x := 1%positive).
    vm_compute. reflexivity. }
  destruct (resizeAll_layouts demoLive) as [_ Hfound].
  destruct Hfound as (w' & Hrun & _ & _ & _ & Honce); [vm_compute; reflexivity|].
  exists w'. eexists. split; [exact Hrun|].
  split; [vm_compute; reflexivity|].
  apply (Honce "a" 1%positive).
  - vm_compute. reflexivity.
  - intros k' Hk'.
    destruct (decide (k' = "a")) as [->|Hne]; [reflexivity|].
    destruct (decide (k' = "knockout-monaco-1")) as [->|Hne'].
    + vm_compute in Hk'. discriminate Hk'.
    + exfalso. revert Hk'.
      change (instances demoLive)
        with (<["a" := 1%positive]>
                (<["knockout-monaco-1" := 2%positive]> (∅ : gmap string Handle))).
      rewrite !lookup_insert_ne by done. by rewrite lookup_empty.
  - vm_compute. reflexivity.
Defined.

(** ** The binding in use: update, change events, disposal *)

Lemma getValue_textOf (h : Handle) (w : World) :
  getValue h w = Returns (textOf w h) w.
Proof. reflexivity. Qed.

Lemma with_observables_id (w : World) : with_observables (observables w) w = w.
Proof. by destruct w. Qed.

Lemma update_updateEditor (element : Element) (accessor : ModelProp) (w : World) :
  update element accessor w
  = updateEditor (IdStr (element_id element w)) (currentValue accessor w) w.
Proof. unfold update, unwrapObservable. by rewrite !bind_gets. Qed.

Lemma IdStr_nonempty (s : string) : s <> "" -> IdStr s <> IdStr "".
Proof. congruence. Qed.

Lemma update_registered (element : Element) (accessor : ModelProp) (w : World)
    (h : Handle) (e : Editor) (m : TextModel) :
  instances w !! "hasOwnProperty" = None ->
  element_id element w <> "" ->
  instances w !! element_id element w = Some h ->
  editors w !! h = Some e ->
  models w !! ed_model e = Some m ->
  update element accessor w
  = Returns tt (if String.eqb (tm_value m) (currentValue accessor w) then w
                else retexted h (ed_model e) (currentValue accessor w) w).
Proof.
  intros Hfound Hid Hh He Hm. rewrite update_updateEditor.
  by apply updateEditor_registered; [| |apply IdStr_nonempty| | |].
Qed.

Lemma update_hidden (element : Element) (accessor : ModelProp) (w : World)
    (x : Handle) :
  instances w !! "hasOwnProperty" = Some x ->
  element_id element w <> "" ->
  update element accessor w = Throws (notAFunction "hasOwnProperty") w.
Proof.
  intros Hx Hid. rewrite update_updateEditor.
  by apply (updateEditor_hidden _ _ w x); [| |apply IdStr_nonempty].
Qed.

(** What the change listener does, by what the read of the store gives. *)
Lemma contentChanged_member (element : Element) (o : ObsRef) (w : World) :
  element_id element w <> "" ->
  contentChanged (element, Observable o) w
  = match member w (element_id element w) with
    | Widget h => Returns tt (pushed o h w)
    | Builtin _ => Throws (notAFunction "getValue") w
    | Absent => Throws (undefinedHasNoProperty "getValue") w
    end.
Proof.
  intros Hid. unfold contentChanged. cbn [snd fst isWriteableObservable].
  rewrite bind_gets. unfold bind at 1.
  rewrite get_valid by (by try apply IdStr_nonempty). cbn [propertyKey].
  by destruct (member w (element_id element w)).
Qed.

Lemma contentChanged_registered (element : Element) (o : ObsRef) (h : Handle)
    (w : World) :
  element_id element w <> "" ->
  instances w !! element_id element w = Some h ->
  contentChanged (element, Observable o) w = Returns tt (pushed o h w).
Proof.
  intros Hid Hh. rewrite contentChanged_member by done.
  by rewrite (member_own w _ h).
Qed.

(** X2: the [update] handler changes the state only by bringing a
    registered widget to the value.  It returns at once for an element
    without an id.  Otherwise, in a store with an entry named
    'hasOwnProperty' it throws a TypeError and changes nothing; in a store
    without one it changes nothing when the id is not a key (the create
    has not completed, or the element was disposed), and for a registered
    element the widget afterwards reads the current value of the model
    property, the observables and the store are untouched, and the
    position is reset only when the text had to change. *)
Theorem update_spec (element : Element) (accessor : ModelProp) (w : World) :
  (element_id element w = "" -> update element accessor w = Returns tt w) /\
  (forall x,
     element_id element w <> "" ->
     instances w !! "hasOwnProperty" = Some x ->
     update element accessor w = Throws (notAFunction "hasOwnProperty") w) /\
  (instances w !! "hasOwnProperty" = None ->
   instances w !! element_id element w = None ->
     update element accessor w = Returns tt w) /\
  (forall h e m,
     instances w !! "hasOwnProperty" = None ->
     element_id element w <> "" ->
     instances w !! element_id element w = Some h ->
     editors w !! h = Some e ->
     models w !! ed_model e = Some m ->
     exists w',
       update element accessor w = Returns tt w' /\
       getValue h w' = Returns (currentValue accessor w) w' /\
       observables w' = observables w /\
       instances w' = instances w /\
       (tm_value m = currentValue accessor w -> w' = w) /\
       (tm_value m <> currentValue accessor w ->
          editors w' !! h = Some (setPosition (mkPosition 0 0) e) /\
          models w' !! ed_model e
          = Some (model_setValue (currentValue accessor w) m))).
Proof.
  split; [|split; [|split]].
  - intros Hid. rewrite update_updateEditor, Hid.
    apply updateEditor_invalid. by right.
  - intros x Hid Hx. by apply (update_hidden element accessor w x).
  - intros Hfound Hnone. rewrite update_updateEditor.
    apply updateEditor_skip; [done|]. right. right. exact Hnone.
  - intros h e m Hfound Hid Hh He Hm.
    rewrite (update_registered _ _ w h e m) by done.
    destruct (String.eqb (tm_value m) (currentValue accessor w)) eqn:Heq.
    + apply String.eqb_eq in Heq. exists w. split; [done|].
      split; [|by repeat split].
      rewrite getValue_textOf. unfold textOf. by rewrite He, Hm, Heq.
    + apply String.eqb_neq in Heq. eexists. split; [reflexivity|].
      split; [by apply (getValue_retexted h e m)|].
      split; [reflexivity|]. split; [reflexivity|]. split; [done|].
      intros _. unfold retexted. cbn [editors models with_editors with_models].
      by rewrite !lookup_alter_eq, He, Hm.
Qed.

Lemma update_spec_witness :
  update 4 (Plain "x") demoLive = Returns tt demoLive /\
  update 1 (Plain "x") hiddenLive
    = Throws (notAFunction "hasOwnProperty") hiddenLive /\
  update 3 (Plain "x") demoPage = Returns tt demoPage /\
  exists w',
    update 1 (Plain "changed") demoLive = Returns tt w' /\
    getValue 1 w' = Returns "changed" w'.
Proof.
  destruct (update_spec 4 (Plain "x") demoLive) as [Hskip _].
  split; [apply Hskip; vm_compute; reflexivity|].
  destruct (update_spec 1 (Plain "x") hiddenLive) as (_ & Hhidden & _).
  split; [apply (Hhidden 1%positive); [vm_compute; discriminate
                                     |vm_compute; reflexivity]|].
  destruct (update_spec 3 (Plain "x") demoPage) as (_ & _ & Habsent & _).
  split; [apply Habsent; vm_compute; reflexivity|].
  destruct (update_spec 1 (Plain "changed") demoLive) as (_ & _ & _ & Hreg).
  edestruct (Hreg 1%positive) as (w' & Hrun & Hread & _).
  - vm_compute. reflexivity.
  - vm_compute. discriminate.
  - vm_compute. reflexivity.
  - vm_compute. reflexivity.
  - vm_compute. reflexivity.
  - exists w'. split; [exact Hrun | exact Hread].
Defined.

(** X6: the change listener does nothing for a model property that is not
    a writable observable.  For an observable it throws the error of [get]
    when the element has no id; otherwise it reads the store object under
    the element's id at that moment: it throws a TypeError when that gives
    [undefined] or an inherited member, and when it gives a widget that
    was not released, an entry or the prototype, it writes the text of
    that widget to the observable and changes nothing else.  An id that
    is a key gives the entry, and an id other than '__proto__' that is no
    key gives no widget. *)
Theorem contentChanged_spec (element : Element) (w : World) :
  (forall v, contentChanged (element, Plain v) w = Returns tt w) /\
  (forall o, element_id element w = "" ->
     contentChanged (element, Observable o) w = Throws invalidId w) /\
  (forall o, element_id element w <> "" ->
     member w (element_id element w) = Absent ->
     contentChanged (element, Observable o) w
     = Throws (undefinedHasNoProperty "getValue") w) /\
  (forall o name, element_id element w <> "" ->
     member w (element_id element w) = Builtin name ->
     contentChanged (element, Observable o) w
     = Throws (notAFunction "getValue") w) /\
  (forall o h e, element_id element w <> "" ->
     member w (element_id element w) = Widget h ->
     editors w !! h = Some e -> ed_disposed e = false ->
     contentChanged (element, Observable o) w = Returns tt (pushed o h w) /\
     observables (pushed o h w) !! o = Some (textOf w h) /\
     (forall o', o' <> o -> observables (pushed o h w) !! o' = observables w !! o')) /\
  (forall h, instances w !! element_id element w = Some h ->
     member w (element_id element w) = Widget h) /\
  (instances w !! element_id element w = None ->
   element_id element w <> "__proto__" ->
     forall h, member w (element_id element w) <> Widget h).
Proof.
  split; [done|]. split; [|split; [|split; [|split; [|split]]]].
  - intros o Hid. unfold contentChanged. cbn [snd fst isWriteableObservable].
    rewrite bind_gets, Hid. reflexivity.
  - intros o Hid Hnone. rewrite contentChanged_member by done. by rewrite Hnone.
  - intros o name Hid Hname. rewrite contentChanged_member by done.
    by rewrite Hname.
  - intros o h e Hid Hh _ _.
    split; [rewrite contentChanged_member by done; by rewrite Hh|].
    unfold pushed. cbn [observables with_observables].
    split; [apply lookup_insert_eq|].
    intros o' Hne. by rewrite lookup_insert_ne.
  - intros h Hh. by apply member_own.
  - intros Hnone Hne h Hh.
    apply member_widget in Hh as [Hh | (Hproto & _)]; congruence.
Qed.

Lemma contentChanged_spec_witness :
  contentChanged (4%positive, Observable 7) demoObserved
    = Throws invalidId demoObserved /\
  contentChanged (3%positive, Observable 7) demoPage
    = Throws (undefinedHasNoProperty "getValue") demoPage /\
  contentChanged (6%positive, Observable 7) namesPage
    = Throws (notAFunction "getValue") namesPage /\
  observables (world_of (contentChanged (2%positive, Observable 7) demoObserved))
    !! 7%positive = Some "second" /\
  observables (world_of (contentChanged (7%positive, Observable 7) protoLive))
    !! 7%positive = Some "seventh".
Proof.
  split; [|split; [|split; [|split]]].
  - apply (contentChanged_spec 4 demoObserved). vm_compute. reflexivity.
  - apply (contentChanged_spec 3 demoPage).
    + vm_compute. discriminate.
    + vm_compute. reflexivity.
  - apply (contentChanged_spec 6 namesPage) with (name := "toString").
    + vm_compute. discriminate.
    + vm_compute. reflexivity.
  - destruct (contentChanged_spec 2 demoObserved) as (_ & _ & _ & _ & Hreg & _).
    edestruct (Hreg 7%positive 2%positive) as (-> & Hwritten & _).
    + vm_compute. discriminate.
    + vm_compute. reflexivity.
    + vm_compute. reflexivity.
    + reflexivity.
    + cbn [world_of]. rewrite Hwritten. vm_compute. reflexivity.
  - destruct (contentChanged_spec 7 protoLive) as (_ & _ & _ & _ & Hreg & _).
    edestruct (Hreg 7%positive 1%positive) as (-> & Hwritten & _).
    + vm_compute. discriminate.
    + vm_compute. reflexivity.
    + vm_compute. reflexivity.
    + reflexivity.
    + cbn [world_of]. rewrite Hwritten. vm_compute. reflexivity.
Defined.

(** X7: no feedback loop.  When a change event has written the widget's
    text to the observable, the [update] that the observable then triggers
    changes nothing: the widget keeps its text and its cursor.  In a store
    with no entry named 'hasOwnProperty' that [update] returns; in a store
    with one it throws, and still changes nothing. *)
Theorem change_then_update (element : Element) (o : ObsRef) (w : World)
    (h : Handle) (e : Editor) (m : TextModel) :
  element_id element w <> "" ->
  instances w !! element_id element w = Some h ->
  editors w !! h = Some e ->
  models w !! ed_model e = Some m ->
  world_of ((contentChanged (element, Observable o) ;;;
             update element (Observable o)) w)
  = world_of (contentChanged (element, Observable o) w) /\
  (instances w !! "hasOwnProperty" = None ->
     (contentChanged (element, Observable o) ;;; update element (Observable o)) w
     = contentChanged (element, Observable o) w).
Proof.
  intros Hid Hh He Hm.
  unfold bind. rewrite (contentChanged_registered element o h w) by done.
  cbn [world_of].
  destruct (instances w !! "hasOwnProperty") as [x|] eqn:Hx.
  - split; [|done].
    by rewrite (update_hidden element _ (pushed o h w) x).
  - rewrite (update_registered element _ (pushed o h w) h e m) by done.
    assert (currentValue (Observable o) (pushed o h w) = tm_value m) as ->.
    { unfold pushed. cbn [currentValue observables with_observables].
      rewrite lookup_insert_eq. simpl. unfold textOf. by rewrite He, Hm. }
    by rewrite String.eqb_refl.
Qed.

Lemma change_then_update_witness :
  (contentChanged (2%positive, Observable 7) ;;; update 2 (Observable 7)) demoObserved
  = contentChanged (2%positive, Observable 7) demoObserved.
Proof.
  edestruct (change_then_update 2 7 demoObserved 2%positive) as [_ Hsame].
  - vm_compute. discriminate.
  - vm_compute. reflexivity.
  - vm_compute. reflexivity.
  - vm_compute. reflexivity.
  - apply Hsame. vm_compute. reflexivity.
Defined.

(** X8: the other way round.  When [update] has brought the value of an
    observable into the widget, the change event that follows writes that
    same value back: the observable, and the whole state, stay as [update]
    left them.  Where [update] throws, no change event follows. *)
Theorem update_then_change (element : Element) (o : ObsRef) (v : string)
    (w : World) (h : Handle) (e : Editor) (m : TextModel) :
  observables w !! o = Some v ->
  element_id element w <> "" ->
  instances w !! element_id element w = Some h ->
  editors w !! h = Some e ->
  models w !! ed_model e = Some m ->
  (update element (Observable o) ;;; contentChanged (element, Observable o)) w
  = update element (Observable o) w.
Proof.
  intros Ho Hid Hh He Hm.
  destruct (instances w !! "hasOwnProperty") as [x|] eqn:Hx.
  { unfold bind. by rewrite (update_hidden element _ w x). }
  unfold bind. rewrite (update_registered element _ w h e m) by done.
  assert (currentValue (Observable o) w = v) as Hv
    by (cbn [currentValue]; by rewrite Ho).
  rewrite Hv.
  set (w' := if String.eqb (tm_value m) v then w else retexted h (ed_model e) v w).
  assert (element_id element w' = element_id element w /\
          instances w' = instances w /\ observables w' = observables w)
    as (Hid' & Hinst & Hobs)
    by (unfold w'; by destruct (String.eqb (tm_value m) v)).
  assert (textOf w' h = v) as Htext.
  { unfold w'. destruct (String.eqb (tm_value m) v) eqn:Heq.
    - apply String.eqb_eq in Heq. unfold textOf. by rewrite He, Hm.
    - pose proof (getValue_retexted h e m v w He Hm) as Hread.
      rewrite getValue_textOf in Hread. by injection Hread. }
  rewrite (contentChanged_registered element o h w')
    by (by rewrite Hid', ?Hinst).
  f_equal. unfold pushed. rewrite Htext, Hobs.
  rewrite insert_id by done. rewrite <- Hobs. apply with_observables_id.
Qed.

Lemma update_then_change_witness :
  (update 1 (Observable 7) ;;; contentChanged (1%positive, Observable 7)) demoObserved
  = update 1 (Observable 7) demoObserved.
Proof.
  eapply (update_then_change 1 7 "// start" demoObserved 1%positive).
  - vm_compute. reflexivity.
  - vm_compute. discriminate.
  - vm_compute. reflexivity.
  - vm_compute. reflexivity.
  - vm_compute. reflexivity.
Defined.

(** X9: disposal presupposes that the read of the store finds a widget.
    When it finds none, the disposal callback, like [disposeEditor], throws
    a TypeError and leaves the state as it was.  So the callback of an
    entry, under an id other than '__proto__', cannot run twice: after a
    disposal that succeeded the second one throws.  For the id '__proto__'
    the read finds the prototype: the callback releases that widget,
    [delete] removes nothing, and the widget is found again afterwards. *)
Theorem disposeCallback_twice (element : Element) (w : World) :
  ((forall h, member w (element_id element w) <> Widget h) ->
     exists message,
       disposeCallback element w = Throws (TypeError message) w /\
       disposeEditor (IdStr (element_id element w)) w
       = Throws (TypeError message) w) /\
  (forall h, instances w !! element_id element w = Some h ->
     element_id element w <> "__proto__" ->
     exists w1 message,
       disposeCallback element w = Returns tt w1 /\
       disposeCallback element w1 = Throws (TypeError message) w1 /\
       (disposeCallback element ;;; disposeCallback element) w
       = Throws (TypeError message) w1) /\
  (forall h e, element_id element w = "__proto__" ->
     instances w !! "__proto__" = None ->
     prototypeOf w = WidgetPrototype h ->
     editors w !! h = Some e ->
     exists w1,
       disposeCallback element w = Returns tt w1 /\
       editors w1 !! h = Some (dispose e) /\
       instances w1 = instances w /\
       member w1 "__proto__" = Widget h).
Proof.
  split; [|split].
  - intros Hnot. rewrite disposeCallback_disposeEntry. unfold disposeEditor.
    cbn [propertyKey].
    destruct (disposeEntry_cases (element_id element w) w)
      as [(h & Hh & _) | (_ & message & Hthrows)]; [by destruct (Hnot h)|].
    by exists message.
  - intros h Hh Hne. set (key := element_id element w) in *.
    assert (disposeCallback element w = Returns tt (disposed key h w)) as Hrun.
    { rewrite disposeCallback_disposeEntry. by apply disposeEntry_registered. }
    assert (element_id element (disposed key h w) = key) as Hkey by reflexivity.
    assert (forall h', member (disposed key h w) key <> Widget h') as Hgone.
    { intros h' Hh'. apply member_widget in Hh' as [Hh' | (Hproto & _)]; [|done].
      change (instances (disposed key h w)) with (delete key (instances w)) in Hh'.
      by rewrite lookup_delete_eq in Hh'. }
    destruct (disposeEntry_cases key (disposed key h w))
      as [(h' & Hh' & _) | (_ & message & Hthrows)]; [by destruct (Hgone h')|].
    exists (disposed key h w), message.
    assert (disposeCallback element (disposed key h w)
            = Throws (TypeError message) (disposed key h w)) as Hagain
      by (by rewrite disposeCallback_disposeEntry, Hkey).
    split; [exact Hrun|]. split; [exact Hagain|].
    unfold bind. by rewrite Hrun.
  - intros h e Hid Hnone Hproto He.
    assert (member w "__proto__" = Widget h) as Hm
      by (by rewrite member_proto, Hproto).
    exists (disposed "__proto__" h w).
    split; [rewrite disposeCallback_disposeEntry, Hid;
            by apply disposeEntry_widget|].
    split.
    { unfold disposed. cbn [editors with_instances with_store with_editors].
      by rewrite lookup_alter_eq, He. }
    assert (instances (disposed "__proto__" h w) = instances w) as Hinst.
    { change (instances (disposed "__proto__" h w))
        with (delete "__proto__" (instances w)). by apply delete_id. }
    split; [exact Hinst|].
    rewrite member_proto by (by rewrite Hinst).
    change (prototypeOf (disposed "__proto__" h w)) with (prototypeOf w).
    by rewrite Hproto.
Qed.

Lemma disposeCallback_twice_witness :
  (exists message, disposeCallback 3 demoPage = Throws (TypeError message) demoPage) /\
  (exists w1 message,
     disposeCallback 2 demoLive = Returns tt w1 /\
     disposeCallback 2 w1 = Throws (TypeError message) w1) /\
  (exists w1,
     disposeCallback 7 protoLive = Returns tt w1 /\
     (ed_disposed <$> editors w1 !! 1%positive) = Some true /\
     member w1 "__proto__" = Widget 1%positive).
Proof.
  split; [|split].
  - destruct (disposeCallback_twice 3 demoPage) as [Habsent _].
    destruct Habsent as (message & Hthrows & _);
      [|exists message; exact Hthrows].
    intros h. vm_compute. discriminate.
  - destruct (disposeCallback_twice 2 demoLive) as (_ & Htwice & _).
    destruct (Htwice 2%positive) as (w1 & message & Hrun & Hagain & _).
    + vm_compute. reflexivity.
    + vm_compute. discriminate.
    + exists w1, message. split; [exact Hrun | exact Hagain].
  - destruct (disposeCallback_twice 7 protoLive) as (_ & _ & Hproto).
    edestruct (Hproto 1%positive) as (w1 & Hrun & Hgone & _ & Hfound).
    + vm_compute. reflexivity.
    + vm_compute. reflexivity.
    + vm_compute. reflexivity.
    + vm_compute. reflexivity.
    + exists w1. split; [exact Hrun|]. split; [by rewrite Hgone|].
      exact Hfound.
Defined.

(** X10: a disposed element is out of reach.  After the disposal callback
    of an element whose id is a key, an [update] of that element changes
    nothing, whatever the value: it returns, or throws when an entry that
    is left is named 'hasOwnProperty'; and a late change event of the
    widget, the id not being '__proto__', throws a TypeError instead of
    writing an observable. *)
Theorem after_disposal (element : Element) (w : World) (h : Handle) :
  element_id element w <> "" ->
  instances w !! element_id element w = Some h ->
  exists w1,
    disposeCallback element w = Returns tt w1 /\
    (forall accessor, world_of (update element accessor w1) = w1) /\
    (instances w1 !! "hasOwnProperty" = None ->
     forall accessor,
       update element accessor w1 = Returns tt w1 /\
       (disposeCallback element ;;; update element accessor) w = Returns tt w1) /\
    (element_id element w <> "__proto__" ->
     forall o, exists message,
       contentChanged (element, Observable o) w1 = Throws (TypeError message) w1).
Proof.
  intros Hid Hh. set (key := element_id element w) in *.
  exists (disposed key h w).
  assert (disposeCallback element w = Returns tt (disposed key h w)) as Hrun.
  { rewrite disposeCallback_disposeEntry. by apply disposeEntry_registered. }
  assert (element_id element (disposed key h w) = key) as Hkey by reflexivity.
  assert (instances (disposed key h w) !! key = None) as Hgone.
  { change (instances (disposed key h w)) with (delete key (instances w)).
    apply lookup_delete_eq. }
  assert (instances (disposed key h w) !! "hasOwnProperty" = None ->
          forall accessor,
            update element accessor (disposed key h w)
            = Returns tt (disposed key h w)) as Hupdate.
  { intros Hfound accessor. rewrite update_updateEditor.
    apply updateEditor_skip; [done|].
    right. right. cbn [propertyKey]. by rewrite Hkey. }
  split; [exact Hrun|]. split; [|split].
  - intros accessor.
    destruct (instances (disposed key h w) !! "hasOwnProperty") as [x|] eqn:Hx.
    + by rewrite (update_hidden element accessor _ x).
    + by rewrite Hupdate.
  - intros Hfound accessor. split; [by apply Hupdate|].
    unfold bind. rewrite Hrun. by apply Hupdate.
  - intros Hne o. rewrite contentChanged_member by done. rewrite Hkey.
    destruct (member (disposed key h w) key) as [h'|name|] eqn:Hm.
    + apply member_widget in Hm as [Hm | (Hproto & _)]; congruence.
    + by eexists.
    + by eexists.
Qed.

Lemma after_disposal_witness :
  exists w1 message,
    disposeCallback 1 demoLive = Returns tt w1 /\
    update 1 (Plain "late") w1 = Returns tt w1 /\
    contentChanged (1%positive, Observable 7) w1 = Throws (TypeError message) w1.
Proof.
  edestruct (after_disposal 1 demoLive 1%positive)
    as (w1 & Hrun & _ & Hupdate & Hlate).
  - vm_compute. discriminate.
  - vm_compute. reflexivity.
  - assert (w1 = disposed "a" 1%positive demoLive) as Hw1.
    { assert (disposeCallback 1 demoLive
              = Returns tt (disposed "a" 1%positive demoLive)) as Hrun'
        by (vm_compute; reflexivity).
      rewrite Hrun in Hrun'. by injection Hrun'. }
    assert (instances w1 !! "hasOwnProperty" = None) as Hfound
      by (rewrite Hw1; vm_compute; reflexivity).
    assert (element_id 1 demoLive <> "__proto__") as Hne
      by (vm_compute; discriminate).
    destruct (Hupdate Hfound (Plain "late")) as [Hlater _].
    destruct (Hlate Hne 7%positive) as (message & Hthrows).
    exists w1, message.
    split; [exact Hrun|]. split; [exact Hlater | exact Hthrows].
Defined.

(** ** From create to the widget *)

Lemma parseOptions_usable (options : JSVal) (w : World) :
  usable options w ->
  exists l h1 o',
    parseOptions options w = Returns (VObj l) (with_heap h1 w) /\
    h1 !! l = Some o'.
Proof.
  intros [Hfalsy | (l & o & -> & Hl)].
  - rewrite parseOptions_absent_eq by done.
    set (l := fresh (dom (heap w))).
    rewrite (parseOptions_record l ∅) by apply lookup_insert_eq.
    rewrite heap_with_heap, with_heap_with_heap.
    eexists l, _, _. split; [reflexivity|]. apply normalizedHeap_self.
  - rewrite (parseOptions_record l o) by done.
    eexists l, _, _. split; [reflexivity|]. apply normalizedHeap_self.
Qed.

(** With usable options the widget made by the callback shows the text
    that [create] read from the accessor. *)
Lemma create_loaded_seeded (p : Pending) (w : World) :
  usable (p_options p) w ->
  exists w' e m,
    create_loaded p w = Returns tt w' /\
    createCompleted p w w' /\
    editors w' !! fresh (dom (editors w)) = Some e /\
    ed_container e = p_element p /\
    ed_position e = None /\
    models w' !! ed_model e = Some m /\
    tm_value m = p_startingEditorValue p.
Proof.
  intros Husable.
  destruct (create_loaded_spec p w) as (w' & Hrun & Hdone).
  destruct (parseOptions_usable _ _ Husable) as (l & h1 & o' & Hparse & Hl).
  exists w'.
  cut (exists e m,
         editors w' !! fresh (dom (editors w)) = Some e /\
         ed_container e = p_element p /\
         ed_position e = None /\
         models w' !! ed_model e = Some m /\
         tm_value m = p_startingEditorValue p).
  { intros (e & m & Hfacts). by exists e, m. }
  clear Hdone. revert Hrun. unfold create_loaded.
  unfold bind at 1. rewrite Hparse.
  unfold getProp at 1. rewrite bind_gets.
  set (language := readProp (VObj l) "language" (with_heap h1 w)).
  unfold bind at 1, createModel, bind at 1, newModel, ret.
  cbn [models with_heap].
  set (r := fresh (dom (models w))).
  set (w2 := with_models _ (with_heap h1 w)).
  unfold setProp at 1. rewrite bind_modify.
  set (w3 := writeProp (VObj l) "model" (VModel r) w2).
  assert (readProp (VObj l) "model" w3 = VModel r) as Hset.
  { unfold w3, readProp, writeProp, w2. cbn [heap with_models with_heap].
    rewrite Hl. cbn [heap with_heap]. rewrite lookup_insert_eq.
    unfold prop. by rewrite lookup_insert_eq. }
  assert (models w3 = <[r := mkTextModel (p_startingEditorValue p) language 0]> (models w))
    as Hmodels by (unfold w3; by rewrite models_writeProp).
  assert (editors w3 = editors w) as Heditors.
  { unfold w3, writeProp, w2. cbn [heap with_models with_heap]. by rewrite Hl. }
  unfold bind at 1. rewrite monaco_editor_create_spec.
  unfold shownModel, modelsAfterCreate. rewrite Hset, Heditors.
  set (h := fresh (dom (editors w))).
  unfold call at 1. rewrite bind_modify.
  unfold addDisposeCallback at 1. rewrite bind_modify.
  rewrite bind_gets. unfold modify.
  clearbody w3. intros Hrun. injection Hrun as Hw'.
  eexists. eexists. rewrite <- Hw'.
  match goal with |- context [assign ?k h ?ww] =>
    destruct (assign_fields k h ww) as (_ & _ & _ & Am & Ae & _) end.
  rewrite Am, Ae.
  unfold with_disposeCallbacks, with_editors, with_models.
  cbn [dom_ids heap observables models editors monacoEditors loading
       disposeCallbacks].
  rewrite alter_insert_eq, lookup_insert_eq.
  split; [reflexivity|].
  unfold onDidChangeModelContent. cbn [ed_container ed_position ed_model].
  split; [reflexivity|]. split; [reflexivity|].
  rewrite Hmodels, lookup_insert_eq. split; reflexivity.
Qed.

Lemma create_bound (element : Element) (options : JSVal) (accessor : ModelProp)
    (w : World) :
  create element options accessor w
  = Returns tt (with_loading (loading w ++ [queued element options accessor w])
                  (bound element w)).
Proof.
  unfold bound. destruct (lacksId w element) eqn:Hlacks.
  - apply lacksId_true in Hlacks. by apply create_without_id.
  - apply lacksId_false in Hlacks. by apply create_with_id.
Qed.

Lemma bound_facts (element : Element) (w : World) :
  heap (bound element w) = heap w /\
  observables (bound element w) = observables w /\
  models (bound element w) = models w /\
  editors (bound element w) = editors w /\
  instances (bound element w) = instances w /\
  loading (bound element w) = loading w /\
  disposeCallbacks (bound element w) = disposeCallbacks w /\
  element_id element (bound element w) <> "" /\
  (forall other, other <> element ->
     element_id other (bound element w) = element_id other w) /\
  (element_id element w <> "" -> bound element w = w).
Proof.
  unfold bound. destruct (lacksId w element) eqn:Hlacks.
  - repeat (split; [reflexivity|]). split; [|split].
    + unfold element_id, named. cbn [dom_ids with_dom_ids].
      rewrite lookup_insert_eq. done.
    + intros other Hne. unfold element_id, named. cbn [dom_ids with_dom_ids].
      by rewrite lookup_insert_ne.
    + intros Hid. apply lacksId_true in Hlacks. done.
  - apply lacksId_false in Hlacks. by repeat split.
Qed.

Lemma create_then_load (element : Element) (options : JSVal) (accessor : ModelProp)
    (w : World) :
  loading w = [] ->
  (create element options accessor ;;; loaderReady) w
  = create_loaded (queued element options accessor w) (bound element w).
Proof.
  intros Hq. unfold bind at 1. rewrite create_bound, Hq.
  unfold loaderReady. rewrite bind_gets. cbn [loading with_loading app].
  rewrite bind_modify, with_loading_with_loading.
  rewrite with_loading_nil; [reflexivity|].
  destruct (bound_facts element w) as (_ & _ & _ & _ & _ & -> & _). exact Hq.
Qed.

Lemma bound_prototype (element : Element) (w : World) :
  prototypeOf (bound element w) = prototypeOf w.
Proof. unfold bound. by destruct (lacksId w element). Qed.

(** The read that finds the widget of a completed create, whether the
    assignment made it an entry or the prototype. *)
Lemma createCompleted_member (p : Pending) (w w' : World) :
  createCompleted p w w' ->
  member w' (element_id (p_element p) w) = Widget (fresh (dom (editors w))).
Proof.
  intros Hdone. destruct (createCompleted_store p w w' Hdone) as [Hinst Hproto].
  destruct (assign_cases (element_id (p_element p) w) (fresh (dom (editors w))) w)
    as [[Hown _] | (Hkey & Hnone & Hown & Hnew)].
  - apply member_own. rewrite Hinst, Hown. apply lookup_insert_eq.
  - rewrite Hkey in *. rewrite member_proto by (by rewrite Hinst, Hown).
    by rewrite Hproto, Hnew.
Qed.

(** X3: from [create] to the widget.  When nothing else is waiting for the
    loader and the options are none or a record, [create] followed by the
    loader's callback leaves the element with an id, and a new widget in
    the element that shows the text the accessor gave when [create] was
    called, with no position set; [get] of the id returns it; it is an
    entry of the store unless the id is '__proto__', and then [hasEditors],
    unless an entry is named 'hasOwnProperty', is true. *)
Theorem create_seeds_widget (element : Element) (options : JSVal)
    (accessor : ModelProp) (w : World) :
  loading w = [] ->
  usable options w ->
  exists (w' : World) (h : Handle) (e : Editor),
    (create element options accessor ;;; loaderReady) w = Returns tt w' /\
    element_id element w' <> "" /\
    (element_id element w <> "" -> element_id element w' = element_id element w) /\
    get (IdStr (element_id element w')) w' = Returns (Widget h) w' /\
    editors w !! h = None /\
    editors w' !! h = Some e /\
    ed_container e = element /\
    ed_position e = None /\
    ed_disposed e = false /\
    getValue h w' = Returns (currentValue accessor w) w' /\
    (element_id element w' <> "__proto__" ->
       instances w' !! element_id element w' = Some h /\
       (instances w' !! "hasOwnProperty" = None ->
          hasEditors w' = Returns true w')) /\
    observables w' = observables w.
Proof.
  intros Hq Husable. rewrite create_then_load by done.
  destruct (bound_facts element w)
    as (Hheap & Hobs & Hmod & Hed & Hinst & _ & _ & Hid & _ & Hsame).
  set (p := queued element options accessor w).
  assert (usable (p_options p) (bound element w)) as Husable'.
  { destruct Husable as [Hf | (l & o & -> & Hl)]; [by left|].
    right. exists l, o. by rewrite Hheap. }
  destruct (create_loaded_seeded p (bound element w) Husable')
    as (w' & e & m & Hrun & Hdone & He & Hcont & Hpos & Hm & Htext).
  pose proof (createCompleted_member p _ w' Hdone) as Hfound.
  pose proof (createCompleted_instances p _ w' Hdone) as Hstored.
  destruct Hdone as (Hdom & Hobs' & _ & _ & _ & _ & (e' & Hed' & _ & Hdisp & _) & _).
  rewrite Hed in *. set (h := fresh (dom (editors w))) in *.
  assert (e' = e) as ->.
  { rewrite Hed', lookup_insert_eq in He. by injection He. }
  assert (element_id element w' = element_id element (bound element w)) as Hid'
    by (unfold element_id; by rewrite Hdom).
  change (p_element p) with element in *.
  exists w', h, e. split; [exact Hrun|].
  split; [by rewrite Hid'|]. split; [intros Hhad; by rewrite Hid', (Hsame Hhad)|].
  split; [|split; [|split; [exact He|split; [exact Hcont|split;
    [exact Hpos|split; [exact Hdisp|split; [|split]]]]]]].
  - rewrite get_valid by (by try (apply IdStr_nonempty; rewrite Hid')).
    cbn [propertyKey]. by rewrite Hid', Hfound.
  - apply not_elem_of_dom. apply is_fresh.
  - rewrite getValue_textOf. unfold textOf. by rewrite He, Hm, Htext.
  - rewrite Hid'. intros Hne.
    destruct Hstored as [Hinst' _]; [by left|].
    split; [rewrite Hinst'; apply lookup_insert_eq|].
    intros Hmethod. rewrite hasEditors_nonempty by done.
    f_equal. apply bool_decide_eq_true.
    rewrite Hinst'. apply insert_non_empty.
  - by rewrite Hobs'.
Qed.

Lemma create_seeds_widget_witness :
  exists (w' : World) (h : Handle),
    (create 3 VNull (Plain "third") ;;; loaderReady) demoLive = Returns tt w' /\
    get (IdStr "knockout-monaco-1") w' = Returns (Widget h) w' /\
    getValue h w' = Returns "third" w'.
Proof.
  edestruct (create_seeds_widget 3 VNull (Plain "third") demoLive)
    as (w' & h & e & Hrun & _ & Hkeep & Hget & _ & _ & _ & _ & _ & Hread & _).
  - vm_compute. reflexivity.
  - left. reflexivity.
  - exists w', h. split; [exact Hrun|]. split; [|exact Hread].
    rewrite Hkeep in Hget; [exact Hget|]. vm_compute. discriminate.
Defined.

(** X5: the first [update] after the widget was made changes nothing when
    the model property still has the value [create] read: the widget was
    seeded with it, so its text is not set again and its cursor is not
    moved.  That [update] returns unless an entry of the store is named
    'hasOwnProperty'. *)
Theorem first_update_is_noop (element : Element) (options : JSVal)
    (accessor : ModelProp) (w : World) :
  loading w = [] ->
  usable options w ->
  world_of ((create element options accessor ;;; loaderReady ;;;
             update element accessor) w)
  = world_of ((create element options accessor ;;; loaderReady) w) /\
  (instances (world_of ((create element options accessor ;;; loaderReady) w))
     !! "hasOwnProperty" = None ->
   (create element options accessor ;;; loaderReady ;;; update element accessor) w
   = (create element options accessor ;;; loaderReady) w).
Proof.
  intros Hq Husable. rewrite (create_then_load element options accessor w Hq).
  change ((create element options accessor ;;; loaderReady ;;;
           update element accessor) w)
    with (match (create element options accessor) w with
          | Returns _ w1 => (loaderReady ;;; update element accessor) w1
          | Throws x w1 => Throws x w1
          end).
  pose proof (create_then_load element options accessor w Hq) as Hcomp.
  unfold bind at 1 in Hcomp. rewrite create_bound in *.
  unfold bind at 1. rewrite Hcomp.
  destruct (bound_facts element w)
    as (Hheap & Hobs & _ & _ & _ & _ & _ & Hid & _).
  set (p := queued element options accessor w) in *.
  assert (usable (p_options p) (bound element w)) as Husable'.
  { destruct Husable as [Hf | (l & o & -> & Hl)]; [by left|].
    right. exists l, o. by rewrite Hheap. }
  destruct (create_loaded_seeded p (bound element w) Husable')
    as (w' & e & m & Hrun & Hdone & He & _ & _ & Hm & Htext).
  rewrite Hrun in *.
  destruct (createCompleted_store p _ w' Hdone) as [Hinst' _].
  destruct Hdone as (Hdom & Hobs' & _).
  assert (element_id element w' = element_id element (bound element w)) as Hid'
    by (unfold element_id; by rewrite Hdom).
  change (p_element p) with element in *. cbn [world_of].
  assert (instances w' !! "hasOwnProperty" = None ->
          update element accessor w' = Returns tt w') as Hsame.
  { intros Hx.
    destruct (assign_cases (element_id element (bound element w))
                (fresh (dom (editors (bound element w)))) (bound element w))
      as [[Hown _] | (_ & Hnone & Hown & _)]; rewrite Hown in Hinst'.
    - rewrite (update_registered element accessor w'
                 (fresh (dom (editors (bound element w)))) e m).
      + assert (currentValue accessor w' = tm_value m) as ->.
        { rewrite Htext. unfold p, queued. cbn [p_startingEditorValue].
          unfold currentValue. by rewrite Hobs', Hobs. }
        by rewrite String.eqb_refl.
      + exact Hx.
      + by rewrite Hid'.
      + rewrite Hid', Hinst'. apply lookup_insert_eq.
      + exact He.
      + exact Hm.
    - rewrite update_updateEditor. apply updateEditor_skip; [exact Hx|].
      right. right. cbn [propertyKey]. by rewrite Hid', Hinst'. }
  split.
  - destruct (instances w' !! "hasOwnProperty") as [x|] eqn:Hx.
    + rewrite (update_hidden element accessor w' x); [done|done|].
      by rewrite Hid'.
    + by rewrite Hsame.
  - intros Hfound. unfold bind. rewrite Hcomp. by apply Hsame.
Qed.

Lemma first_update_is_noop_witness :
  (create 3 VNull (Plain "third") ;;; loaderReady ;;; update 3 (Plain "third")) demoLive
  = (create 3 VNull (Plain "third") ;;; loaderReady) demoLive.
Proof.
  destruct (first_update_is_noop 3 VNull (Plain "third") demoLive) as [_ Hsame].
  - vm_compute. reflexivity.
  - left. reflexivity.
  - apply Hsame. vm_compute. reflexivity.
Defined.

(** X4: [create] only queues.  When it returns, the store, the widgets and
    the text models are as before, so [get] of the element's id gives what
    it gave before, which is no widget when the id is neither a key nor
    '__proto__', and an [update] of the element, the id not being a key,
    changes nothing; the widget exists only after the loader has called
    back. *)
Theorem create_is_deferred (element : Element) (options : JSVal)
    (accessor : ModelProp) (w : World) :
  exists w1 : World,
    create element options accessor w = Returns tt w1 /\
    element_id element w1 <> "" /\
    instances w1 = instances w /\
    prototypeOf w1 = prototypeOf w /\
    editors w1 = editors w /\
    models w1 = models w /\
    loading w1 = (loading w ++ [queued element options accessor w])%list /\
    get (IdStr (element_id element w1)) w1
    = Returns (member w (element_id element w1)) w1 /\
    (instances w !! element_id element w1 = None ->
       (element_id element w1 <> "__proto__" ->
          forall h, member w (element_id element w1) <> Widget h) /\
       (forall accessor', world_of (update element accessor' w1) = w1) /\
       (instances w !! "hasOwnProperty" = None ->
          forall accessor', update element accessor' w1 = Returns tt w1)).
Proof.
  eexists. split; [apply create_bound|].
  destruct (bound_facts element w)
    as (_ & _ & Hmod & Hed & Hinst & _ & _ & Hid & _).
  pose proof (bound_prototype element w) as Hproto.
  set (w1 := with_loading _ (bound element w)).
  assert (element_id element w1 = element_id element (bound element w)) as Hid1
    by reflexivity.
  assert (instances w1 = instances w) as Hinst1 by exact Hinst.
  assert (prototypeOf w1 = prototypeOf w) as Hproto1 by exact Hproto.
  assert (forall key, member w1 key = member w key) as Hmember
    by (intros key; unfold member; by rewrite Hinst1, Hproto1).
  split; [by rewrite Hid1|].
  split; [exact Hinst1|]. split; [exact Hproto1|].
  split; [exact Hed|]. split; [exact Hmod|]. split; [reflexivity|].
  split.
  { rewrite get_valid by (by try (apply IdStr_nonempty; rewrite Hid1)).
    cbn [propertyKey]. by rewrite Hmember. }
  intros Hnone.
  assert (instances w1 !! "hasOwnProperty" = None ->
          forall accessor', update element accessor' w1 = Returns tt w1)
    as Hdropped.
  { intros Hfound accessor'. rewrite update_updateEditor.
    apply updateEditor_skip; [done|].
    right. right. cbn [propertyKey]. by rewrite Hinst1. }
  split; [|split].
  - intros Hne h Hh. apply member_widget in Hh as [Hh | (Hkey & _)]; congruence.
  - intros accessor'.
    destruct (instances w1 !! "hasOwnProperty") as [x|] eqn:Hx.
    + rewrite (update_hidden element accessor' w1 x); [done|done|].
      by rewrite Hid1.
    + by rewrite Hdropped.
  - intros Hfound. apply Hdropped. by rewrite Hinst1.
Qed.

Lemma create_is_deferred_witness :
  exists w1 : World,
    create 2 VNull (Plain "second") demoPage = Returns tt w1 /\
    element_id 2 w1 = "knockout-monaco-1" /\
    get (IdStr "knockout-monaco-1") w1 = Returns Absent w1 /\
    update 2 (Plain "late") w1 = Returns tt w1.
Proof.
  destruct (create_is_deferred 2 VNull (Plain "second") demoPage)
    as (w1 & Hrun & _ & _ & _ & _ & _ & _ & Hget & Habsent).
  assert (element_id 2 w1 = "knockout-monaco-1") as Hid.
  { assert (world_of (create 2 VNull (Plain "second") demoPage) = w1) as <-
      by (by rewrite Hrun).
    vm_compute. reflexivity. }
  exists w1. split; [exact Hrun|]. split; [exact Hid|].
  rewrite Hid in Hget, Habsent.
  split; [rewrite Hget; f_equal|].
  - destruct Habsent as (_ & _ & Hdropped); [reflexivity|].
    apply Hdropped. reflexivity.
Defined.

(** X16: an element is named once.  A second [create] on the same element
    keeps the id that the first one left, does not move the counter, and
    queues a second callback behind the first. *)
Theorem create_again (element : Element) (options1 options2 : JSVal)
    (accessor1 accessor2 : ModelProp) (w : World) :
  exists w1 w2 : World,
    create element options1 accessor1 w = Returns tt w1 /\
    create element options2 accessor2 w1 = Returns tt w2 /\
    element_id element w1 <> "" /\
    element_id element w2 = element_id element w1 /\
    nextStoreEntryId w2 = nextStoreEntryId w1 /\
    loading w2 = (loading w ++ [queued element options1 accessor1 w;
                                queued element options2 accessor2 w1])%list.
Proof.
  eexists. eexists. split; [apply create_bound|].
  destruct (bound_facts element w) as (_ & _ & _ & _ & _ & Hq & _ & Hid & _).
  set (w1 := with_loading _ (bound element w)).
  assert (element_id element w1 <> "") as Hid1 by exact Hid.
  split; [by apply create_with_id|]. split; [exact Hid1|].
  split; [reflexivity|]. split; [reflexivity|].
  unfold w1. cbn [loading with_loading]. by rewrite <- app_assoc.
Qed.

(** ** Sessions: what the store keeps *)

Lemma quiet_refl (w : World) : quiet w w.
Proof. by repeat split. Qed.

Lemma quiet_unstored (w w' : World) (h : Handle) :
  quiet w w' -> unstored w h -> unstored w' h.
Proof.
  intros (_ & Hs & _) [Hkeys Hproto]. unfold unstored, instances, prototypeOf.
  rewrite Hs. by split.
Qed.

Lemma quiet_trans (w1 w2 w3 : World) : quiet w1 w2 -> quiet w2 w3 -> quiet w1 w3.
Proof.
  intros Hq12 Hq23.
  pose proof Hq12 as (Hd & Hs & Hq & He & Hm & Hu).
  pose proof Hq23 as (Hd' & Hs' & Hq' & He' & Hm' & Hu').
  split; [congruence|]. split; [congruence|]. split; [congruence|].
  split; [intros h; by rewrite He', He|]. split; [congruence|].
  intros h Hun. rewrite Hu'; [by apply Hu|]. by apply (quiet_unstored w1 w2).
Qed.

Lemma quiet_with_heap (h : gmap Loc (gmap string JSVal)) (w : World) :
  quiet w (with_heap h w).
Proof. by repeat split. Qed.

Lemma quiet_with_observables (o : gmap ObsRef string) (w : World) :
  quiet w (with_observables o w).
Proof. by repeat split. Qed.

Lemma quiet_alter_models (f : TextModel -> TextModel) (r : ModelRef) (w : World) :
  quiet w (with_models (alter f r (models w)) w).
Proof.
  repeat split. cbn [models with_models]. apply dom_alter_L.
Qed.

(** A widget that a read of the store finds is not outside the store. *)
Lemma member_stored (w : World) (key : string) (h : Handle) :
  member w key = Widget h -> ~ unstored w h.
Proof.
  intros Hm [Hkeys Hproto].
  apply member_widget in Hm as [Hh | (_ & _ & Hp)]; [by apply (Hkeys key)|done].
Qed.

Lemma quiet_alter (f : Editor -> Editor) (key : string) (h : Handle) (w : World) :
  member w key = Widget h ->
  (forall e, ed_container (f e) = ed_container e) ->
  (forall e, ed_disposed (f e) = ed_disposed e) ->
  (forall e, ed_model (f e) = ed_model e) ->
  quiet w (with_editors (alter f h (editors w)) w).
Proof.
  intros Hh Hc Hd Hm. repeat split.
  - intros h'. cbn [editors with_editors].
    rewrite lookup_alter. case_decide as Heq; [subst h'|done].
    destruct (editors w !! h) as [e|]; [|done]. simpl. by rewrite Hc, Hd, Hm.
  - intros h' Hun. cbn [editors with_editors].
    rewrite lookup_alter_ne; [done|]. intros <-.
    by apply (member_stored w key h).
Qed.

Lemma quiet_retexted (key : string) (h : Handle) (r : ModelRef) (v : string)
    (w : World) :
  instances w !! key = Some h -> quiet w (retexted h r v w).
Proof.
  intros Hh. unfold retexted.
  apply (quiet_trans w (with_models (alter (model_setValue v) r (models w)) w)).
  - apply quiet_alter_models.
  - apply (quiet_alter (setPosition (mkPosition 0 0)) key h
             (with_models (alter (model_setValue v) r (models w)) w)); try done.
    by apply member_own.
Qed.

(** What [updateEditor] does on a key of a store whose method is in reach,
    whether the handle is a widget or not. *)
Lemma updateEditor_own (id : Id) (v : string) (w : World) (h : Handle) :
  instances w !! "hasOwnProperty" = None ->
  id <> IdNull -> id <> IdStr "" ->
  instances w !! propertyKey id = Some h ->
  updateEditor id v w
  = if String.eqb (textOf w h) v then Returns tt w
    else (setValue h v ;;; call h (setPosition (mkPosition 0 0))) w.
Proof.
  intros Hfound Hnull Hempty Hh. unfold updateEditor.
  rewrite (isNull_false _ Hnull), (isEmpty_false _ Hempty). cbn [negb andb].
  rewrite (bind_returns _ _ w w true).
  2: { rewrite hasOwnProperty_found by done. by rewrite (owns_Some _ _ h). }
  rewrite bind_gets, (member_own w _ h Hh). cbn [invoke].
  unfold bind at 1. rewrite getValue_textOf.
  by destruct (String.eqb (textOf w h) v).
Qed.

(** The ways in which [updateEditor] can leave the state. *)
Lemma updateEditor_outcome (id : Id) (v : string) (w : World) :
  world_of (updateEditor id v w) = w \/
  (exists h e, instances w !! propertyKey id = Some h /\
               editors w !! h = Some e /\
               world_of (updateEditor id v w) = retexted h (ed_model e) v w) \/
  (exists h, instances w !! propertyKey id = Some h /\
             editors w !! h = None /\
             world_of (updateEditor id v w)
             = with_editors
                 (alter (setPosition (mkPosition 0 0)) h (editors w)) w).
Proof.
  destruct (decide (id = IdNull)) as [Hnull|Hnull];
    [left; by rewrite updateEditor_invalid by auto|].
  destruct (decide (id = IdStr "")) as [Hempty|Hempty];
    [left; by rewrite updateEditor_invalid by auto|].
  destruct (instances w !! "hasOwnProperty") as [x|] eqn:Hx;
    [left; by rewrite (updateEditor_hidden id v w x)|].
  destruct (instances w !! propertyKey id) as [h|] eqn:Hh;
    [|left; by rewrite updateEditor_skip by auto].
  rewrite (updateEditor_own id v w h) by done.
  destruct (String.eqb (textOf w h) v); [by left|]. right.
  unfold bind, setValue, call, modify.
  destruct (editors w !! h) as [e|] eqn:He.
  - left. by exists h, e.
  - right. by exists h.
Qed.

Lemma quiet_updateEditor (id : Id) (v : string) (w : World) :
  quiet w (world_of (updateEditor id v w)).
Proof.
  destruct (updateEditor_outcome id v w)
    as [-> | [(h & e & Hh & He & ->) | (h & Hh & He & ->)]].
  - apply quiet_refl.
  - by apply (quiet_retexted (propertyKey id) h (ed_model e) v w).
  - apply (quiet_alter (setPosition (mkPosition 0 0)) (propertyKey id) h w);
      try done.
    by apply member_own.
Qed.

Lemma relayout_quiet (w : World) :
  quiet w (with_editors (relayout (map_to_list (instances w)) (editors w)) w).
Proof.
  repeat split.
  - intros h. cbn [editors with_editors].
    rewrite lookup_relayout. by destruct (editors w !! h).
  - intros h [Hun _]. cbn [editors with_editors]. rewrite lookup_relayout.
    change (length (filter (fun kv => kv.2 = h) (map_to_list (instances w))))
      with (holders (instances w) h).
    rewrite holders_unstored by done.
    destruct (editors w !! h); [|done]. simpl. by rewrite relaid_0.
Qed.

Lemma quiet_resizeAll (w : World) : quiet w (world_of (resizeAll w)).
Proof.
  destruct (instances w !! "hasOwnProperty") as [x|] eqn:Hx.
  - rewrite (resizeAll_hidden w x Hx). apply quiet_refl.
  - rewrite (resizeAll_exact w Hx). apply relayout_quiet.
Qed.

Lemma quiet_contentChanged (l : Element * ModelProp) (w : World) :
  quiet w (world_of (contentChanged l w)).
Proof.
  destruct l as [element [v|o]]; [apply quiet_refl|].
  destruct (decide (element_id element w = "")) as [Hid|Hid].
  - unfold contentChanged. cbn [snd fst isWriteableObservable].
    rewrite bind_gets, Hid. apply quiet_refl.
  - rewrite contentChanged_member by done.
    destruct (member w (element_id element w)); try apply quiet_refl.
    apply quiet_with_observables.
Qed.

Lemma quiet_setValue (h : Handle) (v : string) (w : World) :
  quiet w (world_of (setValue h v w)).
Proof.
  unfold setValue, modify. simpl.
  destruct (editors w !! h); [apply quiet_alter_models | apply quiet_refl].
Qed.

Lemma quiet_get (id : Id) (w : World) :
  quiet w (world_of ((get id ;;; ret tt) w)).
Proof.
  unfold bind, get. destruct (isNull id || isEmpty id); apply quiet_refl.
Qed.

Lemma quiet_hasEditors (w : World) :
  quiet w (world_of ((hasEditors ;;; ret tt) w)).
Proof.
  unfold bind. pose proof (hasEditors_pure w) as Hpure.
  destruct (hasEditors w) as [b w'|e w']; cbn [world_of] in *;
    rewrite Hpure; apply quiet_refl.
Qed.

Lemma quiet_element_id (w w' : World) (element : Element) :
  quiet w w' -> element_id element w' = element_id element w.
Proof. intros (Hd & _). unfold element_id. by rewrite Hd. Qed.

Lemma storeSound_quiet (w w' : World) : quiet w w' -> storeSound w -> storeSound w'.
Proof.
  intros Hquiet (Hentries & Hwaiting & Hproto).
  pose proof Hquiet as (Hd & Hs & Hq & He & _ & _). split; [|split].
  - intros key h Hh. unfold instances in Hh. rewrite Hs in Hh.
    destruct (Hentries key h Hh) as (Hkey & e & Hed & Hdisp & Hcont).
    split; [exact Hkey|]. specialize (He h). rewrite Hed in He.
    destruct (editors w' !! h) as [e'|]; [|done]. simpl in He.
    injection He as Hc' Hd' _. exists e'. split; [done|].
    split; [congruence|]. rewrite (quiet_element_id w w') by done. congruence.
  - intros p Hp. rewrite Hq in Hp. rewrite (quiet_element_id w w') by done.
    by apply Hwaiting.
  - intros h Hh. unfold prototypeOf in Hh. rewrite Hs in Hh.
    destruct (Hproto h Hh) as [[e Hed] Hkeys]. split.
    + specialize (He h). rewrite Hed in He.
      destruct (editors w' !! h) as [e'|]; [by eexists|done].
    + intros key. unfold instances. rewrite Hs. apply Hkeys.
Qed.

Lemma bound_stable (element other : Element) (w : World) :
  element_id other w <> "" ->
  element_id other (bound element w) = element_id other w.
Proof.
  intros Hid. destruct (bound_facts element w)
    as (_ & _ & _ & _ & _ & _ & _ & _ & Hother & Hsame).
  destruct (decide (other = element)) as [->|Hne].
  - by rewrite Hsame.
  - by apply Hother.
Qed.

Lemma storeSound_create (element : Element) (options : JSVal) (accessor : ModelProp)
    (w : World) :
  storeSound w -> storeSound (world_of (create element options accessor w)).
Proof.
  intros (Hentries & Hwaiting & Hproto). rewrite create_bound. cbn [world_of].
  destruct (bound_facts element w)
    as (_ & _ & _ & Hed & Hinst & Hq & _ & Hid & _).
  pose proof (bound_prototype element w) as Hp.
  split; [|split].
  - intros key h Hh.
    change (instances (with_loading _ (bound element w)))
      with (instances (bound element w)) in Hh.
    rewrite Hinst in Hh.
    destruct (Hentries key h Hh) as (Hkey & e & He & Hdisp & Hcont).
    split; [exact Hkey|]. exists e.
    change (editors (with_loading _ (bound element w)))
      with (editors (bound element w)).
    rewrite Hed. split; [done|]. split; [done|].
    change (element_id (ed_container e) (with_loading _ (bound element w)))
      with (element_id (ed_container e) (bound element w)).
    rewrite bound_stable; [done|]. by rewrite Hcont.
  - intros p Hp'. cbn [loading with_loading] in Hp'.
    change (element_id (p_element p) (with_loading _ (bound element w)))
      with (element_id (p_element p) (bound element w)).
    apply elem_of_app in Hp' as [Hp'|Hp'].
    + rewrite bound_stable; by apply Hwaiting.
    + apply list_elem_of_singleton in Hp'. subst p. exact Hid.
  - intros h Hh.
    change (prototypeOf (with_loading _ (bound element w)))
      with (prototypeOf (bound element w)) in Hh.
    rewrite Hp in Hh. destruct (Hproto h Hh) as [Hsome Hkeys].
    change (editors (with_loading _ (bound element w)))
      with (editors (bound element w)).
    change (instances (with_loading _ (bound element w)))
      with (instances (bound element w)).
    by rewrite Hed, Hinst.
Qed.

Lemma storeSound_create_loaded (p : Pending) (w : World) :
  storeSound w -> element_id (p_element p) w <> "" ->
  storeSound (world_of (create_loaded p w)).
Proof.
  intros (Hentries & Hwaiting & Hproto) Hid.
  destruct (create_loaded_spec p w) as (w' & -> & Hdone). cbn [world_of].
  destruct (createCompleted_store p w w' Hdone) as [Hinst Hprot].
  destruct Hdone
    as (Hdom & _ & Hq & _ & _ & _ & (e & Hed & Hcont & Hdisp & _) & _).
  assert (forall element, element_id element w' = element_id element w) as Hids
    by (intros element; unfold element_id; by rewrite Hdom).
  set (new := fresh (dom (editors w))) in *.
  assert (forall h, is_Some (editors w !! h) -> h <> new) as Hfresh.
  { intros h Hsome ->. apply (is_fresh (dom (editors w))).
    by apply elem_of_dom. }
  assert (forall key h, instances w !! key = Some h ->
            key <> "" /\
            exists e', editors w' !! h = Some e' /\ ed_disposed e' = false /\
                       element_id (ed_container e') w' = key) as Hold.
  { intros key h Hh.
    destruct (Hentries key h Hh) as (Hkey & e' & He' & Hdisp' & Hcont').
    split; [exact Hkey|]. exists e'. rewrite Hed, Hids.
    rewrite lookup_insert_ne; [done|]. apply not_eq_sym, Hfresh. by eexists. }
  assert (forall key, instances w !! key <> Some new) as Hnew.
  { intros key Hh. destruct (Hentries key new Hh) as (_ & e' & He' & _).
    apply (Hfresh new); [by eexists|done]. }
  destruct (assign_cases (element_id (p_element p) w) new w)
    as [[Hown Hsame] | (_ & _ & Hown & Hchanged)];
    rewrite Hown in Hinst; [rewrite Hsame in Hprot|rewrite Hchanged in Hprot].
  - split; [|split].
    + intros key h Hh. rewrite Hinst in Hh.
      apply lookup_insert_Some in Hh as [[<- <-] | [Hne Hh]]; [|by apply Hold].
      split; [exact Hid|]. exists e. rewrite Hed, lookup_insert_eq.
      split; [done|]. split; [done|]. by rewrite Hids, Hcont.
    + intros q Hin. rewrite Hq in Hin. rewrite Hids. by apply Hwaiting.
    + intros h Hh. rewrite Hprot in Hh. destruct (Hproto h Hh) as [Hsome Hkeys].
      split.
      * rewrite Hed, lookup_insert_ne; [done|]. by apply not_eq_sym, Hfresh.
      * intros key Hkey. rewrite Hinst in Hkey.
        apply lookup_insert_Some in Hkey as [[_ Heq] | [_ Hkey]].
        -- by apply (Hfresh h).
        -- by apply (Hkeys key).
  - split; [|split].
    + intros key h Hh. rewrite Hinst in Hh. by apply Hold.
    + intros q Hin. rewrite Hq in Hin. rewrite Hids. by apply Hwaiting.
    + intros h Hh. rewrite Hprot in Hh. injection Hh as <-. split.
      * rewrite Hed, lookup_insert_eq. by eexists.
      * intros key. rewrite Hinst. apply Hnew.
Qed.

Lemma storeSound_with_loading (l : list Pending) (w : World) :
  storeSound w -> (forall p, p ∈ l -> p ∈ loading w) ->
  storeSound (with_loading l w).
Proof.
  intros (Hentries & Hwaiting & Hproto) Hsub.
  split; [exact Hentries|]. split; [|exact Hproto].
  intros p Hp. apply (Hwaiting p). by apply Hsub.
Qed.

Lemma storeSound_loaderReady (w : World) :
  storeSound w -> storeSound (world_of (loaderReady w)).
Proof.
  intros Hsound. unfold loaderReady. rewrite bind_gets.
  destruct (loading w) as [|p rest] eqn:Hq; [done|].
  rewrite bind_modify.
  assert (storeSound (with_loading rest w)) as Hsound'.
  { apply storeSound_with_loading; [done|]. intros q Hin. rewrite Hq.
    by apply list_elem_of_further. }
  apply (storeSound_create_loaded p (with_loading rest w) Hsound').
  destruct Hsound as (_ & Hwaiting & _). apply (Hwaiting p). rewrite Hq.
  apply list_elem_of_here.
Qed.

Lemma storeSound_inj (w : World) (k1 k2 : string) (h : Handle) :
  storeSound w -> instances w !! k1 = Some h -> instances w !! k2 = Some h ->
  k1 = k2.
Proof.
  intros (Hentries & _) H1 H2.
  destruct (Hentries k1 h H1) as (_ & e1 & He1 & _ & Hc1).
  destruct (Hentries k2 h H2) as (_ & e2 & He2 & _ & Hc2).
  congruence.
Qed.

Lemma storeSound_disposeCallback (element : Element) (w : World) :
  storeSound w -> storeSound (world_of (disposeCallback element w)).
Proof.
  intros Hsound. rewrite disposeCallback_disposeEntry.
  set (key := element_id element w).
  destruct (disposeEntry_cases key w)
    as [(h & Hm & ->) | (_ & message & ->)]; [|done].
  cbn [world_of].
  pose proof Hsound as (Hentries & Hwaiting & Hproto).
  assert (forall key' h', instances w !! key' = Some h' -> key' <> key ->
            h' <> h) as Hother.
  { intros key' h' Hh' Hne ->.
    apply member_widget in Hm as [Hh | (_ & _ & Hp)].
    - apply Hne. by apply (storeSound_inj w key' key h).
    - destruct (Hproto h Hp) as [_ Hkeys]. by apply (Hkeys key'). }
  split; [|split; [exact Hwaiting|]].
  - intros key' h' Hh'.
    change (instances (disposed key h w)) with (delete key (instances w)) in Hh'.
    apply lookup_delete_Some in Hh' as [Hne Hh'].
    destruct (Hentries key' h' Hh') as (Hkey & e & He & Hdisp & Hcont).
    split; [exact Hkey|]. exists e. split; [|by split].
    unfold disposed. cbn [editors with_instances with_store with_editors].
    rewrite lookup_alter_ne; [done|].
    apply not_eq_sym. apply (Hother key' h'); [done|]. by apply not_eq_sym.
  - intros hp Hp.
    change (prototypeOf (disposed key h w)) with (prototypeOf w) in Hp.
    destruct (Hproto hp Hp) as [[e He] Hkeys]. split.
    + unfold disposed. cbn [editors with_instances with_store with_editors].
      rewrite lookup_alter. case_decide as Heq; [rewrite Heq|];
        rewrite He; by eexists.
    + intros key' Hh'.
      change (instances (disposed key h w)) with (delete key (instances w)) in Hh'.
      apply lookup_delete_Some in Hh' as [_ Hh']. by apply (Hkeys key').
Qed.

Lemma storeSound_init (element : Element) (valueAccessor : ModelProp)
    (allBindingsAccessor : gmap string JSVal) (w : World) :
  storeSound w ->
  storeSound (world_of (init element valueAccessor allBindingsAccessor w)).
Proof.
  intros Hsound. unfold init.
  destruct (bindings_has allBindingsAccessor "meOptions"); [|done].
  destruct (truthy (bindings_get allBindingsAccessor "meOptions")).
  - rewrite bind_ret. by apply storeSound_create.
  - unfold bind at 1, newObject. apply storeSound_create.
    apply (storeSound_quiet w); [apply quiet_with_heap | done].
Qed.

Lemma storeSound_perform (c : Call) (w : World) :
  storeSound w -> storeSound (world_of (perform c w)).
Proof.
  intros Hsound. destruct c; cbn [perform].
  - by apply storeSound_init.
  - rewrite update_updateEditor.
    apply (storeSound_quiet w); [apply quiet_updateEditor | done].
  - by apply storeSound_create.
  - apply (storeSound_quiet w); [apply quiet_get | done].
  - apply (storeSound_quiet w); [apply quiet_hasEditors | done].
  - apply (storeSound_quiet w); [apply quiet_updateEditor | done].
  - apply (storeSound_quiet w); [apply quiet_resizeAll | done].
  - by apply storeSound_loaderReady.
  - by apply storeSound_disposeCallback.
  - apply (storeSound_quiet w); [apply quiet_contentChanged | done].
  - apply (storeSound_quiet w); [apply quiet_setValue | done].
  - apply (storeSound_quiet w); [apply quiet_with_heap | done].
  - apply (storeSound_quiet w); [apply quiet_with_observables | done].
Qed.

Lemma session_snoc (calls : list Call) (c : Call) (w : World) :
  session (calls ++ [c]) w = world_of (perform c (session calls w)).
Proof. unfold session. by rewrite foldl_app. Qed.

Lemma storeSound_page (ids : gmap Element string) : storeSound (page ids).
Proof.
  split; [|split].
  - intros key h Hh.
    change (instances (page ids)) with (∅ : gmap string Handle) in Hh.
    by rewrite lookup_empty in Hh.
  - intros p Hp. by apply elem_of_nil in Hp.
  - intros h Hh. discriminate Hh.
Qed.

Lemma storeSound_session (ids : gmap Element string) (calls : list Call) :
  storeSound (session calls (page ids)).
Proof.
  induction calls as [|c calls IH] using rev_ind; [apply storeSound_page|].
  rewrite session_snoc. by apply storeSound_perform.
Qed.

(** X11: what the store holds, whatever the page does.  After any sequence
    of calls on a page that has just loaded the script, every entry of the
    store has a nonempty key, its widget exists, was not released and
    lives in the element whose id is the key; and no widget is stored
    under two keys. *)
Theorem session_store_sound (ids : gmap Element string) (calls : list Call) :
  forall key h,
    instances (session calls (page ids)) !! key = Some h ->
    key <> "" /\
    (exists e, editors (session calls (page ids)) !! h = Some e /\
               ed_disposed e = false /\
               element_id (ed_container e) (session calls (page ids)) = key) /\
    (forall key', instances (session calls (page ids)) !! key' = Some h ->
                  key' = key).
Proof.
  pose proof (storeSound_session ids calls) as Hsound.
  intros key h Hh. pose proof Hsound as (Hentries & Hwaiting & _).
  destruct (Hentries key h Hh) as (Hkey & Hwidget).
  split; [exact Hkey|]. split; [exact Hwidget|].
  intros key' Hh'. by apply (storeSound_inj _ key' key h Hsound).
Qed.

Lemma session_store_sound_witness :
  instances (session demoCalls demoPage) !! "knockout-monaco-1" = Some 2%positive /\
  exists e, editors (session demoCalls demoPage) !! 2%positive = Some e /\
            ed_disposed e = false /\
            element_id (ed_container e) (session demoCalls demoPage)
            = "knockout-monaco-1".
Proof.
  assert (instances (session demoCalls demoPage) !! "knockout-monaco-1"
          = Some 2%positive) as Hh by (vm_compute; reflexivity).
  split; [exact Hh|].
  destruct (session_store_sound _ demoCalls "knockout-monaco-1" 2%positive Hh)
    as (_ & Hwidget & _).
  exact Hwidget.
Defined.

(** ** Sessions: what becomes of the ids *)

Lemma idsMove_quiet (w w' : World) : quiet w w' -> idsMove w w'.
Proof.
  intros (Hd & Hs & _). left. split; [exact Hd|].
  unfold nextStoreEntryId. by rewrite Hs.
Qed.

Lemma idsMove_create (element : Element) (options : JSVal) (accessor : ModelProp)
    (w : World) :
  idsMove w (world_of (create element options accessor w)).
Proof.
  rewrite create_bound. cbn [world_of]. unfold bound.
  destruct (lacksId w element) eqn:Hlacks.
  - apply lacksId_true in Hlacks. right. by exists element.
  - by left.
Qed.

Lemma idsMove_after_quiet (w w1 w' : World) :
  quiet w w1 -> idsMove w1 w' -> idsMove w w'.
Proof.
  intros Hquiet Hmove. pose proof Hquiet as (Hd & Hs & _).
  assert (nextStoreEntryId w1 = nextStoreEntryId w) as Hn
    by (unfold nextStoreEntryId; by rewrite Hs).
  destruct Hmove as [[Hd' Hn'] | (element & Hid & Hn' & Hd')].
  - left. split; congruence.
  - right. exists element. rewrite (quiet_element_id w w1) in Hid by done.
    split; [exact Hid|]. split; [congruence|]. by rewrite Hd', Hn, Hd.
Qed.

Lemma idsMove_perform (c : Call) (w : World) :
  idsMove w (world_of (perform c w)).
Proof.
  destruct c; cbn [perform].
  - unfold init.
    destruct (bindings_has allBindingsAccessor "meOptions"); [|by left].
    destruct (truthy (bindings_get allBindingsAccessor "meOptions")).
    + rewrite bind_ret. apply idsMove_create.
    + unfold bind at 1, newObject.
      eapply idsMove_after_quiet; [|apply idsMove_create].
      apply quiet_with_heap.
  - rewrite update_updateEditor. apply idsMove_quiet, quiet_updateEditor.
  - apply idsMove_create.
  - apply idsMove_quiet, quiet_get.
  - apply idsMove_quiet, quiet_hasEditors.
  - apply idsMove_quiet, quiet_updateEditor.
  - apply idsMove_quiet, quiet_resizeAll.
  - unfold loaderReady. rewrite bind_gets.
    destruct (loading w) as [|p rest]; [by left|].
    rewrite bind_modify.
    destruct (create_loaded_spec p (with_loading rest w))
      as (w' & -> & Hdom & _ & _ & _ & Hn & _).
    left. by split.
  - rewrite disposeCallback_disposeEntry.
    destruct (disposeEntry_cases (element_id element w) w)
      as [(h & _ & ->) | (_ & message & ->)]; by left.
  - apply idsMove_quiet, quiet_contentChanged.
  - apply idsMove_quiet, quiet_setValue.
  - apply idsMove_quiet, quiet_with_heap.
  - apply idsMove_quiet, quiet_with_observables.
Qed.

Lemma idsMove_stable (w w' : World) (element : Element) :
  idsMove w w' -> element_id element w <> "" ->
  element_id element w' = element_id element w.
Proof.
  intros [[Hd _] | (named & Hid & _ & Hd)] Hhas; unfold element_id; rewrite Hd.
  - done.
  - rewrite lookup_insert_ne; [done|]. intros <-. done.
Qed.

Lemma idsMove_counter (w w' : World) :
  idsMove w w' -> (nextStoreEntryId w <= nextStoreEntryId w')%N.
Proof. intros [[_ Hn] | (_ & _ & Hn & _)]; lia. Qed.

Lemma idsSound_move (ids : gmap Element string) (w w' : World) :
  idsMove w w' -> idsSound ids w -> idsSound ids w'.
Proof.
  intros Hmove (Hkept & Hgen & Hdiff).
  pose proof (idsMove_counter w w' Hmove) as Hle.
  assert (forall element, element_id element w = "" ->
            element_id element w' = "" \/
            (element_id element w'
             = editorDomElementIdPrefix +:+ pretty (nextStoreEntryId w + 1)%N /\
             nextStoreEntryId w' = (nextStoreEntryId w + 1)%N /\
             forall other, other <> element ->
               element_id other w' = element_id other w)) as Hnew.
  { intros element Hnone.
    destruct Hmove as [[Hd _] | (named & Hid & Hn & Hd)].
    - left. unfold element_id in *. by rewrite Hd.
    - destruct (decide (element = named)) as [->|Hne].
      + right. unfold element_id. rewrite Hd.
        split; [by rewrite lookup_insert_eq|]. split; [exact Hn|].
        intros other Hother. by rewrite lookup_insert_ne.
      + left. unfold element_id in *. rewrite Hd.
        by rewrite lookup_insert_ne. }
  assert (forall element n,
            element_id element (page ids) = "" ->
            element_id element w = editorDomElementIdPrefix +:+ pretty n ->
            (n <= nextStoreEntryId w)%N) as Hbound.
  { intros element n Hinit Hid. destruct (Hgen element Hinit) as [Hnone|(n' & Hn' & Hid')].
    - rewrite Hnone in Hid. discriminate Hid.
    - rewrite Hid' in Hid. apply prefix_inj in Hid. apply (inj pretty) in Hid.
      lia. }
  split; [|split].
  - intros element Hinit. rewrite <- (Hkept element Hinit).
    apply (idsMove_stable w w'); [done|]. by rewrite (Hkept element Hinit).
  - intros element Hinit.
    destruct (decide (element_id element w = "")) as [Hnone|Hhas].
    + destruct (Hnew element Hnone) as [Hstill | (Hid & Hn & _)]; [by left|].
      right. exists (nextStoreEntryId w + 1)%N. split; [lia|exact Hid].
    + rewrite (idsMove_stable w w') by done.
      destruct (Hgen element Hinit) as [Hnone|(n & Hn & Hid)]; [done|].
      right. exists n. split; [lia|exact Hid].
  - intros first second Hinit1 Hinit2 Hhas Hsame.
    destruct (decide (element_id first w = "")) as [Hnone1|Hhas1];
      destruct (decide (element_id second w = "")) as [Hnone2|Hhas2].
    + destruct (Hnew first Hnone1) as [Hstill | (_ & _ & Hothers)]; [done|].
      destruct (decide (first = second)) as [|Hne]; [done|].
      exfalso. apply Hhas. rewrite Hsame, Hothers by done. exact Hnone2.
    + exfalso.
      destruct (Hnew first Hnone1) as [Hstill | (Hid & _ & _)]; [done|].
      rewrite (idsMove_stable w w' second) in Hsame by done.
      rewrite Hid in Hsame. symmetry in Hsame.
      pose proof (Hbound second _ Hinit2 Hsame). lia.
    + exfalso.
      destruct (Hnew second Hnone2) as [Hstill | (Hid & _ & _)].
      * apply Hhas. by rewrite Hsame.
      * rewrite (idsMove_stable w w' first) in Hsame by done.
        rewrite Hid in Hsame.
        pose proof (Hbound first _ Hinit1 Hsame). lia.
    + rewrite (idsMove_stable w w' first), (idsMove_stable w w' second) in Hsame
        by done.
      by apply Hdiff.
Qed.

Lemma idsSound_page (ids : gmap Element string) : idsSound ids (page ids).
Proof.
  split; [done|]. split; [by left|]. intros first second Hnone _ Hhas. done.
Qed.

(** X12: what becomes of the ids, whatever the page does.  After any
    sequence of calls on a page that has just loaded the script, an
    element that had an id still has it, an element that had none has none
    or 'knockout-monaco-' followed by a number from 1 to the counter, no
    two such elements share an id, and an id once given is never changed
    by a further call. *)
Theorem session_ids (ids : gmap Element string) (calls : list Call) :
  (forall element, element_id element (page ids) <> "" ->
     element_id element (session calls (page ids))
     = element_id element (page ids)) /\
  (forall element, element_id element (page ids) = "" ->
     element_id element (session calls (page ids)) = "" \/
     exists n, (0 < n <= nextStoreEntryId (session calls (page ids)))%N /\
               element_id element (session calls (page ids))
               = editorDomElementIdPrefix +:+ pretty n) /\
  (forall first second,
     element_id first (page ids) = "" -> element_id second (page ids) = "" ->
     element_id first (session calls (page ids)) <> "" ->
     element_id first (session calls (page ids))
     = element_id second (session calls (page ids)) ->
     first = second) /\
  (forall c element,
     element_id element (session calls (page ids)) <> "" ->
     element_id element (session (calls ++ [c]) (page ids))
     = element_id element (session calls (page ids))) /\
  (forall c, (nextStoreEntryId (session calls (page ids))
              <= nextStoreEntryId (session (calls ++ [c]) (page ids)))%N).
Proof.
  assert (idsSound ids (session calls (page ids))) as (Hkept & Hgen & Hdiff).
  { induction calls as [|c calls IH] using rev_ind; [apply idsSound_page|].
    rewrite session_snoc. eapply idsSound_move; [apply idsMove_perform|exact IH]. }
  split; [exact Hkept|]. split; [exact Hgen|]. split; [exact Hdiff|]. split.
  - intros c element Hhas. rewrite session_snoc.
    apply idsMove_stable; [apply idsMove_perform|exact Hhas].
  - intros c. rewrite session_snoc. apply idsMove_counter, idsMove_perform.
Qed.

Lemma session_ids_witness :
  element_id 1 (session demoCalls demoPage) = "a" /\
  element_id 2 (session demoCalls demoPage)
  <> element_id 4 (session demoCalls demoPage).
Proof.
  unfold demoPage.
  destruct (session_ids
              (<[3%positive := "knockout-monaco-1"]> (<[1%positive := "a"]> ∅))
              demoCalls) as (Hkept & _ & Hdiff & _).
  split.
  - rewrite (Hkept 1%positive); [reflexivity|]. vm_compute. discriminate.
  - intros Hsame. apply Hdiff in Hsame.
    + discriminate Hsame.
    + reflexivity.
    + reflexivity.
    + vm_compute. discriminate.
Defined.

(** ** Widgets outside the store, and widgets and their models *)

Lemma create_loaded_new_model (p : Pending) (w : World) :
  exists w' e, create_loaded p w = Returns tt w' /\
    editors w' !! fresh (dom (editors w)) = Some e /\
    models w !! ed_model e = None.
Proof.
  unfold create_loaded.
  destruct (heapOnly_parseOptions (p_options p) w) as (parsed & h1 & Hparse).
  unfold bind at 1. rewrite Hparse.
  unfold getProp at 1. rewrite bind_gets.
  set (language := readProp parsed "language" (with_heap h1 w)).
  unfold bind at 1, createModel, bind at 1, newModel, ret.
  cbn [models with_heap].
  set (r := fresh (dom (models w))).
  set (w2 := with_models _ (with_heap h1 w)).
  unfold setProp at 1. rewrite bind_modify.
  set (w3 := writeProp parsed "model" (VModel r) w2).
  unfold bind at 1. rewrite monaco_editor_create_spec.
  assert (models w3 = <[r := mkTextModel (p_startingEditorValue p) language 0]> (models w))
    as Hmodels by (unfold w3; by rewrite models_writeProp).
  assert (editors w3 = editors w) as Heditors.
  { unfold w3, writeProp. destruct parsed; try done. by destruct (heap w2 !! l). }
  rewrite Heditors. set (h := fresh (dom (editors w))).
  unfold call at 1. rewrite bind_modify.
  unfold addDisposeCallback at 1. rewrite bind_modify.
  rewrite bind_gets. unfold modify.
  assert (readProp parsed "model" w3 = VModel r \/
          readProp parsed "model" w3 = VUndefined) as Hset
    by apply readProp_writeProp.
  clearbody w3.
  eexists. eexists. split; [reflexivity|].
  match goal with |- context [assign ?k h ?ww] =>
    destruct (assign_fields k h ww) as (_ & _ & _ & _ & Ae & _) end.
  rewrite Ae.
  unfold with_disposeCallbacks, with_editors, with_models.
  cbn [editors]. rewrite alter_insert_eq, lookup_insert_eq.
  split; [reflexivity|].
  unfold onDidChangeModelContent. cbn [ed_model]. unfold shownModel.
  destruct Hset as [Hset|Hset]; rewrite Hset.
  - apply not_elem_of_dom. apply is_fresh.
  - apply not_elem_of_dom. intros Hin.
    apply (is_fresh (dom (models w3))). rewrite Hmodels in Hin |- *.
    rewrite dom_insert in Hin |- *. apply elem_of_union. by right.
Qed.

Lemma create_sameWidgets (element : Element) (options : JSVal) (accessor : ModelProp)
    (w : World) :
  instances (world_of (create element options accessor w)) = instances w /\
  prototypeOf (world_of (create element options accessor w)) = prototypeOf w /\
  editors (world_of (create element options accessor w)) = editors w /\
  models (world_of (create element options accessor w)) = models w.
Proof.
  rewrite create_bound. cbn [world_of].
  destruct (bound_facts element w) as (_ & _ & Hm & He & Hi & _).
  pose proof (bound_prototype element w) as Hp.
  by repeat split.
Qed.

Lemma widgetsStep_create_loaded (p : Pending) (l : list Pending) (w : World) :
  widgetsStep w (world_of (create_loaded p (with_loading l w))).
Proof.
  destruct (create_loaded_spec p (with_loading l w)) as (w' & Hrun & Hdone).
  destruct (create_loaded_new_model p (with_loading l w))
    as (w'' & e & Hrun' & He & Hnew).
  rewrite Hrun in Hrun'. injection Hrun' as <-. rewrite Hrun. cbn [world_of].
  destruct (createCompleted_store p _ w' Hdone) as [Hinst Hproto].
  destruct Hdone as (_ & _ & _ & _ & _ & _ & (e' & Hed & _ & _ & _ & Hsome) & Hold).
  right. right. right.
  exists (element_id (p_element p) (with_loading l w)), e.
  change (editors (with_loading l w)) with (editors w) in *.
  change (models (with_loading l w)) with (models w) in *.
  rewrite Hed, lookup_insert_eq in He. injection He as ->.
  assert (forall key h,
            monacoEditors (assign key h (with_loading l w))
            = monacoEditors (assign key h w)) as Hsame
    by (intros key h; by apply assign_store).
  unfold instances, prototypeOf in *. rewrite Hsame in Hinst, Hproto.
  by repeat split.
Qed.

Lemma widgetsStep_perform (c : Call) (w : World) :
  widgetsStep w (world_of (perform c w)).
Proof.
  destruct c; cbn [perform].
  - unfold init.
    destruct (bindings_has allBindingsAccessor "meOptions");
      [|left; apply quiet_refl].
    right. left.
    destruct (truthy (bindings_get allBindingsAccessor "meOptions")).
    + rewrite bind_ret. apply create_sameWidgets.
    + unfold bind, newObject.
      apply (create_sameWidgets element _ valueAccessor (with_heap _ w)).
  - left. rewrite update_updateEditor. apply quiet_updateEditor.
  - right. left. apply create_sameWidgets.
  - left. apply quiet_get.
  - left. apply quiet_hasEditors.
  - left. apply quiet_updateEditor.
  - left. apply quiet_resizeAll.
  - unfold loaderReady. rewrite bind_gets.
    destruct (loading w) as [|p rest]; [left; apply quiet_refl|].
    rewrite bind_modify. apply widgetsStep_create_loaded.
  - rewrite disposeCallback_disposeEntry.
    destruct (disposeEntry_cases (element_id element w) w)
      as [(h & Hm & ->) | (_ & message & ->)].
    + cbn [world_of]. right. right. left.
      by exists (element_id element w), h.
    + left. apply quiet_refl.
  - left. apply quiet_contentChanged.
  - left. apply quiet_setValue.
  - left. apply quiet_with_heap.
  - left. apply quiet_with_observables.
Qed.

Lemma dropped_step (w w' : World) (h : Handle) (e : Editor) :
  widgetsStep w w' -> editors w !! h = Some e -> unstored w h ->
  editors w' !! h = Some e /\ unstored w' h.
Proof.
  intros Hstep He Hun.
  destruct Hstep as [Hquiet | [(Hi & Hp & Hed & _) | [Hrel | Hnew]]].
  - split; [|by apply (quiet_unstored w)].
    destruct Hquiet as (_ & _ & _ & _ & _ & Hout). by rewrite Hout.
  - split; [by rewrite Hed|]. destruct Hun as [Hkeys Hproto].
    split; [intros key; rewrite Hi; apply Hkeys | by rewrite Hp].
  - destruct Hrel as (key & h0 & Hh0 & Hi & Hp & Hed & _). split.
    + rewrite Hed, lookup_alter_ne; [done|]. intros <-.
      by apply (member_stored w key h0).
    + destruct Hun as [Hkeys Hproto]. split; [|by rewrite Hp].
      intros key' Hkey'. rewrite Hi in Hkey'.
      apply lookup_delete_Some in Hkey' as [_ Hkey']. by apply (Hkeys key').
  - destruct Hnew as (key & e0 & Hi & Hp & Hed & _).
    assert (h <> fresh (dom (editors w))) as Hne.
    { intros ->. apply (is_fresh (dom (editors w))). by apply elem_of_dom_2 in He. }
    split; [by rewrite Hed, lookup_insert_ne|].
    destruct Hun as [Hkeys Hproto].
    destruct (assign_cases key (fresh (dom (editors w))) w)
      as [[Hown Hsame] | (_ & _ & Hown & Hchanged)];
      rewrite Hown in Hi; [rewrite Hsame in Hp|rewrite Hchanged in Hp].
    + split; [|by rewrite Hp].
      intros key' Hkey'. rewrite Hi in Hkey'.
      apply lookup_insert_Some in Hkey' as [[_ Heq] | [_ Hkey']]; [done|].
      by apply (Hkeys key').
    + split; [intros key'; rewrite Hi; apply Hkeys|].
      rewrite Hp. congruence.
Qed.

(** X17: what the store has let go of is out of reach.  A widget that the
    store object does not hold, neither under a key nor as its prototype,
    as the one whose entry a later [create] overwrote, is as it was after
    any sequence of calls: no call lays it out, sets its position or
    releases it, and no call puts it back into the store. *)
Theorem dropped_widget_stays (calls : list Call) (w : World) (h : Handle)
    (e : Editor) :
  editors w !! h = Some e -> unstored w h ->
  editors (session calls w) !! h = Some e /\ unstored (session calls w) h.
Proof.
  revert w. induction calls as [|c calls IH]; intros w He Hun; [done|].
  change (session (c :: calls) w) with (session calls (world_of (perform c w))).
  destruct (dropped_step w (world_of (perform c w)) h e) as [He' Hun'];
    [apply widgetsStep_perform | done | done |].
  by apply IH.
Qed.

Lemma dropped_widget_stays_witness :
  exists e, editors clashLive !! 1%positive = Some e /\
            ed_disposed e = false /\
            editors (session [ElementRemoved 2%positive; CallResizeAll;
                              ElementRemoved 3%positive] clashLive) !! 1%positive
            = Some e.
Proof.
  eexists. split; [vm_compute; reflexivity|]. split; [reflexivity|].
  apply dropped_widget_stays.
  - vm_compute. reflexivity.
  - split; [|vm_compute; discriminate]. intros key Hkey.
    assert (map_Forall (fun _ h => h <> 1%positive) (instances clashLive)) as Hall
      by (apply (bool_decide_unpack _); vm_compute; reflexivity).
    by apply (Hall key 1%positive).
Defined.

Lemma modelsApart_from (w w' : World) :
  (forall h e', editors w' !! h = Some e' ->
     exists e, editors w !! h = Some e /\ ed_model e = ed_model e') ->
  (forall r, is_Some (models w !! r) -> is_Some (models w' !! r)) ->
  modelsApart w -> modelsApart w'.
Proof.
  intros Hed Hmod [Hsome Hinj]. split.
  - intros h e' He'. destruct (Hed h e' He') as (e & He & <-).
    apply Hmod. by apply (Hsome h).
  - intros h1 h2 e1' e2' He1 He2 Heq.
    destruct (Hed h1 e1' He1) as (e1 & He1' & Hm1).
    destruct (Hed h2 e2' He2) as (e2 & He2' & Hm2).
    apply (Hinj h1 h2 e1 e2); congruence.
Qed.

Lemma modelsApart_step (w w' : World) :
  widgetsStep w w' -> modelsApart w -> modelsApart w'.
Proof.
  intros Hstep Hap.
  destruct Hstep as [Hquiet | [(_ & _ & Hed & Hm) | [Hrel | Hnew]]].
  - destruct Hquiet as (_ & _ & _ & Hfields & Hdom & _).
    apply (modelsApart_from w); [| |done].
    + intros h e' He'. specialize (Hfields h). rewrite He' in Hfields.
      destruct (editors w !! h) as [e|]; [|done].
      simpl in Hfields. injection Hfields as _ _ Hmodel. by exists e.
    + intros r Hr. apply elem_of_dom. rewrite Hdom. by apply elem_of_dom.
  - apply (modelsApart_from w); [| |done].
    + intros h e' He'. rewrite Hed in He'. by exists e'.
    + intros r Hr. by rewrite Hm.
  - destruct Hrel as (key & h0 & _ & _ & _ & Hed & Hm).
    apply (modelsApart_from w); [| |done].
    + intros h e' He'. rewrite Hed, lookup_alter in He'.
      case_decide as Heq; [subst h|by exists e'].
      destruct (editors w !! h0) as [e|]; [|done].
      simpl in He'. injection He' as <-. by exists e.
    + intros r Hr. by rewrite Hm.
  - destruct Hnew as (key & e0 & _ & _ & Hed & Hfresh & Hsome0 & Hold).
    destruct Hap as [Hsome Hinj]. split.
    + intros h e He. rewrite Hed in He.
      apply lookup_insert_Some in He as [[_ <-] | [_ He]]; [done|].
      rewrite Hold; by apply (Hsome h).
    + intros h1 h2 e1 e2 He1 He2 Heq. rewrite Hed in He1, He2.
      apply lookup_insert_Some in He1 as [[<- <-] | [Hne1 He1]];
        apply lookup_insert_Some in He2 as [[<- <-] | [Hne2 He2]].
      * done.
      * exfalso. destruct (Hsome h2 e2 He2) as [m Hm]. congruence.
      * exfalso. destruct (Hsome h1 e1 He1) as [m Hm]. congruence.
      * by apply (Hinj h1 h2 e1 e2).
Qed.

Lemma modelsApart_session (calls : list Call) (w : World) :
  modelsApart w -> modelsApart (session calls w).
Proof.
  revert w. induction calls as [|c calls IH]; intros w Hap; [done|].
  change (session (c :: calls) w) with (session calls (world_of (perform c w))).
  apply IH. apply (modelsApart_step w); [apply widgetsStep_perform | done].
Qed.

Lemma retexted_other (w : World) (h1 h : Handle) (e1 : Editor) (v : string) :
  modelsApart w -> editors w !! h1 = Some e1 -> h <> h1 ->
  textOf (retexted h1 (ed_model e1) v w) h = textOf w h /\
  editors (retexted h1 (ed_model e1) v w) !! h = editors w !! h.
Proof.
  intros [_ Hinj] He1 Hne.
  assert (editors (retexted h1 (ed_model e1) v w) !! h = editors w !! h) as Hsame.
  { unfold retexted. cbn [editors with_editors]. by rewrite lookup_alter_ne. }
  split; [|exact Hsame].
  unfold textOf. rewrite Hsame.
  destruct (editors w !! h) as [e|] eqn:He; [|done].
  unfold retexted. cbn [models with_editors with_models].
  rewrite lookup_alter_ne; [done|].
  intros Heq. apply Hne. symmetry. by apply (Hinj h1 h e1 e).
Qed.

(** X18: an update reaches one widget.  In every state that a sequence of
    calls makes of a page, no two widgets show the same text model; so
    [updateEditor] changes neither the text nor the cursor of any widget
    other than the one stored under the id it was given. *)
Theorem updateEditor_leaves_others (ids : gmap Element string)
    (calls : list Call) (id : Id) (koModelValue : string) (h : Handle) :
  instances (session calls (page ids)) !! propertyKey id <> Some h ->
  modelsApart (session calls (page ids)) /\
  textOf (world_of (updateEditor id koModelValue (session calls (page ids)))) h
  = textOf (session calls (page ids)) h /\
  editors (world_of (updateEditor id koModelValue (session calls (page ids)))) !! h
  = editors (session calls (page ids)) !! h.
Proof.
  set (w := session calls (page ids)). intros Hother.
  assert (modelsApart w) as Hap.
  { apply modelsApart_session. split; [intros h' e He | intros h1 h2 e1 e2 He];
      unfold page in He; cbn [editors] in He; by rewrite lookup_empty in He. }
  split; [exact Hap|].
  destruct (updateEditor_outcome id koModelValue w)
    as [-> | [(h1 & e1 & Hh & He1 & ->) | (h1 & Hh & He1 & ->)]]; [done| |].
  - apply (retexted_other w h1 h e1 koModelValue); congruence.
  - unfold textOf. cbn [editors models with_editors].
    rewrite lookup_alter_ne; [done|congruence].
Qed.

Lemma updateEditor_leaves_others_witness :
  instances (session demoCalls demoPage) !! "knockout-monaco-1" <> Some 3%positive /\
  textOf (world_of (updateEditor (IdStr "knockout-monaco-1") "new"
                      (session demoCalls demoPage))) 3%positive
  = "fourth".
Proof.
  unfold demoPage.
  destruct (updateEditor_leaves_others
              (<[3%positive := "knockout-monaco-1"]> (<[1%positive := "a"]> ∅))
              demoCalls (IdStr "knockout-monaco-1") "new" 3%positive)
    as (_ & Htext & _).
  - vm_compute. discriminate.
  - split; [vm_compute; discriminate|].
    rewrite Htext. vm_compute. reflexivity.
Defined.
